(** * Orchestrator core: task graph, session hierarchy and persistent store

    A shallow embedding of the TypeScript sources of the orchestrator
    package (TaskManifest, TaskExecutor, OrchestrationSession,
    SessionRegistry, StateManager, ValidationUtils, RecoveryUtils) together
    with the properties that the design document states about them.

    Conventions of the embedding:
    - [Date] values are milliseconds since the epoch, in [Z]; every
      [new Date()] of the source is an explicit clock reading passed to the
      operation.
    - identifiers produced by [generateTaskId], [uuidv4] or the session
      constructor are explicit arguments.
    - a directory of JSON files is a list of (base name, record) pairs in
      [readdir] order; a JavaScript [Map] is an association list in
      insertion order; a JavaScript [Set] of strings is a [gset string].
    - asynchronous functions are run to completion in program order; an
      exception is a value of a sum type. *)

From Stdlib Require Import ZArith QArith Qround Lia Relations Ascii DecimalString.
From stdpp Require Import gmap strings list fin_maps sorting.

Set Warnings "-register-all,-clear-no-such-hyp".

Open Scope string_scope.
Open Scope Z_scope.

(** ** JavaScript helpers *)

(** [Array.prototype.sort] is stable; for a consistent comparator its result
    is the stable sort, written here as an insertion sort: an element is
    inserted before the first element it does not compare greater than. *)
Fixpoint js_sort_insert {A} (cmp : A -> A -> Z) (x : A) (l : list A) : list A :=
  match l with
  | [] => [x]
  | y :: l' => if Z.leb (cmp x y) 0 then x :: y :: l' else y :: js_sort_insert cmp x l'
  end.

Definition js_sort {A} (cmp : A -> A -> Z) (l : list A) : list A :=
  foldr (js_sort_insert cmp) [] l.

(** Decimal rendering of an integer, as in a template literal. *)
Definition decimal (n : Z) : string := NilZero.string_of_int (Z.to_int n).

(** Truthiness of a string: only the empty string is falsy. *)
Definition truthy_str (s : string) : bool := negb (String.eqb s "").

(** Truthiness of an optional string ([undefined] is falsy). *)
Definition truthy_ostr (o : option string) : bool :=
  match o with Some s => truthy_str s | None => false end.

(** [Array.prototype.indexOf] on strings, [-1] when absent. *)
Fixpoint indexOf (x : string) (l : list string) : Z :=
  match l with
  | [] => -1
  | y :: l' => if String.eqb y x then 0
               else let r := indexOf x l' in if Z.ltb r 0 then -1 else r + 1
  end.

(** [Array.prototype.slice(start)]: a negative start counts from the end. *)
Definition slice_from {A} (start : Z) (l : list A) : list A :=
  if Z.ltb start 0
  then drop (Z.to_nat (Z.max (Z.of_nat (length l) + start) 0)) l
  else drop (Z.to_nat start) l.

(** A JavaScript [Map<string, V>]: association list in insertion order.
    [set] on an existing key keeps its position. *)
Module JsMap.
Definition t (V : Type) := list (string * V).

Fixpoint get {V} (k : string) (m : t V) : option V :=
  match m with
  | [] => None
  | (k', v) :: m' => if String.eqb k' k then Some v else get k m'
  end.

Definition has {V} (k : string) (m : t V) : bool :=
  match get k m with Some _ => true | None => false end.

Fixpoint set {V} (k : string) (v : V) (m : t V) : t V :=
  match m with
  | [] => [(k, v)]
  | (k', v') :: m' => if String.eqb k' k then (k', v) :: m' else (k', v') :: set k v m'
  end.

Definition keys {V} (m : t V) : list string := map fst m.
End JsMap.

(** ** Task types (types/task.ts) *)

Module TaskPriority.
Inductive t := LOW | MEDIUM | HIGH | CRITICAL.
Definition eqb (a b : t) : bool :=
  match a, b with
  | LOW, LOW | MEDIUM, MEDIUM | HIGH, HIGH | CRITICAL, CRITICAL => true
  | _, _ => false
  end.
End TaskPriority.

Module TaskStatus.
Inductive t := NOT_STARTED | IN_PROGRESS | COMPLETED | BLOCKED | CANCELLED | FAILED.
Definition eqb (a b : t) : bool :=
  match a, b with
  | NOT_STARTED, NOT_STARTED | IN_PROGRESS, IN_PROGRESS | COMPLETED, COMPLETED
  | BLOCKED, BLOCKED | CANCELLED, CANCELLED | FAILED, FAILED => true
  | _, _ => false
  end.
Definition all : list t := [NOT_STARTED; IN_PROGRESS; COMPLETED; BLOCKED; CANCELLED; FAILED].
End TaskStatus.

Module DependencyType.
Inductive t := FINISH_TO_START | START_TO_START | FINISH_TO_FINISH | START_TO_FINISH.

(** The member of the enum that a run-time value is, if it is one. *)
Definition of_value (v : string) : option t :=
  if String.eqb v "finish_to_start" then Some FINISH_TO_START
  else if String.eqb v "start_to_start" then Some START_TO_START
  else if String.eqb v "finish_to_finish" then Some FINISH_TO_FINISH
  else if String.eqb v "start_to_finish" then Some START_TO_FINISH
  else None.
End DependencyType.

(** [dep_type] is the run-time value of [type]: the records of the tasks
    directory are not checked against the enum and may carry another text
    (requires, blocks, enables). *)
Record TaskDependency := {
  dep_taskId : string;
  dep_type : string
}.

Record AcceptanceCriteria := {
  ac_id : string;
  ac_description : string;
  ac_isMet : bool
}.

Record TaskEstimation := {
  est_effortHours : option Q;
  est_durationHours : option Q;
  est_confidence : option Q
}.

Record TaskProgress := {
  completionPercentage : Q;
  progress_description : option string;
  lastUpdated : Z
}.

Record Task := {
  task_id : string;
  task_name : string;
  task_description : string;
  task_status : TaskStatus.t;
  task_priority : TaskPriority.t;
  task_orchestrationId : string;
  task_parentTaskId : option string;
  task_childTaskIds : list string;
  task_dependencies : list TaskDependency;
  task_acceptanceCriteria : list AcceptanceCriteria;
  task_estimation : option TaskEstimation;
  task_progress : TaskProgress;
  task_sessionId : option string;
  task_createdAt : Z;
  task_startedAt : option Z;
  task_completedAt : option Z;
  task_updatedAt : Z;
  task_assignee : option string;
  task_tags : list string
}.

(** [Partial<TaskProgress>] *)
Record PartialTaskProgress := {
  pp_completionPercentage : option Q;
  pp_description : option string;
  pp_lastUpdated : option Z
}.

(** [UpdateTaskParams]: [None] is an absent key. *)
Record UpdateTaskParams := {
  up_name : option string;
  up_description : option string;
  up_status : option TaskStatus.t;
  up_priority : option TaskPriority.t;
  up_dependencies : option (list TaskDependency);
  up_acceptanceCriteria : option (list AcceptanceCriteria);
  up_estimation : option TaskEstimation;
  up_progress : option PartialTaskProgress;
  up_sessionId : option string;
  up_assignee : option string;
  up_tags : option (list string)
}.

Definition no_update : UpdateTaskParams :=
  {| up_name := None; up_description := None; up_status := None; up_priority := None;
     up_dependencies := None; up_acceptanceCriteria := None; up_estimation := None;
     up_progress := None; up_sessionId := None; up_assignee := None; up_tags := None |}.

Record TaskQuery := {
  q_orchestrationId : option string;
  q_status : option TaskStatus.t;
  q_priority : option TaskPriority.t;
  q_parentTaskId : option string;
  q_assignee : option string;
  q_tags : option (list string);
  q_dateRange : option (option Z * option Z);
  q_limit : option nat;
  q_offset : option nat
}.

Definition empty_query : TaskQuery :=
  {| q_orchestrationId := None; q_status := None; q_priority := None;
     q_parentTaskId := None; q_assignee := None; q_tags := None;
     q_dateRange := None; q_limit := None; q_offset := None |}.

(** ** TaskManifest (state/TaskManifest.ts) *)

(** The tasks directory: one entry per [<id>.json] file, holding the record
    that [loadTask] parses from it, in [readdir] order. *)
Definition TaskDir := list (string * Task).

Module TaskManifest.

(** [loadTask]: the record stored under [<taskId>.json], [null] if absent. *)
Fixpoint loadTask (taskId : string) (dir : TaskDir) : option Task :=
  match dir with
  | [] => None
  | (f, t) :: dir' => if String.eqb f taskId then Some t else loadTask taskId dir'
  end.

(** [saveTask]: [fs.writeFile] to [<task.id>.json]; an existing file keeps its
    directory slot, a new file is listed last. *)
Fixpoint writeTaskFile (f : string) (t : Task) (dir : TaskDir) : TaskDir :=
  match dir with
  | [] => [(f, t)]
  | (f', t') :: dir' =>
      if String.eqb f' f then (f', t) :: dir' else (f', t') :: writeTaskFile f t dir'
  end.

Definition saveTask (t : Task) (dir : TaskDir) : TaskDir :=
  writeTaskFile (task_id t) t dir.

Definition opt_or {A} (o : option A) (d : A) : A :=
  match o with Some a => a | None => d end.

Definition opt_over {A} (o : option A) (d : option A) : option A :=
  match o with Some a => Some a | None => d end.

(** [updateTask(taskId, params)] with clock reading [now].  Returns the
    updated task ([None] for the [null] of a missing task) and the new
    directory. *)
Definition updateTask (now : Z) (taskId : string) (params : UpdateTaskParams)
    (dir : TaskDir) : option Task * TaskDir :=
  match loadTask taskId dir with
  | None => (None, dir)
  | Some task =>
      let progressUpdate :=
        match up_progress params with
        | Some p =>
            {| completionPercentage :=
                 opt_or (pp_completionPercentage p) (completionPercentage (task_progress task));
               progress_description :=
                 opt_over (pp_description p) (progress_description (task_progress task));
               lastUpdated := opt_or (pp_lastUpdated p) (lastUpdated (task_progress task)) |}
        | None => task_progress task
        end in
      let completedAt' :=
        match up_status params with
        | Some TaskStatus.COMPLETED =>
            if TaskStatus.eqb (task_status task) TaskStatus.COMPLETED
            then task_completedAt task else Some now
        | _ => task_completedAt task
        end in
      let startedAt' :=
        match up_status params with
        | Some s =>
            if negb (TaskStatus.eqb s TaskStatus.NOT_STARTED)
               && TaskStatus.eqb (task_status task) TaskStatus.NOT_STARTED
            then Some now else task_startedAt task
        | None => task_startedAt task
        end in
      let updatedTask :=
        {| task_id := task_id task;
           task_name := opt_or (up_name params) (task_name task);
           task_description := opt_or (up_description params) (task_description task);
           task_status := opt_or (up_status params) (task_status task);
           task_priority := opt_or (up_priority params) (task_priority task);
           task_orchestrationId := task_orchestrationId task;
           task_parentTaskId := task_parentTaskId task;
           task_childTaskIds := task_childTaskIds task;
           task_dependencies := opt_or (up_dependencies params) (task_dependencies task);
           task_acceptanceCriteria :=
             opt_or (up_acceptanceCriteria params) (task_acceptanceCriteria task);
           task_estimation := opt_over (up_estimation params) (task_estimation task);
           task_progress := progressUpdate;
           task_sessionId := opt_over (up_sessionId params) (task_sessionId task);
           task_createdAt := task_createdAt task;
           task_startedAt := startedAt';
           task_completedAt := completedAt';
           task_updatedAt := now;
           task_assignee := opt_over (up_assignee params) (task_assignee task);
           task_tags := opt_or (up_tags params) (task_tags task) |} in
      (Some updatedTask, saveTask updatedTask dir)
  end.

(** [taskMatchesQuery] *)
Definition taskMatchesQuery (task : Task) (query : TaskQuery) : bool :=
  (match q_orchestrationId query with
   | Some o => negb (truthy_str o && negb (String.eqb (task_orchestrationId task) o))
   | None => true
   end)
  && (match q_status query with
      | Some s => TaskStatus.eqb (task_status task) s
      | None => true
      end)
  && (match q_priority query with
      | Some p => TaskPriority.eqb (task_priority task) p
      | None => true
      end)
  && (match q_parentTaskId query with
      | Some p => negb (truthy_str p && negb (bool_decide (task_parentTaskId task = Some p)))
      | None => true
      end)
  && (match q_assignee query with
      | Some a => negb (truthy_str a && negb (bool_decide (task_assignee task = Some a)))
      | None => true
      end)
  && (match q_tags query with
      | Some (tg :: tgs) =>
          existsb (fun tag => existsb (String.eqb tag) (task_tags task)) (tg :: tgs)
      | _ => true
      end)
  && (match q_dateRange query with
      | Some (from, to) =>
          (match from with Some f => negb (Z.ltb (task_createdAt task) f) | None => true end)
          && (match to with Some u => negb (Z.ltb u (task_createdAt task)) | None => true end)
      | None => true
      end).

(** [queryTasks]: scan, filter, sort newest first, then offset and limit
    (a zero offset or limit is falsy and skipped). *)
Definition queryTasks (query : TaskQuery) (dir : TaskDir) : list Task :=
  let tasks := filter (fun t => taskMatchesQuery t query = true) (map snd dir) in
  let tasks := js_sort (fun a b => task_createdAt b - task_createdAt a) tasks in
  let tasks := match q_offset query with Some o => drop o tasks | None => tasks end in
  match q_limit query with
  | Some (S n) => take (S n) tasks
  | _ => tasks
  end.

Definition priorityOrder (p : TaskPriority.t) : Z :=
  match p with
  | TaskPriority.CRITICAL => 4
  | TaskPriority.HIGH => 3
  | TaskPriority.MEDIUM => 2
  | TaskPriority.LOW => 1
  end.

(** The comparator of [getNextTask]. *)
Definition nextTaskCompare (a b : Task) : Z :=
  match task_dependencies a, task_dependencies b with
  | [], _ :: _ => -1
  | _ :: _, [] => 1
  | _, _ => priorityOrder (task_priority b) - priorityOrder (task_priority a)
  end.

Definition getNextTask (orchestrationId : string) (dir : TaskDir) : option Task :=
  let tasks :=
    queryTasks {| q_orchestrationId := Some orchestrationId;
                  q_status := Some TaskStatus.NOT_STARTED;
                  q_priority := None; q_parentTaskId := None; q_assignee := None;
                  q_tags := None; q_dateRange := None; q_limit := None;
                  q_offset := None |} dir in
  match tasks with
  | [] => None
  | _ => head (js_sort nextTaskCompare tasks)
  end.

End TaskManifest.

(** ** TaskExecutor (execution/TaskExecutor.ts) *)

Record DependencyCheckResult := {
  allSatisfied : bool;
  satisfiedDependencies : list TaskDependency;
  unsatisfiedDependencies : list TaskDependency;
  blockedBy : list string
}.

Module TaskExecutor.

(** [isDependencySatisfied]: a [switch] over [dependency.type] whose
    [default] branch returns [false]. *)
Definition isDependencySatisfied (dependency : TaskDependency) (dependentTask : Task) : bool :=
  match DependencyType.of_value (dep_type dependency) with
  | Some DependencyType.FINISH_TO_START =>
      TaskStatus.eqb (task_status dependentTask) TaskStatus.COMPLETED
  | Some DependencyType.START_TO_START =>
      TaskStatus.eqb (task_status dependentTask) TaskStatus.IN_PROGRESS
      || TaskStatus.eqb (task_status dependentTask) TaskStatus.COMPLETED
  | Some DependencyType.FINISH_TO_FINISH =>
      TaskStatus.eqb (task_status dependentTask) TaskStatus.COMPLETED
  | Some DependencyType.START_TO_FINISH =>
      TaskStatus.eqb (task_status dependentTask) TaskStatus.IN_PROGRESS
      || TaskStatus.eqb (task_status dependentTask) TaskStatus.COMPLETED
  | None => false
  end.

Definition statusName (s : TaskStatus.t) : string :=
  match s with
  | TaskStatus.NOT_STARTED => "not_started"
  | TaskStatus.IN_PROGRESS => "in_progress"
  | TaskStatus.COMPLETED => "completed"
  | TaskStatus.BLOCKED => "blocked"
  | TaskStatus.CANCELLED => "cancelled"
  | TaskStatus.FAILED => "failed"
  end.

(** One turn of the loop over [task.dependencies]. *)
Definition checkOne (dir : TaskDir) (result : DependencyCheckResult)
    (dependency : TaskDependency) : DependencyCheckResult :=
  match TaskManifest.loadTask (dep_taskId dependency) dir with
  | None =>
      {| allSatisfied := false;
         satisfiedDependencies := satisfiedDependencies result;
         unsatisfiedDependencies := unsatisfiedDependencies result ++ [dependency];
         blockedBy := blockedBy result
                      ++ ["Dependent task " ++ dep_taskId dependency ++ " not found"] |}
  | Some dependentTask =>
      if isDependencySatisfied dependency dependentTask
      then {| allSatisfied := allSatisfied result;
              satisfiedDependencies := satisfiedDependencies result ++ [dependency];
              unsatisfiedDependencies := unsatisfiedDependencies result;
              blockedBy := blockedBy result |}
      else {| allSatisfied := false;
              satisfiedDependencies := satisfiedDependencies result;
              unsatisfiedDependencies := unsatisfiedDependencies result ++ [dependency];
              blockedBy := blockedBy result
                           ++ ["Task " ++ task_name dependentTask ++ " ("
                               ++ statusName (task_status dependentTask) ++ ")"] |}
  end.

(** [checkDependencies(taskId)]; [inl] carries the message of the thrown
    [Error]. *)
Definition checkDependencies (taskId : string) (dir : TaskDir)
    : string + DependencyCheckResult :=
  match TaskManifest.loadTask taskId dir with
  | None => inl ("Task " ++ taskId ++ " not found")
  | Some task =>
      inr (fold_left (checkOne dir) (task_dependencies task)
             {| allSatisfied := true; satisfiedDependencies := [];
                unsatisfiedDependencies := []; blockedBy := [] |})
  end.

End TaskExecutor.

(** ** JavaScript values *)

(** A JavaScript number: the floating-point arithmetic that produces it is
    abstracted where it is used. *)
Inductive JsNum := NaN | PosInf | NegInf | Num (q : Q).

(** A [Date]: [None] is an Invalid Date. *)
Definition JsDate := option Z.

(** Run-time values as they appear in records and in parsed JSON. *)
Inductive JsValue :=
| VUndefined
| VNull
| VBool (b : bool)
| VNum (n : JsNum)
| VStr (s : string)
| VDate (d : JsDate)
| VArr (l : list JsValue)
| VObj (props : list (string * JsValue)).

(** Property read [o.k]; a missing property reads as [undefined]. *)
Fixpoint prop_get (k : string) (props : list (string * JsValue)) : JsValue :=
  match props with
  | [] => VUndefined
  | (k', v) :: ps => if String.eqb k' k then v else prop_get k ps
  end.

Definition get_prop (k : string) (v : JsValue) : JsValue :=
  match v with
  | VObj props => prop_get k props
  | _ => VUndefined
  end.

(** Property write [o.k = v]: an existing key keeps its position. *)
Fixpoint prop_set (k : string) (v : JsValue) (props : list (string * JsValue))
    : list (string * JsValue) :=
  match props with
  | [] => [(k, v)]
  | (k', v') :: ps => if String.eqb k' k then (k', v) :: ps else (k', v') :: prop_set k v ps
  end.

(** ** Session types (types/session.ts) *)

Module SessionType.
Inductive t := PLANNING | TASK | VERIFICATION | INTERACTIVE.
Definition name (x : t) : string :=
  match x with
  | PLANNING => "planning" | TASK => "task"
  | VERIFICATION => "verification" | INTERACTIVE => "interactive"
  end.
Definition eqb (a b : t) : bool :=
  match a, b with
  | PLANNING, PLANNING | TASK, TASK | VERIFICATION, VERIFICATION
  | INTERACTIVE, INTERACTIVE => true
  | _, _ => false
  end.
Definition all : list t := [PLANNING; TASK; VERIFICATION; INTERACTIVE].
End SessionType.

Module SessionState.
Inductive t := ACTIVE | COMPLETED | SUSPENDED | FAILED.
Definition name (x : t) : string :=
  match x with
  | ACTIVE => "active" | COMPLETED => "completed"
  | SUSPENDED => "suspended" | FAILED => "failed"
  end.
Definition eqb (a b : t) : bool :=
  match a, b with
  | ACTIVE, ACTIVE | COMPLETED, COMPLETED | SUSPENDED, SUSPENDED | FAILED, FAILED => true
  | _, _ => false
  end.
Definition all : list t := [ACTIVE; COMPLETED; SUSPENDED; FAILED].
End SessionState.

Record SessionMetadata := {
  md_name : option string;
  md_description : option string;
  md_tags : list string;
  md_userMetadata : option (list (string * JsValue))
}.

Record SessionContext := {
  ctx_messages : list JsValue;
  ctx_artifacts : list JsValue;
  ctx_decisions : list JsValue;
  ctx_currentFocus : option string;
  ctx_sequentialThinking : JsValue;
  ctx_variables : option (list (string * JsValue))
}.

(** The fields of an [OrchestrationSession] object.  The private
    [eventListeners] array is left out: listeners only observe. *)
Record Session := {
  sess_id : string;
  sess_type : SessionType.t;
  sess_orchestrationId : string;
  sess_taskId : option string;
  sess_timestamp : JsDate;
  sess_context : SessionContext;
  sess_state : SessionState.t;
  sess_metadata : option SessionMetadata;
  sess_parentSessionId : option string;
  sess_childSessionIds : list string;
  sess_lastActivityAt : JsDate;
  sess_completedAt : option JsDate;
  sess_failureReason : option string
}.

Record CreateSessionParams := {
  cp_type : SessionType.t;
  cp_orchestrationId : string;
  cp_taskId : option string;
  cp_initialFocus : option string;
  cp_context : option SessionContext;
  cp_metadata : option SessionMetadata;
  cp_parentSessionId : option string;
  cp_initialVariables : option (list (string * JsValue))
}.

(** ** OrchestrationSession (session/OrchestrationSession.ts) *)

Module OrchestrationSession.

Definition with_children (s : Session) (children : list string) (activity : JsDate) : Session :=
  {| sess_id := sess_id s; sess_type := sess_type s;
     sess_orchestrationId := sess_orchestrationId s; sess_taskId := sess_taskId s;
     sess_timestamp := sess_timestamp s; sess_context := sess_context s;
     sess_state := sess_state s; sess_metadata := sess_metadata s;
     sess_parentSessionId := sess_parentSessionId s;
     sess_childSessionIds := children;
     sess_lastActivityAt := activity;
     sess_completedAt := sess_completedAt s;
     sess_failureReason := sess_failureReason s |}.

(** The constructor; [id] stands for the generated
    [session-<Date.now()>-<random>], [tCreated] and [tActivity] for the
    clock readings stored in [timestamp] and [lastActivityAt]. *)
Definition new (id : string) (tCreated tActivity : Z) (params : CreateSessionParams)
    : Session :=
  {| sess_id := id;
     sess_type := cp_type params;
     sess_orchestrationId := cp_orchestrationId params;
     sess_taskId := cp_taskId params;
     sess_timestamp := Some tCreated;
     sess_context :=
       {| ctx_messages := from_option ctx_messages [] (cp_context params);
          ctx_artifacts := from_option ctx_artifacts [] (cp_context params);
          ctx_decisions := from_option ctx_decisions [] (cp_context params);
          ctx_currentFocus :=
            Some (match cp_context params ≫= ctx_currentFocus with
                  | Some f => if truthy_str f then f
                              else if truthy_ostr (cp_initialFocus params)
                                   then default "" (cp_initialFocus params) else ""
                  | None => if truthy_ostr (cp_initialFocus params)
                            then default "" (cp_initialFocus params) else ""
                  end);
          ctx_sequentialThinking := VUndefined;
          ctx_variables :=
            Some (match cp_context params ≫= ctx_variables with
                  | Some v => v
                  | None => default [] (cp_initialVariables params)
                  end) |};
     sess_state := SessionState.ACTIVE;
     sess_metadata :=
       Some {| md_name := cp_metadata params ≫= md_name;
               md_description := cp_metadata params ≫= md_description;
               md_tags := from_option md_tags [] (cp_metadata params);
               md_userMetadata :=
                 Some (default [] (cp_metadata params ≫= md_userMetadata)) |};
     sess_parentSessionId := cp_parentSessionId params;
     sess_childSessionIds := [];
     sess_lastActivityAt := Some tActivity;
     sess_completedAt := None;
     sess_failureReason := None |}.

(** [updateState(newState, reason)].  [tActivity] is the clock reading
    stored in [lastActivityAt], [tCompleted] the one stored in
    [completedAt]. *)
Definition updateState (tActivity tCompleted : Z) (newState : SessionState.t)
    (reason : option string) (s : Session) : Session :=
  {| sess_id := sess_id s; sess_type := sess_type s;
     sess_orchestrationId := sess_orchestrationId s; sess_taskId := sess_taskId s;
     sess_timestamp := sess_timestamp s; sess_context := sess_context s;
     sess_state := newState;
     sess_metadata := sess_metadata s;
     sess_parentSessionId := sess_parentSessionId s;
     sess_childSessionIds := sess_childSessionIds s;
     sess_lastActivityAt := Some tActivity;
     sess_completedAt :=
       match newState with
       | SessionState.COMPLETED => Some (Some tCompleted)
       | _ => sess_completedAt s
       end;
     sess_failureReason :=
       match newState with
       | SessionState.FAILED => reason
       | _ => sess_failureReason s
       end |}.

(** [addChildSession]: appends unless already listed. *)
Definition addChildSession (now : Z) (childSessionId : string) (s : Session) : Session :=
  if existsb (String.eqb childSessionId) (sess_childSessionIds s) then s
  else with_children s (sess_childSessionIds s ++ [childSessionId]) (Some now).

(** [splice(index, 1)] at the first occurrence. *)
Fixpoint remove_first (x : string) (l : list string) : list string :=
  match l with
  | [] => []
  | y :: l' => if String.eqb y x then l' else y :: remove_first x l'
  end.

(** [removeChildSession]: removes the first occurrence, if any. *)
Definition removeChildSession (now : Z) (childSessionId : string) (s : Session) : Session :=
  if existsb (String.eqb childSessionId) (sess_childSessionIds s)
  then with_children s (remove_first childSessionId (sess_childSessionIds s)) (Some now)
  else s.

End OrchestrationSession.

(** ** ValidationUtils: transition tables (utils/ValidationUtils.ts) *)

Record TransitionValidation := {
  tv_isValid : bool;
  tv_error : option string
}.

Module TransitionRules.

(** [Array.prototype.join(', ')] *)
Fixpoint join (l : list string) : string :=
  match l with
  | [] => ""
  | [x] => x
  | x :: l' => x ++ ", " ++ join l'
  end.

Definition validSessionTransitions (from : SessionState.t) : list SessionState.t :=
  match from with
  | SessionState.ACTIVE => [SessionState.SUSPENDED; SessionState.COMPLETED; SessionState.FAILED]
  | SessionState.SUSPENDED => [SessionState.ACTIVE; SessionState.COMPLETED; SessionState.FAILED]
  | SessionState.COMPLETED => []
  | SessionState.FAILED => [SessionState.ACTIVE]
  end.

(** [ValidationUtils.validateStateTransition] *)
Definition validateStateTransition (from to : SessionState.t) : TransitionValidation :=
  if SessionState.eqb from to then {| tv_isValid := true; tv_error := None |}
  else
    let allowedStates := validSessionTransitions from in
    if negb (existsb (SessionState.eqb to) allowedStates)
    then {| tv_isValid := false;
            tv_error := Some ("Invalid transition from " ++ SessionState.name from ++ " to "
                              ++ SessionState.name to ++ ". Allowed transitions: "
                              ++ join (map SessionState.name allowedStates)) |}
    else {| tv_isValid := true; tv_error := None |}.

Definition validTaskTransitions (from : TaskStatus.t) : list TaskStatus.t :=
  match from with
  | TaskStatus.NOT_STARTED => [TaskStatus.IN_PROGRESS; TaskStatus.CANCELLED]
  | TaskStatus.IN_PROGRESS =>
      [TaskStatus.COMPLETED; TaskStatus.BLOCKED; TaskStatus.FAILED; TaskStatus.CANCELLED]
  | TaskStatus.BLOCKED => [TaskStatus.IN_PROGRESS; TaskStatus.CANCELLED]
  | TaskStatus.COMPLETED => []
  | TaskStatus.FAILED => [TaskStatus.IN_PROGRESS; TaskStatus.CANCELLED]
  | TaskStatus.CANCELLED => [TaskStatus.NOT_STARTED]
  end.

(** [ValidationUtils.validateTaskStatusTransition] *)
Definition validateTaskStatusTransition (from to : TaskStatus.t) : TransitionValidation :=
  let allowedStates := validTaskTransitions from in
  if negb (existsb (TaskStatus.eqb to) allowedStates)
  then {| tv_isValid := false;
          tv_error := Some ("Invalid task status transition from "
                            ++ TaskExecutor.statusName from ++ " to "
                            ++ TaskExecutor.statusName to ++ ". Allowed transitions: "
                            ++ join (map TaskExecutor.statusName allowedStates)) |}
  else {| tv_isValid := true; tv_error := None |}.

End TransitionRules.

(** ** The transition tables of the design document *)

(** Task status table: not_started→{in_progress, cancelled};
    in_progress→{completed, blocked, failed, cancelled};
    blocked→{in_progress, cancelled}; completed→{};
    failed→{in_progress, cancelled}; cancelled→{not_started}. *)
Inductive task_transition_allowed : TaskStatus.t -> TaskStatus.t -> Prop :=
| tt_start : task_transition_allowed TaskStatus.NOT_STARTED TaskStatus.IN_PROGRESS
| tt_cancel_new : task_transition_allowed TaskStatus.NOT_STARTED TaskStatus.CANCELLED
| tt_complete : task_transition_allowed TaskStatus.IN_PROGRESS TaskStatus.COMPLETED
| tt_block : task_transition_allowed TaskStatus.IN_PROGRESS TaskStatus.BLOCKED
| tt_fail : task_transition_allowed TaskStatus.IN_PROGRESS TaskStatus.FAILED
| tt_cancel_running : task_transition_allowed TaskStatus.IN_PROGRESS TaskStatus.CANCELLED
| tt_unblock : task_transition_allowed TaskStatus.BLOCKED TaskStatus.IN_PROGRESS
| tt_cancel_blocked : task_transition_allowed TaskStatus.BLOCKED TaskStatus.CANCELLED
| tt_retry : task_transition_allowed TaskStatus.FAILED TaskStatus.IN_PROGRESS
| tt_cancel_failed : task_transition_allowed TaskStatus.FAILED TaskStatus.CANCELLED
| tt_restart : task_transition_allowed TaskStatus.CANCELLED TaskStatus.NOT_STARTED.

(** Session state table: active→{suspended, completed, failed};
    suspended→{active, completed, failed}; completed→{}; failed→{active}. *)
Inductive session_transition_allowed : SessionState.t -> SessionState.t -> Prop :=
| st_suspend : session_transition_allowed SessionState.ACTIVE SessionState.SUSPENDED
| st_complete : session_transition_allowed SessionState.ACTIVE SessionState.COMPLETED
| st_fail : session_transition_allowed SessionState.ACTIVE SessionState.FAILED
| st_resume : session_transition_allowed SessionState.SUSPENDED SessionState.ACTIVE
| st_complete_suspended : session_transition_allowed SessionState.SUSPENDED SessionState.COMPLETED
| st_fail_suspended : session_transition_allowed SessionState.SUSPENDED SessionState.FAILED
| st_reactivate : session_transition_allowed SessionState.FAILED SessionState.ACTIVE.

(** ** Sample records used by the examples *)

Definition sampleProgress : TaskProgress :=
  {| completionPercentage := 0%Q; progress_description := None; lastUpdated := 0 |}.

Definition mkTask (id orchestrationId : string) (status : TaskStatus.t)
    (priority : TaskPriority.t) (deps : list TaskDependency) (createdAt : Z) : Task :=
  {| task_id := id; task_name := id; task_description := "sample";
     task_status := status; task_priority := priority;
     task_orchestrationId := orchestrationId;
     task_parentTaskId := None; task_childTaskIds := [];
     task_dependencies := deps; task_acceptanceCriteria := [];
     task_estimation := None; task_progress := sampleProgress;
     task_sessionId := None; task_createdAt := createdAt;
     task_startedAt := None; task_completedAt := None;
     task_updatedAt := createdAt; task_assignee := None; task_tags := [] |}.

Definition dependsOn (id : string) : TaskDependency :=
  {| dep_taskId := id; dep_type := "finish_to_start" |}.

Definition setStatus (s : TaskStatus.t) : UpdateTaskParams :=
  {| up_name := None; up_description := None; up_status := Some s; up_priority := None;
     up_dependencies := None; up_acceptanceCriteria := None; up_estimation := None;
     up_progress := None; up_sessionId := None; up_assignee := None; up_tags := None |}.

Definition sampleParams (orchestrationId : string) (parent : option string)
    : CreateSessionParams :=
  {| cp_type := SessionType.TASK; cp_orchestrationId := orchestrationId;
     cp_taskId := None; cp_initialFocus := None; cp_context := None;
     cp_metadata := None; cp_parentSessionId := parent; cp_initialVariables := None |}.

Definition sampleSession (id orchestrationId : string) (parent : option string)
    (now : Z) : Session :=
  OrchestrationSession.new id now now (sampleParams orchestrationId parent).

(** The three-task scenario: A has no dependencies, B depends on A
    (finish_to_start), C depends on B; equal priority; created at [ca], [cb]
    and [cc].  [scenarioDir] is one listing of the three files; [readdir]
    may list them in any order. *)
Definition taskA (orchestrationId : string) (ca : Z) : Task :=
  mkTask "A" orchestrationId TaskStatus.NOT_STARTED TaskPriority.MEDIUM [] ca.
Definition taskB (orchestrationId : string) (cb : Z) : Task :=
  mkTask "B" orchestrationId TaskStatus.NOT_STARTED TaskPriority.MEDIUM [dependsOn "A"] cb.
Definition taskC (orchestrationId : string) (cc : Z) : Task :=
  mkTask "C" orchestrationId TaskStatus.NOT_STARTED TaskPriority.MEDIUM [dependsOn "B"] cc.
Definition scenarioDir (orchestrationId : string) (ca cb cc : Z) : TaskDir :=
  [("A", taskA orchestrationId ca); ("B", taskB orchestrationId cb);
   ("C", taskC orchestrationId cc)].

(** *** Notions used to state the selection rule of [getNextTask] *)

(** The key that [nextTaskCompare] orders by: tasks without dependencies
    first, then the higher priority. *)
Definition nextTaskKey (t : Task) : Z :=
  (match task_dependencies t with [] => 0 | _ => 10 end)
  - TaskManifest.priorityOrder (task_priority t).

(** A task that [getNextTask orchestrationId] may return. *)
Definition eligible (orchestrationId : string) (dir : TaskDir) (t : Task) : Prop :=
  t ∈ map snd dir
  /\ task_status t = TaskStatus.NOT_STARTED
  /\ task_orchestrationId t = orchestrationId.

Definition nextQuery (orchestrationId : string) : TaskQuery :=
  {| q_orchestrationId := Some orchestrationId;
     q_status := Some TaskStatus.NOT_STARTED;
     q_priority := None; q_parentTaskId := None; q_assignee := None;
     q_tags := None; q_dateRange := None; q_limit := None; q_offset := None |}.


(** ** Number arithmetic *)

(** JavaScript numbers are IEEE-754 doubles.  The rounding of each
    arithmetic result to a double is the function [rnd]; signed zeros and
    overflow are not distinguished. *)
Section Arithmetic.
Variable rnd : Q -> Q.

Definition q_is_zero (x : Q) : bool := Qeq_bool x 0.
Definition q_is_neg (x : Q) : bool := negb (Qle_bool 0 x).

Definition js_add (a b : JsNum) : JsNum :=
  match a, b with
  | NaN, _ | _, NaN => NaN
  | PosInf, NegInf | NegInf, PosInf => NaN
  | PosInf, _ | _, PosInf => PosInf
  | NegInf, _ | _, NegInf => NegInf
  | Num x, Num y => Num (rnd (x + y))
  end.

Definition js_inf (negative : bool) : JsNum := if negative then NegInf else PosInf.

Definition js_mul (a b : JsNum) : JsNum :=
  match a, b with
  | NaN, _ | _, NaN => NaN
  | Num x, Num y => Num (rnd (x * y))
  | Num x, PosInf | PosInf, Num x => if q_is_zero x then NaN else js_inf (q_is_neg x)
  | Num x, NegInf | NegInf, Num x => if q_is_zero x then NaN else js_inf (negb (q_is_neg x))
  | PosInf, PosInf | NegInf, NegInf => PosInf
  | PosInf, NegInf | NegInf, PosInf => NegInf
  end.

Definition js_div (a b : JsNum) : JsNum :=
  match a, b with
  | NaN, _ | _, NaN => NaN
  | Num x, Num y =>
      if q_is_zero y
      then (if q_is_zero x then NaN else js_inf (q_is_neg x))
      else Num (rnd (x / y))
  | Num _, (PosInf | NegInf) => Num 0
  | (PosInf | NegInf), (PosInf | NegInf) => NaN
  | PosInf, Num y => js_inf (q_is_neg y)
  | NegInf, Num y => js_inf (negb (q_is_neg y))
  end.

(** [Math.round]: the nearest integer, ties towards +∞; exact. *)
Definition Math_round (a : JsNum) : JsNum :=
  match a with
  | Num x => Num (inject_Z (Qfloor (x + (1 # 2))))
  | other => other
  end.

Definition of_int (n : Z) : JsNum := Num (inject_Z n).

(** ** TaskManifest.getTaskStatistics *)

Record TaskStatistics := {
  stat_total : Z;
  stat_byStatus : TaskStatus.t -> Z;
  stat_byPriority : TaskPriority.t -> Z;
  stat_completionPercentage : JsNum;
  stat_averageProgress : JsNum;
  stat_estimatedTotalHours : JsNum;
  stat_actualTotalHours : JsNum
}.

(** The loop state: the two counter tables, [totalProgress] and
    [stats.estimatedTotalHours]. *)
Record StatsAcc := {
  acc_byStatus : TaskStatus.t -> Z;
  acc_byPriority : TaskPriority.t -> Z;
  acc_totalProgress : JsNum;
  acc_estimatedTotalHours : JsNum
}.

Definition bump {K} (eqb : K -> K -> bool) (k : K) (f : K -> Z) : K -> Z :=
  fun k' => if eqb k k' then f k' + 1 else f k'.

Definition statsStep (acc : StatsAcc) (task : Task) : StatsAcc :=
  {| acc_byStatus := bump TaskStatus.eqb (task_status task) (acc_byStatus acc);
     acc_byPriority := bump TaskPriority.eqb (task_priority task) (acc_byPriority acc);
     acc_totalProgress :=
       js_add (acc_totalProgress acc) (Num (completionPercentage (task_progress task)));
     acc_estimatedTotalHours :=
       match task_estimation task ≫= est_effortHours with
       | Some h => if q_is_zero h then acc_estimatedTotalHours acc
                   else js_add (acc_estimatedTotalHours acc) (Num h)
       | None => acc_estimatedTotalHours acc
       end |}.

Definition statsInit : StatsAcc :=
  {| acc_byStatus := fun _ => 0; acc_byPriority := fun _ => 0;
     acc_totalProgress := of_int 0; acc_estimatedTotalHours := of_int 0 |}.

Definition orchestrationQuery (orchestrationId : string) : TaskQuery :=
  {| q_orchestrationId := Some orchestrationId; q_status := None;
     q_priority := None; q_parentTaskId := None; q_assignee := None;
     q_tags := None; q_dateRange := None; q_limit := None; q_offset := None |}.

Definition getTaskStatistics (orchestrationId : string) (dir : TaskDir) : TaskStatistics :=
  let tasks := TaskManifest.queryTasks (orchestrationQuery orchestrationId) dir in
  let acc := fold_left statsStep tasks statsInit in
  let n := Z.of_nat (length tasks) in
  {| stat_total := n;
     stat_byStatus := acc_byStatus acc;
     stat_byPriority := acc_byPriority acc;
     stat_completionPercentage :=
       Math_round (js_mul (js_div (of_int (acc_byStatus acc TaskStatus.COMPLETED)) (of_int n))
                          (of_int 100));
     stat_averageProgress :=
       if 0 <? n then Math_round (js_div (acc_totalProgress acc) (of_int n)) else of_int 0;
     stat_estimatedTotalHours := acc_estimatedTotalHours acc;
     stat_actualTotalHours := of_int 0 |}.

End Arithmetic.

(** ** TaskManifest.validateTaskDependencies *)

Record DfsState := {
  visited : gset string;
  recursionStack : gset string;
  cycles : list (list string)
}.

Record DependencyValidation := {
  dv_isValid : bool;
  dv_cycles : list (list string);
  dv_orphanedTasks : list string;
  dv_invalidDependencies : list string
}.

Module DependencyCheck.

(** [tasks.find(t => t.id === taskId)] *)
Fixpoint findTask (taskId : string) (tasks : list Task) : option Task :=
  match tasks with
  | [] => None
  | t :: tasks' => if String.eqb (task_id t) taskId then Some t else findTask taskId tasks'
  end.

(** [new Set(tasks.map(t => t.id))] *)
Definition taskIdSet (tasks : list Task) : gset string :=
  list_to_set (map task_id tasks).

(** The first pass: one message per dependency on an unknown task. *)
Definition invalidDependenciesOf (taskIds : gset string) (task : Task) : list string :=
  flat_map (fun dependency =>
              if decide (dep_taskId dependency ∈ taskIds) then []
              else [task_id task ++ (" -> " ++ dep_taskId dependency)])
           (task_dependencies task).

Definition invalidDependencies (tasks : list Task) : list string :=
  flat_map (invalidDependenciesOf (taskIdSet tasks)) tasks.

(** The loop over [task.dependencies] inside [hasCycle]; [rec] is the
    recursive call.  A [true] answer returns at once. *)
Fixpoint forEachDependency
    (rec : string -> list string -> DfsState -> option (bool * DfsState))
    (taskIds : gset string) (deps : list TaskDependency) (path : list string)
    (st : DfsState) : option (bool * DfsState) :=
  match deps with
  | [] => Some (false, st)
  | dependency :: deps' =>
      if decide (dep_taskId dependency ∈ taskIds)
      then match rec (dep_taskId dependency) path st with
           | None => None
           | Some (true, st') => Some (true, st')
           | Some (false, st') => forEachDependency rec taskIds deps' path st'
           end
      else forEachDependency rec taskIds deps' path st
  end.

(** The closure [hasCycle(taskId, path)], with the sets [visited] and
    [recursionStack] and the list [result.cycles] it updates as state.
    [fuel] bounds the recursion depth; [None] is "out of fuel".  On the
    early [return true] the node stays in [recursionStack], as in the
    source. *)
Fixpoint hasCycle (tasks : list Task) (taskIds : gset string) (fuel : nat)
    (taskId : string) (path : list string) (st : DfsState)
    : option (bool * DfsState) :=
  match fuel with
  | O => None
  | S fuel' =>
      if decide (taskId ∈ recursionStack st)
      then
        let cycleStart := indexOf taskId path in
        Some (true, {| visited := visited st;
                       recursionStack := recursionStack st;
                       cycles := (cycles st ++ [slice_from cycleStart path ++ [taskId]])%list |})
      else if decide (taskId ∈ visited st) then Some (false, st)
      else
        let st1 := {| visited := visited st ∪ {[taskId]};
                      recursionStack := recursionStack st ∪ {[taskId]};
                      cycles := cycles st |} in
        let deps := match findTask taskId tasks with
                    | Some task => task_dependencies task
                    | None => []
                    end in
        match forEachDependency (hasCycle tasks taskIds fuel') taskIds deps
                (path ++ [taskId])%list st1 with
        | None => None
        | Some (true, st2) => Some (true, st2)
        | Some (false, st2) =>
            Some (false, {| visited := visited st2;
                            recursionStack := recursionStack st2 ∖ {[taskId]};
                            cycles := cycles st2 |})
        end
  end.

(** The final loop over [tasks]; the boolean is [result.isValid]. *)
Fixpoint checkAll (tasks : list Task) (taskIds : gset string) (fuel : nat)
    (todo : list Task) (isValid : bool) (st : DfsState) : option (bool * DfsState) :=
  match todo with
  | [] => Some (isValid, st)
  | task :: todo' =>
      if decide (task_id task ∈ visited st)
      then checkAll tasks taskIds fuel todo' isValid st
      else match hasCycle tasks taskIds fuel (task_id task) [] st with
           | None => None
           | Some (found, st') =>
               checkAll tasks taskIds fuel todo' (if found then false else isValid) st'
           end
  end.

(** The validation of a snapshot [tasks]. *)
Definition validate (tasks : list Task) : option DependencyValidation :=
  let taskIds := taskIdSet tasks in
  let invalid := invalidDependencies tasks in
  let isValid0 := match invalid with [] => true | _ => false end in
  match checkAll tasks taskIds (S (length tasks)) tasks isValid0
          {| visited := ∅; recursionStack := ∅; cycles := [] |} with
  | None => None
  | Some (isValid, st) =>
      Some {| dv_isValid := isValid; dv_cycles := cycles st;
              dv_orphanedTasks := []; dv_invalidDependencies := invalid |}
  end.

(** [validateTaskDependencies(orchestrationId)] *)
Definition validateTaskDependencies (orchestrationId : string) (dir : TaskDir)
    : option DependencyValidation :=
  validate (TaskManifest.queryTasks (orchestrationQuery orchestrationId) dir).

End DependencyCheck.

(** ** Dependency graph of a set of tasks *)

(** [dep_edge tasks u v]: task [u] lists [v] as a dependency and both are
    tasks of the set. *)
Definition dep_edge (tasks : list Task) (u v : string) : Prop :=
  exists t, t ∈ tasks /\ task_id t = u
            /\ v ∈ map dep_taskId (task_dependencies t)
            /\ v ∈ map task_id tasks.

(** A directed cycle: a node that reaches itself in one or more steps. *)
Definition has_cycle (tasks : list Task) : Prop :=
  exists u, tc (dep_edge tasks) u u.

(** *** Notions used to reason about the search *)

(** The successors that [hasCycle] explores from [u]. *)
Definition dfs_edge (tasks : list Task) (u v : string) : Prop :=
  exists t, DependencyCheck.findTask u tasks = Some t
            /\ v ∈ map dep_taskId (task_dependencies t)
            /\ v ∈ DependencyCheck.taskIdSet tasks.

(** Finished nodes: visited and no longer on the recursion stack. *)
Definition dfs_black (st : DfsState) : gset string :=
  visited st ∖ recursionStack st.

(** The invariant of the search while no cycle has been recorded. *)
Record dfs_inv (tasks : list Task) (st : DfsState) : Prop := {
  inv_stack : recursionStack st ⊆ visited st;
  inv_closed : forall u v, u ∈ dfs_black st -> dfs_edge tasks u v -> v ∈ dfs_black st;
  inv_acyclic : forall u, u ∈ dfs_black st -> ~ tc (dfs_edge tasks) u u
}.

(** What a call [hasCycle(v, _)] started in state [st] guarantees about its
    answer and final state [r]. *)
Definition dfs_post (tasks : list Task) (st : DfsState) (v : string)
    (r : bool * DfsState) : Prop :=
  (cycles r.2 <> [] -> r.1 = true /\ exists u, tc (dfs_edge tasks) u u)
  /\ (cycles r.2 = [] ->
      r.1 = false /\ dfs_inv tasks r.2
      /\ recursionStack r.2 = recursionStack st
      /\ visited st ⊆ visited r.2
      /\ v ∈ dfs_black r.2).

(** The same for the loop over a list [ds] of dependencies. *)
Definition dfs_loop_post (tasks : list Task) (st : DfsState)
    (ds : list TaskDependency) (r : bool * DfsState) : Prop :=
  (cycles r.2 <> [] -> r.1 = true /\ exists u, tc (dfs_edge tasks) u u)
  /\ (cycles r.2 = [] ->
      r.1 = false /\ dfs_inv tasks r.2
      /\ recursionStack r.2 = recursionStack st
      /\ visited st ⊆ visited r.2
      /\ forall d, d ∈ ds -> dep_taskId d ∈ DependencyCheck.taskIdSet tasks ->
                   dep_taskId d ∈ dfs_black r.2).

(** The two-task cycle scenario: A depends on B and B depends on A. *)
Definition cycleDir : TaskDir :=
  [("A", mkTask "A" "orch-1" TaskStatus.NOT_STARTED TaskPriority.MEDIUM [dependsOn "B"] 1);
   ("B", mkTask "B" "orch-1" TaskStatus.NOT_STARTED TaskPriority.MEDIUM [dependsOn "A"] 2)].

(** ** TaskManifest.getTaskExecutionOrder *)

Module ExecutionOrder.

(** The pair [(dependencyMap, inDegree)]. *)
Definition Maps : Type := JsMap.t (list string) * JsMap.t Z.

(** "Initialize": every task id gets an empty dependents list and degree 0. *)
Definition initialize (tasks : list Task) : Maps :=
  fold_left (fun (maps : Maps) task =>
               (JsMap.set (task_id task) [] maps.1, JsMap.set (task_id task) 0 maps.2))
            tasks ([], []).

(** One dependency of [task] in "Build dependency graph". *)
Definition addDependency (task : Task) (maps : Maps) (dependency : TaskDependency) : Maps :=
  if JsMap.has (dep_taskId dependency) maps.1
  then (JsMap.set (dep_taskId dependency)
          (default [] (JsMap.get (dep_taskId dependency) maps.1) ++ [task_id task])%list
          maps.1,
        JsMap.set (task_id task) (default 0 (JsMap.get (task_id task) maps.2) + 1) maps.2)
  else maps.

Definition buildGraph (tasks : list Task) (maps : Maps) : Maps :=
  fold_left (fun maps task => fold_left (addDependency task) (task_dependencies task) maps)
            tasks maps.

(** "Find tasks with no dependencies", in the iteration order of the map. *)
Definition initialQueue (inDegree : JsMap.t Z) : list string :=
  map fst (filter (fun entry => entry.2 = 0) (inDegree : list (string * Z))).

(** One dependent of the current task in "Process dependent tasks". *)
Definition relax (state : JsMap.t Z * list string) (dependentId : string)
    : JsMap.t Z * list string :=
  let newDegree := default 0 (JsMap.get dependentId state.1) - 1 in
  (JsMap.set dependentId newDegree state.1,
   if newDegree =? 0 then (state.2 ++ [dependentId])%list else state.2).

(** The [while (queue.length > 0)] loop; [fuel] bounds the number of turns. *)
Fixpoint drain (fuel : nat) (tasks : list Task) (dependencyMap : JsMap.t (list string))
    (inDegree : JsMap.t Z) (queue : list string) (result : list Task)
    : option (list Task) :=
  match fuel with
  | O => None
  | S fuel' =>
      match queue with
      | [] => Some result
      | currentTaskId :: queue' =>
          let result' :=
            match DependencyCheck.findTask currentTaskId tasks with
            | Some currentTask => (result ++ [currentTask])%list
            | None => result
            end in
          let dependents := default [] (JsMap.get currentTaskId dependencyMap) in
          let state := fold_left relax dependents (inDegree, queue') in
          drain fuel' tasks dependencyMap state.1 state.2 result'
      end
  end.

(** The topological sort of a snapshot. *)
Definition order (tasks : list Task) : option (list Task) :=
  let maps := buildGraph tasks (initialize tasks) in
  drain (S (length tasks)) tasks maps.1 maps.2 (initialQueue maps.2) [].

(** [getTaskExecutionOrder(orchestrationId)] *)
Definition getTaskExecutionOrder (orchestrationId : string) (dir : TaskDir)
    : option (list Task) :=
  order (TaskManifest.queryTasks (orchestrationQuery orchestrationId) dir).

End ExecutionOrder.

(** [x] occurs before [y] in [l]. *)
Definition occurs_before {A} (x y : A) (l : list A) : Prop :=
  exists l1 l2 l3, l = (l1 ++ x :: l2 ++ y :: l3)%list.

(** *** Notions used to reason about the sort *)

(** The edges [(dependency, dependent)] that "Build dependency graph"
    records, in the order it records them. *)
Definition edgesOfTask (ids : list string) (task : Task) : list (string * string) :=
  flat_map (fun dependency =>
              if bool_decide (dep_taskId dependency ∈ ids)
              then [(dep_taskId dependency, task_id task)] else [])
           (task_dependencies task).

Definition edgesOf (tasks : list Task) : list (string * string) :=
  flat_map (edgesOfTask (map task_id tasks)) tasks.

(** Recording one edge. *)
Definition addEdge (maps : ExecutionOrder.Maps) (e : string * string)
    : ExecutionOrder.Maps :=
  (JsMap.set e.1 (default [] (JsMap.get e.1 maps.1) ++ [e.2])%list maps.1,
   JsMap.set e.2 (default 0 (JsMap.get e.2 maps.2) + 1) maps.2).

(** The dependents of [u] among the edges [es]. *)
Definition dependentsOf (u : string) (es : list (string * string)) : list string :=
  map snd (filter (fun e => e.1 = u) es).

(** The number of edges of [es] into [v]. *)
Definition indegree (v : string) (es : list (string * string)) : nat :=
  length (filter (fun e => e.2 = v) es).

(** The number of edges of [es] into [v] whose source is not in [done]. *)
Definition pending (done : list string) (v : string) (es : list (string * string)) : nat :=
  length (filter (fun e => e.2 = v /\ e.1 ∉ done) es).

(** The tasks pushed to [result] for the ids [done]. *)
Definition resultOf (tasks : list Task) (done : list string) : list Task :=
  omap (fun id => DependencyCheck.findTask id tasks) done.

(** The loop invariant of [drain]. *)
Record drain_inv (tasks : list Task) (inDegree : JsMap.t Z) (queue done : list string)
    : Prop := {
  di_nodup : NoDup (done ++ queue);
  di_keys : forall v, v ∈ (done ++ queue)%list -> v ∈ map task_id tasks;
  di_degree : forall v, v ∈ map task_id tasks ->
      JsMap.get v inDegree = Some (Z.of_nat (pending done v (edgesOf tasks)));
  di_zero : forall v, v ∈ map task_id tasks ->
      (v ∈ (done ++ queue)%list <-> pending done v (edgesOf tasks) = 0%nat);
  di_order : forall u v, (u, v) ∈ edgesOf tasks -> v ∈ done -> occurs_before u v done
}.

(** Both maps have exactly the task ids as keys. *)
Definition wf_maps (ids : list string) (maps : ExecutionOrder.Maps) : Prop :=
  (forall k, is_Some (JsMap.get k maps.1) <-> k ∈ ids)
  /\ (forall k, is_Some (JsMap.get k maps.2) <-> k ∈ ids).

(** The body of the "Initialize" loop. *)
Definition initStep (maps : ExecutionOrder.Maps) (task : Task) : ExecutionOrder.Maps :=
  (JsMap.set (task_id task) [] maps.1, JsMap.set (task_id task) 0 maps.2).

(** Number of occurrences of [v] in [l]. *)
Definition occurrences (v : string) (l : list string) : nat :=
  length (filter (fun x => x = v) l).

(** The edges from [u] to [v]. *)
Definition from_to (u v : string) (e : string * string) : Prop := e.1 = u /\ e.2 = v.

(** ** Schema validation (utils/ValidationUtils.ts, [SessionSchema]) *)

(** A schema is a parser: the error paths of the input, or the parsed
    value.  The message text that zod attaches to a path is not modelled. *)
Definition Parser := JsValue -> list string + JsValue.

Module Zod.

Definition invalid : list string + JsValue := inl [""].

(** [z.string()] and [z.string().min(1, _)] *)
Definition str (min1 : bool) : Parser := fun v =>
  match v with
  | VStr s => if min1 && String.eqb s "" then invalid else inr v
  | _ => invalid
  end.

(** [z.nativeEnum(E)] for a string enum with the given values *)
Definition nativeEnum (values : list string) : Parser := fun v =>
  match v with
  | VStr s => if existsb (String.eqb s) values then inr v else invalid
  | _ => invalid
  end.

(** [z.any()], [z.unknown()] *)
Definition any : Parser := fun v => inr v.

(** [p.optional()] *)
Definition optional (p : Parser) : Parser := fun v =>
  match v with VUndefined => inr VUndefined | _ => p v end.

(** [p.default(d)] *)
Definition withDefault (d : JsValue) (p : Parser) : Parser := fun v =>
  match v with VUndefined => p d | _ => p v end.

Definition is_string (v : JsValue) : bool :=
  match v with VStr _ => true | _ => false end.

(** [z.array(z.any())] *)
Definition arrayOfAny : Parser := fun v =>
  match v with VArr _ => inr v | _ => invalid end.

(** [z.array(z.string())] *)
Definition arrayOfString : Parser := fun v =>
  match v with
  | VArr l => if forallb is_string l then inr v else invalid
  | _ => invalid
  end.

(** [z.record(z.unknown())] *)
Definition record : Parser := fun v =>
  match v with VObj _ => inr v | _ => invalid end.

Definition path (key sub : string) : string :=
  if String.eqb sub "" then key else key ++ "." ++ sub.

(** [z.object(shape)]: every key of the shape is parsed; unknown keys are
    dropped.  The result lists the keys of the shape in order (a key whose
    value is [undefined] reads the same as an absent one). *)
Definition object (shape : list (string * Parser)) : Parser := fun v =>
  match v with
  | VObj props =>
      let results := map (fun kp : string * Parser => (kp.1, kp.2 (prop_get kp.1 props))) shape in
      let errors :=
        flat_map (fun kr : string * (list string + JsValue) =>
                    match kr.2 with
                    | inl es => map (path kr.1) es
                    | inr _ => []
                    end) results in
      match errors with
      | [] => inr (VObj (flat_map (fun kr : string * (list string + JsValue) =>
                                     match kr.2 with
                                     | inr x => [(kr.1, x)]
                                     | inl _ => []
                                     end) results))
      | _ => inl errors
      end
  | _ => invalid
  end.

End Zod.

Record SessionValidation := {
  sv_isValid : bool;
  sv_errors : list string;
  sv_session : option JsValue
}.

Section WithDateParsing.

(** [new Date(str)] for a string. *)
Variable Date_parse : string -> JsDate.


(** [z.union([z.date(), z.string().transform(str => new Date(str))])]:
    [z.date()] rejects an Invalid Date. *)
Definition dateLike : Parser := fun v =>
  match v with
  | VDate (Some _) => inr v
  | VStr s => inr (VDate (Date_parse s))
  | _ => Zod.invalid
  end.

Definition ContextSchema : Parser :=
  Zod.withDefault (VObj [])
    (Zod.object
       [("messages", Zod.withDefault (VArr []) Zod.arrayOfAny);
        ("artifacts", Zod.withDefault (VArr []) Zod.arrayOfAny);
        ("decisions", Zod.withDefault (VArr []) Zod.arrayOfAny);
        ("currentFocus", Zod.optional (Zod.str false));
        ("sequentialThinking", Zod.optional Zod.any);
        ("variables", Zod.optional Zod.record)]).

Definition MetadataSchema : Parser :=
  Zod.optional
    (Zod.object
       [("name", Zod.optional (Zod.str false));
        ("description", Zod.optional (Zod.str false));
        ("tags", Zod.withDefault (VArr []) Zod.arrayOfString);
        ("userMetadata", Zod.optional Zod.record)]).

Definition SessionSchema : Parser :=
  Zod.object
    [("id", Zod.str true);
     ("type", Zod.nativeEnum (map SessionType.name SessionType.all));
     ("state", Zod.nativeEnum (map SessionState.name SessionState.all));
     ("orchestrationId", Zod.str true);
     ("timestamp", dateLike);
     ("lastActivityAt", dateLike);
     ("completedAt", Zod.optional dateLike);
     ("failureReason", Zod.optional (Zod.str false));
     ("parentSessionId", Zod.optional (Zod.str false));
     ("childSessionIds", Zod.withDefault (VArr []) Zod.arrayOfString);
     ("context", ContextSchema);
     ("metadata", MetadataSchema)].

(** [ValidationUtils.validateSession] *)
Definition validateSession (data : JsValue) : SessionValidation :=
  match SessionSchema data with
  | inr session => {| sv_isValid := true; sv_errors := []; sv_session := Some session |}
  | inl errors => {| sv_isValid := false; sv_errors := errors; sv_session := None |}
  end.

End WithDateParsing.

(** ** Records as run-time values *)

Definition ostr_value (o : option string) : JsValue :=
  match o with Some s => VStr s | None => VUndefined end.

Definition orecord_value (o : option (list (string * JsValue))) : JsValue :=
  match o with Some props => VObj props | None => VUndefined end.

Definition odate_value (o : option JsDate) : JsValue :=
  match o with Some d => VDate d | None => VUndefined end.

Definition metadata_value (md : SessionMetadata) : JsValue :=
  VObj [("name", ostr_value (md_name md));
        ("description", ostr_value (md_description md));
        ("tags", VArr (map VStr (md_tags md)));
        ("userMetadata", orecord_value (md_userMetadata md))].

Definition context_value (ctx : SessionContext) : JsValue :=
  VObj [("messages", VArr (ctx_messages ctx));
        ("artifacts", VArr (ctx_artifacts ctx));
        ("decisions", VArr (ctx_decisions ctx));
        ("currentFocus", ostr_value (ctx_currentFocus ctx));
        ("sequentialThinking", ctx_sequentialThinking ctx);
        ("variables", orecord_value (ctx_variables ctx))].

(** [OrchestrationSession.toJSON] *)
Definition toJSON (s : Session) : JsValue :=
  VObj [("id", VStr (sess_id s));
        ("type", VStr (SessionType.name (sess_type s)));
        ("orchestrationId", VStr (sess_orchestrationId s));
        ("taskId", ostr_value (sess_taskId s));
        ("timestamp", VDate (sess_timestamp s));
        ("context", context_value (sess_context s));
        ("state", VStr (SessionState.name (sess_state s)));
        ("metadata", match sess_metadata s with
                     | Some md => metadata_value md
                     | None => VUndefined
                     end);
        ("parentSessionId", ostr_value (sess_parentSessionId s));
        ("childSessionIds", VArr (map VStr (sess_childSessionIds s)));
        ("lastActivityAt", VDate (sess_lastActivityAt s));
        ("completedAt", odate_value (sess_completedAt s));
        ("failureReason", ostr_value (sess_failureReason s))].

(** Typed reads of a property, as TypeScript sees a validated record. *)
Definition as_string (v : JsValue) : string :=
  match v with VStr s => s | _ => "" end.
Definition as_ostring (v : JsValue) : option string :=
  match v with VStr s => Some s | _ => None end.
Definition as_date (v : JsValue) : JsDate :=
  match v with VDate d => d | _ => None end.
Definition as_odate (v : JsValue) : option JsDate :=
  match v with VDate d => Some d | _ => None end.
Definition as_array (v : JsValue) : list JsValue :=
  match v with VArr l => l | _ => [] end.
Definition as_strings (v : JsValue) : list string := map as_string (as_array v).
Definition as_orecord (v : JsValue) : option (list (string * JsValue)) :=
  match v with VObj props => Some props | _ => None end.
Definition as_sessionType (v : JsValue) : SessionType.t :=
  match v with
  | VStr "planning" => SessionType.PLANNING
  | VStr "task" => SessionType.TASK
  | VStr "verification" => SessionType.VERIFICATION
  | _ => SessionType.INTERACTIVE
  end.
Definition as_sessionState (v : JsValue) : SessionState.t :=
  match v with
  | VStr "active" => SessionState.ACTIVE
  | VStr "completed" => SessionState.COMPLETED
  | VStr "suspended" => SessionState.SUSPENDED
  | _ => SessionState.FAILED
  end.

(** [OrchestrationSession.fromJSON(data)] for a validated record
    ([Object.assign] onto a fresh object). *)
Definition fromJSON (data : JsValue) : Session :=
  {| sess_id := as_string (get_prop "id" data);
     sess_type := as_sessionType (get_prop "type" data);
     sess_orchestrationId := as_string (get_prop "orchestrationId" data);
     sess_taskId := as_ostring (get_prop "taskId" data);
     sess_timestamp := as_date (get_prop "timestamp" data);
     sess_context :=
       (let ctx := get_prop "context" data in
        {| ctx_messages := as_array (get_prop "messages" ctx);
           ctx_artifacts := as_array (get_prop "artifacts" ctx);
           ctx_decisions := as_array (get_prop "decisions" ctx);
           ctx_currentFocus := as_ostring (get_prop "currentFocus" ctx);
           ctx_sequentialThinking := get_prop "sequentialThinking" ctx;
           ctx_variables := as_orecord (get_prop "variables" ctx) |});
     sess_state := as_sessionState (get_prop "state" data);
     sess_metadata :=
       match get_prop "metadata" data with
       | VObj md =>
           Some {| md_name := as_ostring (prop_get "name" md);
                   md_description := as_ostring (prop_get "description" md);
                   md_tags := as_strings (prop_get "tags" md);
                   md_userMetadata := as_orecord (prop_get "userMetadata" md) |}
       | _ => None
       end;
     sess_parentSessionId := as_ostring (get_prop "parentSessionId" data);
     sess_childSessionIds := as_strings (get_prop "childSessionIds" data);
     sess_lastActivityAt := as_date (get_prop "lastActivityAt" data);
     sess_completedAt := as_odate (get_prop "completedAt" data);
     sess_failureReason := as_ostring (get_prop "failureReason" data) |}.

(** ** The storage directories *)

(** What [JSON.parse] makes of a file: a value, or a [SyntaxError].  A
    file written with [JSON.stringify(v)] is identified with [Parsed v]:
    its dates stay dates (the ISO text of a date reads back as that date)
    and its properties that are [undefined] stay listed as such.  For the
    fields that the session schema types this is what the schema makes of
    the text; inside the free-form parts of a record (context, user
    metadata) it is exact only for values that JSON carries unchanged: a
    Date there reads back as a string, NaN as null. *)
Inductive FileData :=
| Parsed (v : JsValue)
| Unparseable.

(** A directory: (file name, content) in [readdir] order.  For the sessions
    directory the name is the base name without [.json]. *)
Definition Directory := list (string * FileData).

Record FileSystem := {
  fs_sessions : Directory;
  fs_backups : Directory
}.

Record StorageConfig := {
  enableBackups : bool;
  maxBackups : nat
}.

(** The error classes of StateManager.ts. *)
Inductive StoreError :=
| StorageError (message : string)
| ValidationError (message : string)
| CorruptionError (message : string) (filePath : string).

Module Dir.

Fixpoint read (name : string) (d : Directory) : option FileData :=
  match d with
  | [] => None
  | (n, c) :: d' => if String.eqb n name then Some c else read name d'
  end.

(** [fs.writeFile]: an existing file keeps its slot, a new file comes last. *)
Fixpoint write (name : string) (c : FileData) (d : Directory) : Directory :=
  match d with
  | [] => [(name, c)]
  | (n, c') :: d' => if String.eqb n name then (n, c) :: d' else (n, c') :: write name c d'
  end.

(** [fs.unlink] of an existing file. *)
Fixpoint remove (name : string) (d : Directory) : Directory :=
  match d with
  | [] => []
  | (n, c) :: d' => if String.eqb n name then d' else (n, c) :: remove name d'
  end.

End Dir.

(** [String.prototype.endsWith] *)
Definition ends_with (suffix s : string) : bool :=
  let n := String.length s in
  let m := String.length suffix in
  (m <=? n)%nat && String.eqb (String.substring (n - m) m s) suffix.

(** The comparator of the default [Array.prototype.sort] on strings. *)
Definition string_order (a b : string) : Z :=
  match String.compare a b with
  | Lt => -1
  | Eq => 0
  | Gt => 1
  end.

(** ** StateManager (state/StateManager.ts) *)

Record SessionQuery := {
  sq_orchestrationId : option string;
  sq_type : option SessionType.t;
  sq_state : option SessionState.t;
  sq_taskId : option string;
  sq_parentSessionId : option string;
  sq_dateRange : option (option Z * option Z);
  sq_tags : option (list string);
  sq_limit : option nat;
  sq_offset : option nat
}.

Definition queryAll : SessionQuery :=
  {| sq_orchestrationId := None; sq_type := None; sq_state := None; sq_taskId := None;
     sq_parentSessionId := None; sq_dateRange := None; sq_tags := None;
     sq_limit := None; sq_offset := None |}.


Module StateManager.

(** [cleanupBackups(type, id)]: keeps the [maxBackups] greatest names among
    the backups whose name starts with [<type>-<id>-]. *)
Definition cleanupBackups (config : StorageConfig) (type id : string)
    (backups : Directory) : Directory :=
  match maxBackups config with
  | O => backups
  | S _ =>
      let backupFiles :=
        rev (js_sort string_order
               (filter (fun file : string =>
                          String.prefix (type ++ "-" ++ id ++ "-") file = true
                          /\ ends_with ".json" file = true)
                       (map fst backups))) in
      if (maxBackups config <? length backupFiles)%nat
      then fold_left (fun d file => Dir.remove file d)
             (drop (maxBackups config) backupFiles) backups
      else backups
  end.

(** [createBackup('sessions', id)].  [stamp] is the clock reading in the
    form [toISOString().replace(/[:.]/g, '-')]. *)
Definition createBackup (config : StorageConfig) (stamp : string) (id : string)
    (fs : FileSystem) : FileSystem :=
  if enableBackups config
  then match Dir.read id (fs_sessions fs) with
       | None => fs
       | Some content =>
           let backupName := "sessions-" ++ id ++ "-" ++ stamp ++ ".json" in
           {| fs_sessions := fs_sessions fs;
              fs_backups :=
                cleanupBackups config "sessions" id
                  (Dir.write backupName content (fs_backups fs)) |}
       end
  else fs.

(** [saveSession(session)]: [None] on success, the thrown error otherwise.
    Lock contention and other I/O failures of [writeFile] are not
    modelled. *)
Definition saveSession (Date_parse : string -> JsDate) (config : StorageConfig)
    (stamp : string) (session : JsValue) (fs : FileSystem)
    : option StoreError * FileSystem :=
  let validation := validateSession Date_parse session in
  match sv_session validation with
  | Some validated =>
      let id := as_string (get_prop "id" session) in
      let fs1 := if enableBackups config then createBackup config stamp id fs else fs in
      (None, {| fs_sessions := Dir.write id (Parsed validated) (fs_sessions fs1);
                fs_backups := fs_backups fs1 |})
  | None =>
      (Some (StorageError ("Session validation failed: "
                           ++ String.concat ", " (sv_errors validation))), fs)
  end.

(** [loadSession(sessionId)] *)
Definition loadSession (Date_parse : string -> JsDate) (sessionId : string)
    (fs : FileSystem) : StoreError + option Session :=
  match Dir.read sessionId (fs_sessions fs) with
  | None => inr None
  | Some Unparseable =>
      inl (CorruptionError ("Session file " ++ sessionId ++ " is corrupted")
             ("sessions/" ++ sessionId ++ ".json"))
  | Some (Parsed parsed) =>
      let validation := validateSession Date_parse parsed in
      match sv_session validation with
      | Some validated => inr (Some (fromJSON validated))
      | None =>
          inl (StorageError ("Session " ++ sessionId ++ " validation failed: "
                             ++ String.concat ", " (sv_errors validation)))
      end
  end.

(** [deleteSession(sessionId)]: [fs.unlink] fails on a missing file. *)
Definition deleteSession (config : StorageConfig) (stamp : string) (sessionId : string)
    (fs : FileSystem) : option StoreError * FileSystem :=
  let fs1 := if enableBackups config then createBackup config stamp sessionId fs else fs in
  match Dir.read sessionId (fs_sessions fs1) with
  | Some _ =>
      (None, {| fs_sessions := Dir.remove sessionId (fs_sessions fs1);
                fs_backups := fs_backups fs1 |})
  | None => (Some (StorageError ("Failed to delete session " ++ sessionId)), fs1)
  end.

(** Date comparison [a < b] ([false] when either is an Invalid Date). *)
Definition date_lt (a b : JsDate) : bool :=
  match a, b with Some x, Some y => x <? y | _, _ => false end.


(** [matchesQuery]; [None] is the [TypeError] of reading [tags] of an
    undefined [metadata]. *)
Definition matchesQuery (session : Session) (query : SessionQuery) : option bool :=
  if match sq_orchestrationId query with
     | Some o => truthy_str o && negb (String.eqb (sess_orchestrationId session) o)
     | None => false
     end then Some false
  else if match sq_type query with
          | Some t => negb (SessionType.eqb (sess_type session) t)
          | None => false
          end then Some false
  else if match sq_state query with
          | Some st => negb (SessionState.eqb (sess_state session) st)
          | None => false
          end then Some false
  else if match sq_taskId query with
          | Some t => truthy_str t && negb (bool_decide (sess_taskId session = Some t))
          | None => false
          end then Some false
  else if match sq_parentSessionId query with
          | Some p => truthy_str p
                      && negb (bool_decide (sess_parentSessionId session = Some p))
          | None => false
          end then Some false
  else if match sq_dateRange query with
          | Some (from, to) =>
              match from with
              | Some f => date_lt (sess_timestamp session) (Some f)
              | None => false
              end
              || match to with
                 | Some u => date_lt (Some u) (sess_timestamp session)
                 | None => false
                 end
          | None => false
          end then Some false
  else match sq_tags query with
       | Some (tg :: tgs) =>
           match sess_metadata session with
           | None => None
           | Some md =>
               Some (existsb (fun tag => existsb (String.eqb tag) (md_tags md)) (tg :: tgs))
           end
       | _ => Some true
       end.

(** [b.timestamp.getTime() - a.timestamp.getTime()]; a NaN result counts
    as 0 in [sort]. *)
Definition newestFirst (a b : Session) : Z :=
  match sess_timestamp a, sess_timestamp b with
  | Some x, Some y => y - x
  | _, _ => 0
  end.

(** The scan of [querySessions]: files that fail to load or to match are
    skipped with a warning. *)
Definition scanSessions (Date_parse : string -> JsDate) (query : SessionQuery)
    (fs : FileSystem) : list Session :=
  flat_map (fun file : string * FileData =>
              match loadSession Date_parse file.1 fs with
              | inr (Some session) =>
                  match matchesQuery session query with
                  | Some true => [session]
                  | _ => []
                  end
              | _ => []
              end)
           (fs_sessions fs).

(** [querySessions(query)] *)
Definition querySessions (Date_parse : string -> JsDate) (query : SessionQuery)
    (fs : FileSystem) : list Session :=
  let sessions := js_sort newestFirst (scanSessions Date_parse query fs) in
  let sessions := match sq_offset query with Some o => drop o sessions | None => sessions end in
  match sq_limit query with
  | Some (S n) => take (S n) sessions
  | _ => sessions
  end.

End StateManager.

(** ** SessionRegistry (session/SessionRegistry.ts) *)

(** The registry: the [sessions] map of live objects and the storage that
    its StateManager writes to.  The persistence that event listeners
    trigger in the background is not modelled. *)
Record Registry := {
  reg_sessions : gmap string Session;
  reg_fs : FileSystem
}.



(** The clock readings and generated id that one [createSession] consumes. *)
Record CreateEnv := {
  env_id : string;
  env_created : Z;
  env_activity : Z;
  env_parentActivity : Z;
  env_stamp : string;
  env_parentStamp : string
}.

(** During [deleteSession] the recursion holds on to session objects that
    may already have left the map: [ds_objects] are the objects (named by
    the key they were stored under), [ds_cached] the keys still in the map,
    [ds_tick] the number of clock readings so far. *)
Record DeleteState := {
  ds_objects : gmap string Session;
  ds_cached : gset string;
  ds_fs : FileSystem;
  ds_tick : nat
}.

(** Successive clock readings, as a time and as a backup-name stamp. *)
Record Clock := {
  time_at : nat -> Z;
  stamp_at : nat -> string
}.

Module SessionRegistry.

Section Registry.
Variable Date_parse : string -> JsDate.
Variable config : StorageConfig.

(** [getSession(sessionId)] *)
Definition getSession (sessionId : string) (reg : Registry)
    : (StoreError + option Session) * Registry :=
  match reg_sessions reg !! sessionId with
  | Some session => (inr (Some session), reg)
  | None =>
      match StateManager.loadSession Date_parse sessionId (reg_fs reg) with
      | inl e => (inl e, reg)
      | inr None => (inr None, reg)
      | inr (Some sessionData) =>
          (inr (Some sessionData),
           {| reg_sessions := <[sessionId := sessionData]> (reg_sessions reg);
              reg_fs := reg_fs reg |})
      end
  end.

(** [createSession(params)] *)
Definition createSession (env : CreateEnv) (params : CreateSessionParams) (reg : Registry)
    : (StoreError + Session) * Registry :=
  let session := OrchestrationSession.new (env_id env) (env_created env)
                   (env_activity env) params in
  let sessions1 := <[sess_id session := session]> (reg_sessions reg) in
  match StateManager.saveSession Date_parse config (env_stamp env) (toJSON session)
          (reg_fs reg) with
  | (Some e, fs1) => (inl e, {| reg_sessions := sessions1; reg_fs := fs1 |})
  | (None, fs1) =>
      if truthy_ostr (cp_parentSessionId params)
      then match sessions1 !! default "" (cp_parentSessionId params) with
           | Some parentSession =>
               let parent' :=
                 OrchestrationSession.addChildSession (env_parentActivity env)
                   (sess_id session) parentSession in
               let sessions2 :=
                 <[default "" (cp_parentSessionId params) := parent']> sessions1 in
               match StateManager.saveSession Date_parse config (env_parentStamp env)
                       (toJSON parent') fs1 with
               | (Some e, fs2) => (inl e, {| reg_sessions := sessions2; reg_fs := fs2 |})
               | (None, fs2) => (inr session, {| reg_sessions := sessions2; reg_fs := fs2 |})
               end
           | None => (inr session, {| reg_sessions := sessions1; reg_fs := fs1 |})
           end
      else (inr session, {| reg_sessions := sessions1; reg_fs := fs1 |})
  end.

(** One turn of the loop of [querySessions]: the cached object of that id,
    or a fresh object that is then cached. *)
Definition adopt (acc : list Session * gmap string Session) (data : Session)
    : list Session * gmap string Session :=
  match acc.2 !! sess_id data with
  | Some session => ((acc.1 ++ [session])%list, acc.2)
  | None => ((acc.1 ++ [data])%list, <[sess_id data := data]> acc.2)
  end.

(** [querySessions(query)] *)
Definition querySessions (query : SessionQuery) (reg : Registry)
    : list Session * Registry :=
  let sessionData := StateManager.querySessions Date_parse query (reg_fs reg) in
  let r := fold_left adopt sessionData ([], reg_sessions reg) in
  (r.1, {| reg_sessions := r.2; reg_fs := reg_fs reg |}).



End Registry.
End SessionRegistry.

(** ** SessionRegistry.deleteSession *)

Module SessionDeletion.

Section Deletion.
Variable Date_parse : string -> JsDate.
Variable config : StorageConfig.
Variable clock : Clock.

(** [this.sessions.get(id)] *)
Definition lookup (id : string) (st : DeleteState) : option Session :=
  if decide (id ∈ ds_cached st) then ds_objects st !! id else None.

(** "Remove from parent's children list": the parent object is updated in
    place and saved. *)
Definition detachFromParent (sessionId : string) (session : Session) (st : DeleteState)
    : option StoreError * DeleteState :=
  if truthy_ostr (sess_parentSessionId session)
  then
    let parentId := default "" (sess_parentSessionId session) in
    match lookup parentId st with
    | Some parentSession =>
        let parent' :=
          OrchestrationSession.removeChildSession (time_at clock (ds_tick st))
            sessionId parentSession in
        let saved :=
          StateManager.saveSession Date_parse config (stamp_at clock (S (ds_tick st)))
            (toJSON parent') (ds_fs st) in
        (saved.1,
         {| ds_objects := <[parentId := parent']> (ds_objects st);
            ds_cached := ds_cached st;
            ds_fs := saved.2;
            ds_tick := S (S (ds_tick st)) |})
    | None => (None, st)
    end
  else (None, st).

(** The [for (const childId of session.childSessionIds)] loop.  The array
    iterator reads the live array of the session object at position [i];
    [n] bounds the number of turns (the array never grows); [rec] is the
    recursive [deleteSession]. *)
Fixpoint forEachChild
    (rec : string -> DeleteState -> option (option StoreError * DeleteState))
    (sessionId : string) (n i : nat) (st : DeleteState)
    : option (option StoreError * DeleteState) :=
  match n with
  | O => Some (None, st)
  | S n' =>
      match ds_objects st !! sessionId ≫= (fun s => sess_childSessionIds s !! i) with
      | None => Some (None, st)
      | Some childId =>
          match rec childId st with
          | None => None
          | Some (Some e, st') => Some (Some e, st')
          | Some (None, st') => forEachChild rec sessionId n' (S i) st'
          end
      end
  end.

(** The body of [deleteSession]; [None] when the recursion does not
    return within [fuel] nested calls, [Some (Some e, _)] when [e] is
    thrown. *)
Fixpoint deleteRec (fuel : nat) (sessionId : string) (st : DeleteState)
    : option (option StoreError * DeleteState) :=
  match fuel with
  | O => None
  | S fuel' =>
      let afterChildren :=
        match lookup sessionId st with
        | Some session =>
            match detachFromParent sessionId session st with
            | (Some e, st1) => Some (Some e, st1)
            | (None, st1) =>
                forEachChild (deleteRec fuel') sessionId
                  (length (from_option sess_childSessionIds []
                             (ds_objects st1 !! sessionId)))
                  0 st1
            end
        | None => Some (None, st)
        end in
      match afterChildren with
      | None => None
      | Some (Some e, st2) => Some (Some e, st2)
      | Some (None, st2) =>
          let removed :=
            StateManager.deleteSession config (stamp_at clock (ds_tick st2)) sessionId
              (ds_fs st2) in
          Some (removed.1,
                {| ds_objects := ds_objects st2;
                   ds_cached := ds_cached st2 ∖ {[sessionId]};
                   ds_fs := removed.2;
                   ds_tick := S (ds_tick st2) |})
      end
  end.

(** [deleteSession(sessionId)]: the error thrown, or the result [true]. *)
Definition deleteSession (fuel : nat) (sessionId : string) (reg : Registry)
    : option ((StoreError + bool) * Registry) :=
  match deleteRec fuel sessionId
          {| ds_objects := reg_sessions reg; ds_cached := dom (reg_sessions reg);
             ds_fs := reg_fs reg; ds_tick := 0 |} with
  | None => None
  | Some (outcome, st) =>
      Some (match outcome with Some e => inl e | None => inr true end,
            {| reg_sessions := filter (fun kv => kv.1 ∈ ds_cached st) (ds_objects st);
               reg_fs := ds_fs st |})
  end.

End Deletion.
End SessionDeletion.

(** ** Sample registry used by the examples *)

Definition noDateParse : string -> JsDate := fun _ => None.

Definition sampleConfig : StorageConfig := {| enableBackups := true; maxBackups := 10 |}.

Definition sampleClock : Clock :=
  {| time_at := fun n => 100 + Z.of_nat n; stamp_at := fun n => "t" ++ decimal (Z.of_nat n) |}.

Definition sampleEnv (id : string) (now : Z) : CreateEnv :=
  {| env_id := id; env_created := now; env_activity := now; env_parentActivity := now;
     env_stamp := "s-" ++ id; env_parentStamp := "p-" ++ id |}.

Definition emptyRegistry : Registry :=
  {| reg_sessions := ∅; reg_fs := {| fs_sessions := []; fs_backups := [] |} |}.

Definition create (id orchestrationId : string) (parent : option string) (now : Z)
    (reg : Registry) : Registry :=
  (SessionRegistry.createSession noDateParse sampleConfig (sampleEnv id now)
     (sampleParams orchestrationId parent) reg).2.

(** A parent P with two children c1 and c2, all created through
    [createSession]. *)
Definition familyRegistry : Registry :=
  create "c2" "orch-1" (Some "P") 3
    (create "c1" "orch-1" (Some "P") 2
       (create "P" "orch-1" None 1 emptyRegistry)).

(** *** Notions used to reason about stored sessions *)

(** The record that [SessionSchema] produces for [toJSON s]: the keys of
    the schema in order; [taskId] is not part of the schema and is dropped. *)
Definition docOf (s : Session) : JsValue :=
  VObj [("id", VStr (sess_id s));
        ("type", VStr (SessionType.name (sess_type s)));
        ("state", VStr (SessionState.name (sess_state s)));
        ("orchestrationId", VStr (sess_orchestrationId s));
        ("timestamp", VDate (sess_timestamp s));
        ("lastActivityAt", VDate (sess_lastActivityAt s));
        ("completedAt", odate_value (sess_completedAt s));
        ("failureReason", ostr_value (sess_failureReason s));
        ("parentSessionId", ostr_value (sess_parentSessionId s));
        ("childSessionIds", VArr (map VStr (sess_childSessionIds s)));
        ("context", context_value (sess_context s));
        ("metadata", match sess_metadata s with
                     | Some md => metadata_value md
                     | None => VUndefined
                     end)].


(** What the schema requires of a well-typed session object: non-empty id
    and orchestration id, and no Invalid Date. *)
Definition valid_session (s : Session) : Prop :=
  sess_id s <> "" /\ sess_orchestrationId s <> ""
  /\ is_Some (sess_timestamp s) /\ is_Some (sess_lastActivityAt s)
  /\ sess_completedAt s <> Some None.



(** A registry started over the storage that holds P (nothing cached yet),
    in which a child C of P is then created. *)
Definition restartedRegistry : Registry :=
  create "C" "orch-1" (Some "P") 2
    {| reg_sessions := ∅; reg_fs := reg_fs (create "P" "orch-1" None 1 emptyRegistry) |}.

(** ** Text built-ins used by RecoveryUtils: regular expressions and JSON *)

(** Text is a sequence of bytes; the character classes are those of ASCII
    text (the Unicode spaces and line separators are outside the model). *)

Definition dquote : ascii := "034"%char.
Definition backslash : ascii := "092"%char.

Definition is_char (a c : ascii) : bool := Ascii.eqb a c.
Definition char_in (lo hi c : ascii) : bool :=
  (nat_of_ascii lo <=? nat_of_ascii c)%nat && (nat_of_ascii c <=? nat_of_ascii hi)%nat.
Definition is_digit (c : ascii) : bool := char_in "0" "9" c.
Definition lineTerminator (c : ascii) : bool := is_char "010" c || is_char "013" c.

(** [\s] *)
Definition whiteSpace (c : ascii) : bool :=
  is_char " " c || char_in "009" "013" c.

(** [s] between double quotes. *)
Definition quoted (s : string) : string := String dquote (s ++ String dquote "").

Module Regex.

(** The patterns of this program are sequences of: one character of a
    class, a greedy [*] or a lazy [*?] over a class, and [$] under the [m]
    flag. *)
Inductive atom :=
| One (p : ascii -> bool)
| Many (p : ascii -> bool)
| Few (p : ascii -> bool)
| LineEnd.

Definition cons_text (m : string) (r : option (list string * string))
    : option (list string * string) :=
  match r with Some (ms, rest) => Some (m :: ms, rest) | None => None end.

(** The backtracking match of a pattern at the start of [s]: the text
    matched by each atom and the rest of the input. *)
Fixpoint exec (r : list atom) (s : string) : option (list string * string) :=
  match r with
  | [] => Some ([], s)
  | One p :: r' =>
      match s with
      | String c s' => if p c then cons_text (String c "") (exec r' s') else None
      | EmptyString => None
      end
  | Many p :: r' =>
      (fix many (s : string) : option (list string * string) :=
         match s with
         | String c s' =>
             if p c
             then match many s' with
                  | Some (m :: ms, rest) => Some (String c m :: ms, rest)
                  | _ => cons_text "" (exec r' s)
                  end
             else cons_text "" (exec r' s)
         | EmptyString => cons_text "" (exec r' s)
         end) s
  | Few p :: r' =>
      (fix few (s : string) : option (list string * string) :=
         match exec r' s with
         | Some (ms, rest) => Some ("" :: ms, rest)
         | None =>
             match s with
             | String c s' =>
                 if p c
                 then match few s' with
                      | Some (m :: ms, rest) => Some (String c m :: ms, rest)
                      | _ => None
                      end
                 else None
             | EmptyString => None
             end
         end) s
  | LineEnd :: r' =>
      match s with
      | String c _ => if lineTerminator c then cons_text "" (exec r' s) else None
      | EmptyString => cons_text "" (exec r' s)
      end
  end.

(** [String.prototype.replace] with a global pattern; [f] builds the
    replacement from the texts of the atoms.  [skip] counts the characters
    of the current match that are still to be passed over. *)
Fixpoint replaceFrom (r : list atom) (f : list string -> string) (skip : nat) (s : string)
    : string :=
  match s with
  | EmptyString =>
      match skip, exec r "" with
      | O, Some (ms, _) => f ms
      | _, _ => ""
      end
  | String c s' =>
      match skip with
      | S k => replaceFrom r f k s'
      | O =>
          match exec r s with
          | Some (ms, _) =>
              match String.length (String.concat "" ms) with
              | O => f ms ++ String c (replaceFrom r f 0 s')
              | S k => f ms ++ replaceFrom r f k s'
              end
          | None => String c (replaceFrom r f 0 s')
          end
      end
  end.

Definition replaceAll (r : list atom) (f : list string -> string) (s : string) : string :=
  replaceFrom r f 0 s.

(** The text of the [i]-th atom of a match. *)
Definition text (i : nat) (ms : list string) : string := nth i ms "".

End Regex.

Module JSON.

Inductive token :=
| LBrace | RBrace | LBracket | RBracket | Colon | Comma
| Str (s : string)
| Number (q : Q)
| Lit (v : JsValue).

(** Where the scanner is: between tokens, inside a string, after a
    backslash, inside [\uXXXX], inside a number, inside a literal name. *)
Inductive mode :=
| Normal
| InString (acc : string)
| Escape (acc : string)
| Unicode (acc : string) (hex : list ascii)
| InNumber (text : string)
| InWord (text : string).

Definition jsonSpace (c : ascii) : bool :=
  is_char " " c || is_char "009" c || is_char "010" c || is_char "013" c.

Definition numberChar (c : ascii) : bool :=
  is_digit c || is_char "-" c || is_char "+" c || is_char "." c
  || is_char "e" c || is_char "E" c.

Definition wordChar (c : ascii) : bool := char_in "a" "z" c.

Definition snoc (s : string) (c : ascii) : string := s ++ String c "".

(** The longest prefix of digits, and what follows it. *)
Fixpoint digits (s : string) : string * string :=
  match s with
  | String c s' => if is_digit c then let (d, rest) := digits s' in (String c d, rest)
                   else ("", s)
  | EmptyString => ("", "")
  end.

Fixpoint digitsValue (acc : Z) (s : string) : Z :=
  match s with
  | String c s' => digitsValue (10 * acc + (Z.of_nat (nat_of_ascii c) - 48)) s'
  | EmptyString => acc
  end.

Definition hexValue (c : ascii) : option Z :=
  if is_digit c then Some (Z.of_nat (nat_of_ascii c) - 48)
  else if char_in "a" "f" c then Some (Z.of_nat (nat_of_ascii c) - 87)
  else if char_in "A" "F" c then Some (Z.of_nat (nat_of_ascii c) - 55)
  else None.

Definition byte (n : Z) : ascii := ascii_of_nat (Z.to_nat n).

(** The UTF-8 bytes of a code unit (surrogate pairs are not combined). *)
Definition utf8 (n : Z) : string :=
  if n <? 128 then String (byte n) ""
  else if n <? 2048
       then String (byte (192 + n / 64)) (String (byte (128 + n mod 64)) "")
       else String (byte (224 + n / 4096))
              (String (byte (128 + (n / 64) mod 64)) (String (byte (128 + n mod 64)) "")).

(** The grammar of a JSON number; the value is the exact decimal (the
    rounding to a double is not modelled). *)
Definition numberOfText (text : string) : option Q :=
  let (negative, s1) :=
    match text with
    | String c s => if is_char "-" c then (true, s) else (false, text)
    | EmptyString => (false, text)
    end in
  let (int, s2) := digits s1 in
  let intOk :=
    match int with
    | EmptyString => false
    | String c EmptyString => true
    | String c _ => negb (is_char "0" c)
    end in
  let fraction :=
    match s2 with
    | String c s =>
        if is_char "." c
        then let (fr, s3) := digits s in
             if (String.length fr =? 0)%nat then None else Some (fr, s3)
        else Some ("", s2)
    | EmptyString => Some ("", s2)
    end in
  match intOk, fraction with
  | true, Some (fr, s3) =>
      let exponent :=
        match s3 with
        | String c s =>
            if is_char "e" c || is_char "E" c
            then let (eneg, s4) :=
                   match s with
                   | String d s' => if is_char "-" d then (true, s')
                                    else if is_char "+" d then (false, s')
                                    else (false, s)
                   | EmptyString => (false, s)
                   end in
                 let (ex, s5) := digits s4 in
                 if (String.length ex =? 0)%nat then None
                 else if (String.length s5 =? 0)%nat
                      then Some (if eneg then - digitsValue 0 ex else digitsValue 0 ex)
                      else None
            else None
        | EmptyString => Some 0
        end in
      match exponent with
      | Some e =>
          let magnitude :=
            ((inject_Z (digitsValue 0 int)
              + inject_Z (digitsValue 0 fr) / inject_Z (10 ^ Z.of_nat (String.length fr)))
             * Qpower (inject_Z 10) e)%Q in
          Some (Qred (if negative then - magnitude else magnitude)%Q)
      | None => None
      end
  | _, _ => None
  end.

Definition wordToken (text : string) : option token :=
  if String.eqb text "true" then Some (Lit (VBool true))
  else if String.eqb text "false" then Some (Lit (VBool false))
  else if String.eqb text "null" then Some (Lit VNull)
  else None.

(** A character met between tokens. *)
Definition start (c : ascii) : option (mode * list token) :=
  if jsonSpace c then Some (Normal, [])
  else if is_char "{" c then Some (Normal, [LBrace])
  else if is_char "}" c then Some (Normal, [RBrace])
  else if is_char "[" c then Some (Normal, [LBracket])
  else if is_char "]" c then Some (Normal, [RBracket])
  else if is_char ":" c then Some (Normal, [Colon])
  else if is_char "," c then Some (Normal, [Comma])
  else if is_char dquote c then Some (InString "", [])
  else if is_char "-" c || is_digit c then Some (InNumber (String c ""), [])
  else if wordChar c then Some (InWord (String c ""), [])
  else None.

Definition escaped (c : ascii) : option ascii :=
  if is_char dquote c || is_char backslash c || is_char "/" c then Some c
  else if is_char "b" c then Some "008"%char
  else if is_char "f" c then Some "012"%char
  else if is_char "n" c then Some "010"%char
  else if is_char "r" c then Some "013"%char
  else if is_char "t" c then Some "009"%char
  else None.

Definition hexCode (hex : list ascii) : Z :=
  fold_left (fun acc c => 16 * acc + default 0 (hexValue c)) hex 0.

(** The scanner; [None] is a syntax error. *)
Fixpoint lex (m : mode) (s : string) : option (list token) :=
  match s with
  | EmptyString =>
      match m with
      | Normal => Some []
      | InNumber text => option_map (fun q => [Number q]) (numberOfText text)
      | InWord text => option_map (fun t => [t]) (wordToken text)
      | _ => None
      end
  | String c s' =>
      match m with
      | Normal =>
          match start c with
          | Some (m', ts) => option_map (app ts) (lex m' s')
          | None => None
          end
      | InString acc =>
          if is_char dquote c then option_map (cons (Str acc)) (lex Normal s')
          else if is_char backslash c then lex (Escape acc) s'
          else if (nat_of_ascii c <? 32)%nat then None
          else lex (InString (snoc acc c)) s'
      | Escape acc =>
          if is_char "u" c then lex (Unicode acc []) s'
          else match escaped c with
               | Some e => lex (InString (snoc acc e)) s'
               | None => None
               end
      | Unicode acc hex =>
          match hexValue c with
          | Some _ =>
              let hex' := (hex ++ [c])%list in
              if (length hex' =? 4)%nat
              then lex (InString (acc ++ utf8 (hexCode hex'))) s'
              else lex (Unicode acc hex') s'
          | None => None
          end
      | InNumber text =>
          if numberChar c then lex (InNumber (snoc text c)) s'
          else match numberOfText text, start c with
               | Some q, Some (m', ts) => option_map (fun r => Number q :: ts ++ r)%list (lex m' s')
               | _, _ => None
               end
      | InWord text =>
          if wordChar c then lex (InWord (snoc text c)) s'
          else match wordToken text, start c with
               | Some t, Some (m', ts) => option_map (fun r => t :: ts ++ r)%list (lex m' s')
               | _, _ => None
               end
      end
  end.

(** The containers that are open, innermost first; an object keeps the
    key whose value is being read. *)
Inductive frame :=
| InArray (elements : list JsValue)
| InObject (props : list (string * JsValue)) (key : string).

(** What may come next. *)
Inductive expect :=
| Value (closeable : bool)
| Key (closeable : bool)
| KeyColon
| Separator
| End (v : JsValue).

(** A value is complete: it goes into the innermost open container. *)
Definition deliver (v : JsValue) (stack : list frame) : list frame * expect :=
  match stack with
  | [] => ([], End v)
  | InArray es :: st => (InArray (es ++ [v]) :: st, Separator)
  | InObject props k :: st => (InObject (prop_set k v props) k :: st, Separator)
  end.

Definition step (st : list frame * expect) (t : token) : option (list frame * expect) :=
  let (stack, e) := st in
  match e, t with
  | Value _, Str s => Some (deliver (VStr s) stack)
  | Value _, Number q => Some (deliver (VNum (Num q)) stack)
  | Value _, Lit v => Some (deliver v stack)
  | Value _, LBracket => Some (InArray [] :: stack, Value true)
  | Value _, LBrace => Some (InObject [] "" :: stack, Key true)
  | Value true, RBracket =>
      match stack with
      | InArray es :: stack' => Some (deliver (VArr es) stack')
      | _ => None
      end
  | Key _, Str k =>
      match stack with
      | InObject props _ :: stack' => Some (InObject props k :: stack', KeyColon)
      | _ => None
      end
  | Key true, RBrace =>
      match stack with
      | InObject props _ :: stack' => Some (deliver (VObj props) stack')
      | _ => None
      end
  | KeyColon, Colon => Some (stack, Value false)
  | Separator, Comma =>
      match stack with
      | InArray _ :: _ => Some (stack, Value false)
      | InObject _ _ :: _ => Some (stack, Key false)
      | [] => None
      end
  | Separator, RBracket =>
      match stack with
      | InArray es :: stack' => Some (deliver (VArr es) stack')
      | _ => None
      end
  | Separator, RBrace =>
      match stack with
      | InObject props _ :: stack' => Some (deliver (VObj props) stack')
      | _ => None
      end
  | _, _ => None
  end.

Fixpoint run (st : list frame * expect) (ts : list token) : option JsValue :=
  match ts with
  | [] => match st with (_, End v) => Some v | _ => None end
  | t :: ts' => match step st t with Some st' => run st' ts' | None => None end
  end.

(** [JSON.parse(text)]; [None] is the [SyntaxError]. *)
Definition parse (text : string) : option JsValue :=
  match lex Normal text with
  | Some ts => run ([], Value false) ts
  | None => None
  end.

End JSON.

(** ** RecoveryUtils (utils/RecoveryUtils.ts) *)

(** The entries of [errors]: [String(e)] of a [SyntaxError] of
    [JSON.parse] on a text, or of another error with a given message. *)
Inductive ErrorText :=
| SyntaxErrorOn (text : string)
| ErrorWith (message : string).

Record DataRecoveryResult := {
  rr_success : bool;
  rr_message : string;
  rr_recoveredData : option JsValue;
  rr_backupCreated : option string;
  rr_errors : option (list ErrorText)
}.

(** The outcome of [createBackup]: the path of the backup, or the message
    of the error it throws. *)
Inductive BackupOutcome :=
| BackupAt (backupPath : string)
| BackupFailed (message : string).

(** Truthiness of a value. *)
Definition truthy (v : JsValue) : bool :=
  match v with
  | VUndefined | VNull => false
  | VBool b => b
  | VNum NaN => false
  | VNum (Num q) => negb (Qeq_bool q 0)
  | VNum _ => true
  | VStr s => truthy_str s
  | VDate _ | VArr _ | VObj _ => true
  end.

Definition isArray (v : JsValue) : bool :=
  match v with VArr _ => true | _ => false end.

(** [typeof v === 'object'] *)
Definition typeof_object (v : JsValue) : bool :=
  match v with VNull | VDate _ | VArr _ | VObj _ => true | _ => false end.

(** [typeof v === 'number'] *)
Definition typeof_number (v : JsValue) : bool :=
  match v with VNum _ => true | _ => false end.

(** [Object.values(E).includes(v)] for a string enumeration with the
    given values. *)
Definition includes (values : list string) (v : JsValue) : bool :=
  match v with VStr s => existsb (String.eqb s) values | _ => false end.

(** The own enumerable properties that [{ ...data }] copies. *)
Definition spread (data : JsValue) : list (string * JsValue) :=
  match data with
  | VObj props => props
  | VArr l => imap (fun i x => (decimal (Z.of_nat i), x)) l
  | VStr s =>
      imap (fun i c => (decimal (Z.of_nat i), VStr (String c ""))) (String.list_ascii_of_string s)
  | _ => []
  end.

Definition taskStatusValues : list string :=
  map TaskExecutor.statusName TaskStatus.all.

Definition taskPriorityValues : list string := ["low"; "medium"; "high"; "critical"].

Module RecoveryUtils.

(** [fixCommonJsonIssues(jsonString)] *)
Definition fixCommonJsonIssues (jsonString : string) : string :=
  let fixed := jsonString in
  (* remove trailing commas: a comma, then group 1 = white space and a
     closing brace or bracket; replaced by group 1 *)
  let fixed :=
    Regex.replaceAll
      [Regex.One (is_char ","); Regex.Many whiteSpace;
       Regex.One (fun c => is_char "}" c || is_char "]" c)]
      (fun ms => Regex.text 1 ms ++ Regex.text 2 ms) fixed in
  (* unescaped quotes: four double quotes with quote-free texts (groups 1,
     2, 3) between them, then a colon; the two inner quotes get a backslash *)
  let fixed :=
    Regex.replaceAll
      [Regex.One (is_char dquote); Regex.Many (fun c => negb (is_char dquote c));
       Regex.One (is_char dquote); Regex.Many (fun c => negb (is_char dquote c));
       Regex.One (is_char dquote); Regex.Many (fun c => negb (is_char dquote c));
       Regex.One (is_char dquote); Regex.One (is_char ":")]
      (fun ms => String dquote (Regex.text 1 ms)
                 ++ String backslash (String dquote (Regex.text 3 ms))
                 ++ String backslash (String dquote (Regex.text 5 ms))
                 ++ String dquote ":") fixed in
  (* block comments, up to the first closing mark *)
  let fixed :=
    Regex.replaceAll
      [Regex.One (is_char "/"); Regex.One (is_char "*"); Regex.Few (fun _ => true);
       Regex.One (is_char "*"); Regex.One (is_char "/")]
      (fun _ => "") fixed in
  (* line comments, up to the end of the line *)
  let fixed :=
    Regex.replaceAll
      [Regex.One (is_char "/"); Regex.One (is_char "/");
       Regex.Many (fun c => negb (lineTerminator c)); Regex.LineEnd]
      (fun _ => "") fixed in
  (* bare property names: group 1 = an opening brace or a comma and white
     space, group 2 = an identifier, then white space and a colon; the
     identifier is put between double quotes *)
  let identifierStart c :=
    char_in "a" "z" c || char_in "A" "Z" c || is_char "_" c || is_char "$" c in
  let fixed :=
    Regex.replaceAll
      [Regex.One (fun c => is_char "{" c || is_char "," c); Regex.Many whiteSpace;
       Regex.One identifierStart; Regex.Many (fun c => identifierStart c || is_digit c);
       Regex.Many whiteSpace; Regex.One (is_char ":")]
      (fun ms => Regex.text 0 ms ++ Regex.text 1 ms
                 ++ quoted (Regex.text 2 ms ++ Regex.text 3 ms) ++ ":") fixed in
  fixed.

Section Recovery.
Variable Date_parse : string -> JsDate.
Variable clock : Clock.

(** A date field: [new Date()] when missing, [new Date(text)] when a
    string, left alone otherwise.  [tick] counts the clock readings. *)
Definition recoverDate (field : string) (st : list (string * JsValue) * nat)
    : list (string * JsValue) * nat :=
  let (recovered, tick) := st in
  if negb (truthy (prop_get field recovered))
  then (prop_set field (VDate (Some (time_at clock tick))) recovered, S tick)
  else match prop_get field recovered with
       | VStr s => (prop_set field (VDate (Date_parse s)) recovered, tick)
       | _ => (recovered, tick)
       end.

(** A field that gets [value] when it is falsy. *)
Definition ensure (field : string) (value : JsValue) (recovered : list (string * JsValue))
    : list (string * JsValue) :=
  if negb (truthy (prop_get field recovered)) then prop_set field value recovered
  else recovered.

(** A field that gets a generated [<prefix>-<Date.now()>-recovered] when it
    is falsy. *)
Definition ensureGenerated (field prefix : string) (st : list (string * JsValue) * nat)
    : list (string * JsValue) * nat :=
  let (recovered, tick) := st in
  if negb (truthy (prop_get field recovered))
  then (prop_set field (VStr (prefix ++ "-" ++ decimal (time_at clock tick) ++ "-recovered"))
          recovered, S tick)
  else (recovered, tick).

Definition ensureEnum (field : string) (values : list string) (value : string)
    (recovered : list (string * JsValue)) : list (string * JsValue) :=
  if negb (truthy (prop_get field recovered)) || negb (includes values (prop_get field recovered))
  then prop_set field (VStr value) recovered
  else recovered.

Definition ensureArray (field : string) (recovered : list (string * JsValue))
    : list (string * JsValue) :=
  if negb (isArray (prop_get field recovered)) then prop_set field (VArr []) recovered
  else recovered.

(** The progress object.  When [progress] is an array or a Date, the
    assignment of [completionPercentage] adds a property to that object,
    which the value model does not show. *)
Definition ensureProgress (recovered : list (string * JsValue)) : list (string * JsValue) :=
  let recovered :=
    if negb (truthy (prop_get "progress" recovered))
       || negb (typeof_object (prop_get "progress" recovered))
    then prop_set "progress" (VObj [("completionPercentage", VNum (Num 0))]) recovered
    else recovered in
  match prop_get "progress" recovered with
  | VObj progress =>
      if negb (typeof_number (prop_get "completionPercentage" progress))
      then prop_set "progress"
             (VObj (prop_set "completionPercentage" (VNum (Num 0)) progress)) recovered
      else recovered
  | _ => recovered
  end.

(** [recoverTaskData(data)] *)
Definition recoverTaskData (data : JsValue) (tick : nat) : JsValue * nat :=
  let st := (spread data, tick) in
  let st := ensureGenerated "id" "task" st in
  let st := (ensure "name" (VStr "Recovered Task") st.1, st.2) in
  let st := (ensure "description" (VStr "Task recovered from corrupted data") st.1, st.2) in
  let st := (ensureEnum "status" taskStatusValues "not_started" st.1, st.2) in
  let st := (ensureEnum "priority" taskPriorityValues "medium" st.1, st.2) in
  let st := ensureGenerated "orchestrationId" "orch" st in
  let st := (ensureArray "dependencies" st.1, st.2) in
  let st := (ensureArray "acceptanceCriteria" st.1, st.2) in
  let st := (ensureProgress st.1, st.2) in
  let st := recoverDate "createdAt" st in
  let st := recoverDate "updatedAt" st in
  (VObj st.1, st.2).

(** [recovered.tasks.map(task => this.recoverTaskData(task))] *)
Definition recoverTasks (tasks : list JsValue) (tick : nat) : list JsValue * nat :=
  fold_left (fun (acc : list JsValue * nat) task =>
               let (task', tick') := recoverTaskData task acc.2 in
               ((acc.1 ++ [task'])%list, tick'))
            tasks ([], tick).

(** [recoverTaskManifestData(data)] *)
Definition recoverTaskManifestData (data : JsValue) (tick : nat) : JsValue * nat :=
  let recovered := spread data in
  let recovered := ensureArray "tasks" recovered in
  let (tasks, tick') := recoverTasks (as_array (prop_get "tasks" recovered)) tick in
  let recovered := prop_set "tasks" (VArr tasks) recovered in
  let recovered := ensureArray "plans" recovered in
  (VObj recovered, tick').

(** [recoverTaskManifestFile(filePath)].  [backup] is the outcome of
    [createBackup], [rawData] the text of the file; the second component is
    the value whose JSON text is written back to the file, if any.
    Failures of reading and writing the file are not modelled. *)
Definition recoverTaskManifestFile (backup : BackupOutcome) (rawData : string) (tick : nat)
    : DataRecoveryResult * option JsValue :=
  match backup with
  | BackupFailed message =>
      ({| rr_success := false;
          rr_message := "Recovery failed: " ++ message;
          rr_recoveredData := None;
          rr_backupCreated := None;
          rr_errors := Some [ErrorWith message] |}, None)
  | BackupAt backupPath =>
      let parsed :=
        match JSON.parse rawData with
        | Some manifestData => Some manifestData
        | None => JSON.parse (fixCommonJsonIssues rawData)
        end in
      match parsed with
      | None =>
          ({| rr_success := false;
              rr_message := "Unable to parse task manifest data as JSON";
              rr_recoveredData := None;
              rr_backupCreated := Some backupPath;
              rr_errors := Some [SyntaxErrorOn rawData;
                                 SyntaxErrorOn (fixCommonJsonIssues rawData)] |}, None)
      | Some manifestData =>
          let recoveredManifest := (recoverTaskManifestData manifestData tick).1 in
          ({| rr_success := true;
              rr_message := "Task manifest file successfully recovered";
              rr_recoveredData := Some recoveredManifest;
              rr_backupCreated := Some backupPath;
              rr_errors := None |}, Some recoveredManifest)
      end
  end.

End Recovery.
End RecoveryUtils.




(** ** Notions used to state further properties of the task store *)

(** Every file of the tasks directory holds the task it is named after, as
    [saveTask] writes it. *)
Definition consistent_dir (dir : TaskDir) : Prop :=
  forall f t, TaskManifest.loadTask f dir = Some t -> task_id t = f.

(** Newest first. *)
Definition newest_first (a b : Task) : Prop := task_createdAt b <= task_createdAt a.

(** An option that is absent or falsy ([0] for a number). *)
Definition absent_or_zero (o : option nat) : Prop := o = None \/ o = Some O.

Definition sampleDir : TaskDir := scenarioDir "orch-1" 1 2 3.

(** ** Notions used to state properties of the dependency check *)

(** The dependency names a stored task whose status satisfies it. *)
Definition satisfied_in (dir : TaskDir) (d : TaskDependency) : bool :=
  match TaskManifest.loadTask (dep_taskId d) dir with
  | Some t => TaskExecutor.isDependencySatisfied d t
  | None => false
  end.

(** A start-type dependency is met as soon as the other task is under way. *)
Definition start_dependency (type : string) : bool :=
  match DependencyType.of_value type with
  | Some DependencyType.START_TO_START | Some DependencyType.START_TO_FINISH => true
  | _ => false
  end.

(** ** Notions used to state properties of the session store *)

(** File names are unique within a directory. *)
Definition unique_names (d : Directory) : Prop := NoDup (map fst d).

(** The test of [cleanupBackups] on a file name: the name starts with
    [<type>-<id>-] and ends with [.json].  The backups of the record [id]
    pass it, and so do those of a record whose id is [<id>-<more>]. *)
Definition backup_of (type id file : string) : Prop :=
  String.prefix (type ++ "-" ++ id ++ "-") file = true /\ ends_with ".json" file = true.

#[global] Instance backup_of_dec type id file : Decision (backup_of type id file).
Proof. unfold backup_of. apply _. Defined.

Definition sampleBackups : Directory :=
  [("sessions-s1-t1.json", Unparseable); ("sessions-s1-t2.json", Unparseable);
   ("sessions-s2-t1.json", Unparseable)].

(** The backups directory with one backup of the record s1 and one of the
    record s1-a. *)
Definition collidingBackups : Directory :=
  [("sessions-s1-a-t1.json", Unparseable); ("sessions-s1-t9.json", Unparseable)].

(** ** ValidationUtils: input and identifier checks (utils/ValidationUtils.ts) *)

Module Pattern.

(** [/^r$/.test(s)] for a pattern [r] without flags: whether the atoms can
    take up the whole of [s]. *)
Fixpoint matches (r : list Regex.atom) (s : string) : bool :=
  match r with
  | [] => match s with EmptyString => true | String _ _ => false end
  | Regex.One p :: r' =>
      match s with
      | String c s' => p c && matches r' s'
      | EmptyString => false
      end
  | Regex.Many p :: r' | Regex.Few p :: r' =>
      (fix star (s : string) : bool :=
         matches r' s
         || match s with
            | String c s' => p c && star s'
            | EmptyString => false
            end) s
  | Regex.LineEnd :: r' =>
      match s with
      | String c _ => lineTerminator c && matches r' s
      | EmptyString => matches r' s
      end
  end.

(** The atoms of a literal text. *)
Definition literal (text : string) : list Regex.atom :=
  map (fun c => Regex.One (is_char c)) (String.list_ascii_of_string text).

End Pattern.

Definition alphanumeric (c : ascii) : bool :=
  char_in "a" "z" c || char_in "A" "Z" c || is_digit c.

(** [Array.prototype] style [dropWhile] on characters. *)
Fixpoint dropWhile (p : ascii -> bool) (l : list ascii) : list ascii :=
  match l with
  | c :: l' => if p c then dropWhile p l' else l
  | [] => []
  end.

(** [String.prototype.trim] on ASCII text: white space and line terminators
    are removed at both ends. *)
Definition trim (s : string) : string :=
  String.string_of_list_ascii
    (rev (dropWhile whiteSpace (rev (dropWhile whiteSpace (String.list_ascii_of_string s))))).

Module ValidationUtils.

(** [sanitizeInput(input, maxLength)]; [inl] carries the message of the
    thrown validation error.  [maxLength] is an integer, and a text is
    ASCII, so that its length is its number of characters. *)
Definition sanitizeInput (input : JsValue) (maxLength : Z) : string + string :=
  match input with
  | VStr text =>
      let sanitized :=
        trim (Regex.replaceAll [Regex.One (fun c => is_char "{" c || is_char "}" c)]
                (fun _ => "")
                (Regex.replaceAll [Regex.One (fun c => is_char "<" c || is_char ">" c)]
                   (fun _ => "") text)) in
      if maxLength <? Z.of_nat (String.length sanitized)
      then inl ("Validation failed for input: Must be " ++ decimal maxLength
                ++ " characters or less")
      else if (String.length sanitized =? 0)%nat
           then inl "Validation failed for input: Cannot be empty"
           else inr sanitized
  | _ => inl "Validation failed for input: Must be a string"
  end.

(** [validateOrchestrationId(id)] *)
Definition validateOrchestrationId (id : string) : bool :=
  let idChar c := alphanumeric c || is_char "_" c || is_char "-" c in
  Pattern.matches [Regex.One idChar; Regex.Many idChar] id
  && (3 <=? String.length id)%nat && (String.length id <=? 50)%nat.

(** [validateSessionId(id)] *)
Definition validateSessionId (id : string) : bool :=
  Pattern.matches
    (Pattern.literal "session-"
     ++ [Regex.One is_digit; Regex.Many is_digit; Regex.One (is_char "-");
         Regex.One alphanumeric; Regex.Many alphanumeric]) id.

(** [validateTaskId(id)] *)
Definition validateTaskId (id : string) : bool :=
  Pattern.matches
    (Pattern.literal "task-"
     ++ [Regex.One is_digit; Regex.Many is_digit; Regex.One (is_char "-");
         Regex.One alphanumeric; Regex.Many alphanumeric]) id.

End ValidationUtils.

(** ** ValidationUtils.validateTaskDependencies *)

Record DependencyErrors := {
  vd_isValid : bool;
  vd_cycles : list (list string);
  vd_errors : list string
}.

Module DependencyErrorsCheck.

(** "Check for invalid dependencies" *)
Definition invalidDependencyErrors (tasks : list Task) : list string :=
  flat_map (fun task : Task =>
              flat_map (fun dependency =>
                          if decide (dep_taskId dependency ∈ DependencyCheck.taskIdSet tasks)
                          then []
                          else ["Task " ++ task_id task ++ " has invalid dependency: "
                                ++ dep_taskId dependency])
                       (task_dependencies task))
           tasks.

(** [validateTaskDependencies(tasks)].  The closure [hasCycle] and the loop
    that starts it from every unvisited task are those of
    [TaskManifest.validateTaskDependencies]; here the answers of [hasCycle]
    are not used.  [None] is "out of fuel". *)
Definition validateTaskDependencies (tasks : list Task) : option DependencyErrors :=
  let errors := invalidDependencyErrors tasks in
  match DependencyCheck.checkAll tasks (DependencyCheck.taskIdSet tasks) (S (length tasks))
          tasks true {| visited := ∅; recursionStack := ∅; cycles := [] |} with
  | None => None
  | Some (_, st) =>
      let errors :=
        match cycles st with
        | [] => errors
        | _ => (errors ++ [("Circular dependencies detected: "
                            ++ String.concat ", "
                                 (map (String.concat " -> ") (cycles st)))%string])%list
        end in
      Some {| vd_isValid := match errors with [] => true | _ => false end;
              vd_cycles := cycles st;
              vd_errors := errors |}
  end.

End DependencyErrorsCheck.

(** ** ValidationUtils.validateTask ([TaskSchema]) *)

Module ZodSchemas.

(** [z.number()] with further checks; [NaN] is not a number for zod. *)
Definition number (check : JsNum -> bool) : Parser := fun v =>
  match v with
  | VNum NaN => Zod.invalid
  | VNum n => if check n then inr v else Zod.invalid
  | _ => Zod.invalid
  end.

(** [.min(lo).max(hi)] *)
Definition between (lo hi : Q) (n : JsNum) : bool :=
  match n with
  | Num q => Qle_bool lo q && Qle_bool q hi
  | _ => false
  end.

(** [.positive()] *)
Definition positive (n : JsNum) : bool :=
  match n with
  | Num q => negb (Qle_bool q 0)
  | PosInf => true
  | _ => false
  end.

(** [z.boolean()] *)
Definition boolean : Parser := fun v =>
  match v with VBool _ => inr v | _ => Zod.invalid end.

Definition index_path (i : nat) (sub : string) : string :=
  Zod.path (decimal (Z.of_nat i)) sub.

(** [z.array(p)]: every element is parsed; the errors carry the index. *)
Definition arrayOf (p : Parser) : Parser := fun v =>
  match v with
  | VArr l =>
      let results := imap (fun i x => (i, p x)) l in
      let errors :=
        flat_map (fun ir : nat * (list string + JsValue) =>
                    match ir.2 with
                    | inl es => map (index_path ir.1) es
                    | inr _ => []
                    end) results in
      match errors with
      | [] => inr (VArr (flat_map (fun ir : nat * (list string + JsValue) =>
                                     match ir.2 with
                                     | inr x => [x]
                                     | inl _ => []
                                     end) results))
      | _ => inl errors
      end
  | _ => Zod.invalid
  end.

End ZodSchemas.

Record TaskValidation := {
  tkv_isValid : bool;
  tkv_errors : list string;
  tkv_task : option JsValue
}.

(** The string values of [DependencyType] (types/task.ts). *)
Definition dependencyTypeName (ty : DependencyType.t) : string :=
  match ty with
  | DependencyType.FINISH_TO_START => "finish_to_start"
  | DependencyType.START_TO_START => "start_to_start"
  | DependencyType.FINISH_TO_FINISH => "finish_to_finish"
  | DependencyType.START_TO_FINISH => "start_to_finish"
  end.

Section TaskValidation.
Variable Date_parse : string -> JsDate.

Definition TaskSchema : Parser :=
  Zod.object
    [("id", Zod.str true);
     ("name", Zod.str true);
     ("description", Zod.str true);
     ("status", Zod.nativeEnum taskStatusValues);
     ("priority", Zod.nativeEnum taskPriorityValues);
     ("orchestrationId", Zod.str true);
     ("sessionId", Zod.optional (Zod.str false));
     ("parentTaskId", Zod.optional (Zod.str false));
     ("dependencies",
      Zod.withDefault (VArr [])
        (ZodSchemas.arrayOf
           (Zod.object [("taskId", Zod.str false);
                        ("type", Zod.nativeEnum ["blocks"; "enables"; "requires"])])));
     ("acceptanceCriteria",
      Zod.withDefault (VArr [])
        (ZodSchemas.arrayOf
           (Zod.object [("description", Zod.str false);
                        ("isMet", Zod.withDefault (VBool false) ZodSchemas.boolean)])));
     ("progress",
      Zod.object
        [("completionPercentage", ZodSchemas.number (ZodSchemas.between 0 100));
         ("startedAt", Zod.optional (dateLike Date_parse));
         ("completedAt", Zod.optional (dateLike Date_parse))]);
     ("estimation",
      Zod.optional
        (Zod.object
           [("effortHours", Zod.optional (ZodSchemas.number ZodSchemas.positive));
            ("durationHours", Zod.optional (ZodSchemas.number ZodSchemas.positive));
            ("confidence", Zod.optional (ZodSchemas.number (ZodSchemas.between 0 1)))]));
     ("createdAt", dateLike Date_parse);
     ("updatedAt", dateLike Date_parse)].

(** [ValidationUtils.validateTask] *)
Definition validateTask (data : JsValue) : TaskValidation :=
  match TaskSchema data with
  | inr task => {| tkv_isValid := true; tkv_errors := []; tkv_task := Some task |}
  | inl errors => {| tkv_isValid := false; tkv_errors := errors; tkv_task := None |}
  end.

End TaskValidation.

(** ** Notions used to state properties of texts *)

(** The characters of a text. *)
Definition chars (s : string) : list ascii := String.list_ascii_of_string s.

(** Every character of the text is in the class. *)
Definition all_chars (p : ascii -> bool) (s : string) : Prop :=
  Forall (fun c => p c = true) (chars s).

(** The text without the characters of a class. *)
Fixpoint remove_chars (p : ascii -> bool) (s : string) : string :=
  match s with
  | String c s' => if p c then remove_chars p s' else String c (remove_chars p s')
  | EmptyString => EmptyString
  end.

(** The four characters that [sanitizeInput] removes. *)
Definition markup (c : ascii) : bool :=
  is_char "<" c || is_char ">" c || is_char "{" c || is_char "}" c.

(** A value that is not a text, or a text of ASCII characters. *)
Definition ascii_text (v : JsValue) : Prop :=
  match v with
  | VStr s => all_chars (fun c => (nat_of_ascii c <? 128)%nat) s
  | _ => True
  end.
(** ** RecoveryUtils: recovery of a session file (utils/RecoveryUtils.ts) *)

Module SessionRecovery.

Section Recovery.
Variable Date_parse : string -> JsDate.
Variable clock : Clock.

(** [if (r.field && typeof r.field === 'string') r.field = new Date(r.field)] *)
Definition parseDate (field : string) (recovered : list (string * JsValue))
    : list (string * JsValue) :=
  if truthy (prop_get field recovered)
  then match prop_get field recovered with
       | VStr s => prop_set field (VDate (Date_parse s)) recovered
       | _ => recovered
       end
  else recovered.

(** [if (!r.field || typeof r.field !== 'object') r.field = {}] *)
Definition ensureObject (field : string) (recovered : list (string * JsValue))
    : list (string * JsValue) :=
  if negb (truthy (prop_get field recovered))
     || negb (typeof_object (prop_get field recovered))
  then prop_set field (VObj []) recovered
  else recovered.

(** [if (!Array.isArray(r.field.sub)) r.field.sub = []].  When [r.field] is
    an array or a Date, the assignment adds a property to that object,
    which the value model does not show. *)
Definition ensureArrayIn (field sub : string) (recovered : list (string * JsValue))
    : list (string * JsValue) :=
  match prop_get field recovered with
  | VObj props =>
      if negb (isArray (prop_get sub props))
      then prop_set field (VObj (prop_set sub (VArr []) props)) recovered
      else recovered
  | _ => recovered
  end.

(** [recoverSessionData(data)] *)
Definition recoverSessionData (data : JsValue) (tick : nat) : JsValue * nat :=
  let st := (spread data, tick) in
  let st := RecoveryUtils.ensureGenerated clock "id" "session" st in
  let st := (RecoveryUtils.ensureEnum "type" (map SessionType.name SessionType.all)
               "interactive" st.1, st.2) in
  let st := (RecoveryUtils.ensureEnum "state" (map SessionState.name SessionState.all)
               "suspended" st.1, st.2) in
  let st := RecoveryUtils.ensureGenerated clock "orchestrationId" "orch" st in
  let st := RecoveryUtils.recoverDate Date_parse clock "startTime" st in
  let st := (parseDate "endTime" st.1, st.2) in
  let st := (RecoveryUtils.ensureArray "childSessionIds" st.1, st.2) in
  let st := (ensureObject "context" st.1, st.2) in
  let st := (ensureArrayIn "context" "nextSteps" st.1, st.2) in
  let st := (ensureArrayIn "context" "decisions" st.1, st.2) in
  let st := (ensureObject "metadata" st.1, st.2) in
  let st := (ensureArrayIn "metadata" "tags" st.1, st.2) in
  (VObj st.1, st.2).

(** [recoverSessionFile(filePath)].  [backup] is the outcome of
    [createBackup], [rawData] the text of the file; the second component is
    the value whose JSON text is written back to the file, if any.  The
    validation errors are listed by the path of the field.  Failures of
    reading and writing the file are not modelled. *)
Definition recoverSessionFile (backup : BackupOutcome) (rawData : string) (tick : nat)
    : DataRecoveryResult * option JsValue :=
  match backup with
  | BackupFailed message =>
      ({| rr_success := false;
          rr_message := "Recovery failed: " ++ message;
          rr_recoveredData := None;
          rr_backupCreated := None;
          rr_errors := Some [ErrorWith message] |}, None)
  | BackupAt backupPath =>
      let parsed :=
        match JSON.parse rawData with
        | Some sessionData => Some sessionData
        | None => JSON.parse (RecoveryUtils.fixCommonJsonIssues rawData)
        end in
      match parsed with
      | None =>
          ({| rr_success := false;
              rr_message := "Unable to parse session data as JSON";
              rr_recoveredData := None;
              rr_backupCreated := Some backupPath;
              rr_errors := Some [SyntaxErrorOn rawData;
                                 SyntaxErrorOn (RecoveryUtils.fixCommonJsonIssues rawData)] |},
           None)
      | Some sessionData =>
          let recoveredSession := (recoverSessionData sessionData tick).1 in
          let validation := validateSession Date_parse recoveredSession in
          if negb (sv_isValid validation)
          then ({| rr_success := false;
                   rr_message := "Session data validation failed after recovery attempt";
                   rr_recoveredData := None;
                   rr_backupCreated := Some backupPath;
                   rr_errors := Some (map ErrorWith (sv_errors validation)) |}, None)
          else ({| rr_success := true;
                   rr_message := "Session file successfully recovered";
                   rr_recoveredData := sv_session validation;
                   rr_backupCreated := Some backupPath;
                   rr_errors := None |}, sv_session validation)
      end
  end.

End Recovery.
End SessionRecovery.

(** ** Notions used to state properties of the validators and of recovery *)

(** A transition that [validateTaskStatusTransition] accepts. *)
Definition accepted_task_transition (from to : TaskStatus.t) : Prop :=
  tv_isValid (TransitionRules.validateTaskStatusTransition from to) = true.

(** A transition that [validateStateTransition] accepts. *)
Definition accepted_session_transition (from to : SessionState.t) : Prop :=
  tv_isValid (TransitionRules.validateStateTransition from to) = true.

(** A value that the schemas take for a date: a string or a valid Date. *)
Definition date_like (v : JsValue) : Prop :=
  match v with
  | VStr _ | VDate (Some _) => True
  | _ => False
  end.

(** The document that the text of a file stands for in a recovery: the
    text as it is or, when that does not parse, after the repairs. *)
Definition document_of (rawData : string) : option JsValue :=
  match JSON.parse rawData with
  | Some data => Some data
  | None => JSON.parse (RecoveryUtils.fixCommonJsonIssues rawData)
  end.

(** A session file that holds the two time stamps and nothing else. *)
Definition stampedSessionFile : string :=
  "{" ++ quoted "timestamp" ++ ": " ++ quoted "2025-01-01T00:00:00.000Z" ++ ", "
      ++ quoted "lastActivityAt" ++ ": " ++ quoted "2025-01-01T00:00:00.000Z" ++ "}".

(** A task record with one dependency of the given type. *)
Definition taskRecord (dependencyType : string) : JsValue :=
  VObj [("id", VStr "task-1-a"); ("name", VStr "A"); ("description", VStr "first");
        ("status", VStr "not_started"); ("priority", VStr "medium");
        ("orchestrationId", VStr "orch-1");
        ("dependencies",
         VArr [VObj [("taskId", VStr "task-0-z"); ("type", VStr dependencyType)]]);
        ("acceptanceCriteria", VArr []);
        ("progress", VObj [("completionPercentage", VNum (Num 0))]);
        ("createdAt", VDate (Some 0)); ("updatedAt", VDate (Some 0))].
(** ** The tasks of an orchestration *)

(** The stored tasks of an orchestration: the records of the tasks
    directory whose [orchestrationId] is the given one, in [readdir]
    order. *)
Definition tasks_of_orchestration (orchestrationId : string) (dir : TaskDir) : list Task :=
  filter (fun t => task_orchestrationId t = orchestrationId) (map snd dir).

(** A store in which the task X of the orchestration with the empty id
    depends on a task of orch-1 that lies on a cycle. *)
Definition strayDir : TaskDir :=
  [("X", mkTask "X" "" TaskStatus.NOT_STARTED TaskPriority.MEDIUM [dependsOn "Y"] 1);
   ("Y", mkTask "Y" "orch-1" TaskStatus.NOT_STARTED TaskPriority.MEDIUM [dependsOn "Z"] 2);
   ("Z", mkTask "Z" "orch-1" TaskStatus.NOT_STARTED TaskPriority.MEDIUM [dependsOn "Y"] 3)].

(** A store with two tasks of orch-1, one of them completed. *)
Definition halfDoneDir : TaskDir :=
  [("t1", mkTask "t1" "orch-1" TaskStatus.COMPLETED TaskPriority.LOW [] 1);
   ("t2", mkTask "t2" "orch-1" TaskStatus.NOT_STARTED TaskPriority.LOW [] 2)].

(** The one of two files that [readdir] lists first. *)
Definition firstListed (x y : string) (dir : TaskDir) : option string :=
  head (filter (fun f => f = x \/ f = y) (map fst dir)).

(** ** Values that JSON carries unchanged *)




(** ** A truncated file that the repairs make parse *)

(** A task document that lost its last brace, with the opening mark of a
    block comment in its id and the closing mark in a later text. *)
Definition truncatedRepairable : string :=
  "{" ++ quoted "id" ++ ": " ++ quoted "task-1 /*" ++ ", "
      ++ quoted "progress" ++ ": {" ++ quoted "description" ++ ": " ++ quoted "*/" ++ "}".

(** * Properties *)

(** ** Status and state transitions *)

Module TransitionFacts.

Lemma TaskStatus_eqb_spec (a b : TaskStatus.t) : TaskStatus.eqb a b = true <-> a = b.
Proof. destruct a, b; simpl; split; congruence. Qed.

Lemma SessionState_eqb_spec (a b : SessionState.t) : SessionState.eqb a b = true <-> a = b.
Proof. destruct a, b; simpl; split; congruence. Qed.

(** The validator of [ValidationUtils] accepts exactly the task table. *)
Lemma validateTaskStatusTransition_table (from to : TaskStatus.t) :
  tv_isValid (TransitionRules.validateTaskStatusTransition from to) = true
  <-> task_transition_allowed from to.
Proof.
  split.
  - destruct from, to; simpl; intros H; try discriminate; constructor.
  - intros H; destruct H; reflexivity.
Qed.

(** The validator of [ValidationUtils] accepts exactly the session table,
    plus the same-state pairs. *)
Lemma validateStateTransition_table (from to : SessionState.t) :
  tv_isValid (TransitionRules.validateStateTransition from to) = true
  <-> from = to \/ session_transition_allowed from to.
Proof.
  split.
  - destruct from, to; simpl; intros H; try discriminate;
      first [ left; reflexivity | right; constructor ].
  - intros [-> | H]; [destruct to | destruct H]; reflexivity.
Qed.

Lemma loadTask_writeTaskFile_eq (f : string) (t : Task) (dir : TaskDir) :
  TaskManifest.loadTask f (TaskManifest.writeTaskFile f t dir) = Some t.
Proof.
  induction dir as [|[f' t'] dir IH]; simpl.
  - by rewrite String.eqb_refl.
  - destruct (String.eqb f' f) eqn:E; simpl; rewrite E; [done | apply IH].
Qed.

(** [updateTask] performs no transition check: whatever the current status
    [from] of a stored task and whatever the requested status [to], the
    update goes through and the stored record carries [to]. *)
Lemma updateTask_accepts_any_status (now : Z) (dir : TaskDir) (task : Task)
    (to : TaskStatus.t) :
  TaskManifest.loadTask (task_id task) dir = Some task ->
  exists task',
    TaskManifest.updateTask now (task_id task) (setStatus to) dir
      = (Some task', TaskManifest.saveTask task' dir)
    /\ task_status task' = to
    /\ TaskManifest.loadTask (task_id task)
         (snd (TaskManifest.updateTask now (task_id task) (setStatus to) dir)) = Some task'.
Proof.
  intros Hload. unfold TaskManifest.updateTask. rewrite Hload.
  eexists; split; [reflexivity | split; [reflexivity |]].
  simpl. unfold TaskManifest.saveTask. simpl. apply loadTask_writeTaskFile_eq.
Qed.

(** [updateState] performs no transition check either. *)
Lemma updateState_accepts_any_state (t1 t2 : Z) (to : SessionState.t)
    (reason : option string) (s : Session) :
  sess_state (OrchestrationSession.updateState t1 t2 to reason s) = to.
Proof. reflexivity. Qed.

(** C1, counterexample.  The tables are not enforced by the update
    operations.  A completed task (terminal in the table, and rejected by
    [validateTaskStatusTransition]) is moved back to not_started by
    [updateTask], which returns the updated record and writes it; a
    completed session (terminal, rejected by [validateStateTransition]) is
    moved back to active by [updateState]. *)
Lemma update_operations_accept_forbidden_transitions :
  let done := mkTask "task-1" "orch-1" TaskStatus.COMPLETED TaskPriority.MEDIUM [] 1 in
  let dir := [("task-1", done)] in
  let closed :=
    OrchestrationSession.updateState 2 2 SessionState.COMPLETED None
      (sampleSession "session-1" "orch-1" None 1) in
  ~ task_transition_allowed TaskStatus.COMPLETED TaskStatus.NOT_STARTED
  /\ tv_isValid (TransitionRules.validateTaskStatusTransition
                   TaskStatus.COMPLETED TaskStatus.NOT_STARTED) = false
  /\ (exists task',
        TaskManifest.updateTask 5 "task-1" (setStatus TaskStatus.NOT_STARTED) dir
          = (Some task', [("task-1", task')])
        /\ task_status task' = TaskStatus.NOT_STARTED
        /\ task' <> done)
  /\ ~ session_transition_allowed SessionState.COMPLETED SessionState.ACTIVE
  /\ tv_isValid (TransitionRules.validateStateTransition
                   SessionState.COMPLETED SessionState.ACTIVE) = false
  /\ sess_state closed = SessionState.COMPLETED
  /\ sess_state (OrchestrationSession.updateState 3 3 SessionState.ACTIVE None closed)
     = SessionState.ACTIVE.
Proof.
  cbv zeta. repeat split.
  - intros H; inversion H.
  - eexists; split; [reflexivity | split; [reflexivity | discriminate]].
  - intros H; inversion H.
Qed.

(** C1, amended.  The update operations accept every transition.  For
    every task stored under its own id and every status [to], [updateTask]
    with [{status: to}] returns the updated record, which carries [to], and
    writes it, whatever the current status; for every session and every
    state [to], [updateState] sets the state to [to].  The tables are what
    [validateTaskStatusTransition] and [validateStateTransition] decide:
    the first accepts exactly the pairs of the task table, the second
    exactly the pairs of the session table and the same-state pairs; the
    update operations do not consult them. *)
Theorem update_operations_accept_every_transition (now : Z) (dir : TaskDir) (task : Task)
    (to : TaskStatus.t) (t1 t2 : Z) (state : SessionState.t) (reason : option string)
    (s : Session) :
  TaskManifest.loadTask (task_id task) dir = Some task ->
  (exists task',
     TaskManifest.updateTask now (task_id task) (setStatus to) dir
       = (Some task', TaskManifest.saveTask task' dir)
     /\ task_status task' = to
     /\ TaskManifest.loadTask (task_id task) (TaskManifest.saveTask task' dir) = Some task')
  /\ sess_state (OrchestrationSession.updateState t1 t2 state reason s) = state
  /\ (tv_isValid (TransitionRules.validateTaskStatusTransition (task_status task) to) = true
      <-> task_transition_allowed (task_status task) to)
  /\ (tv_isValid (TransitionRules.validateStateTransition (sess_state s) state) = true
      <-> sess_state s = state \/ session_transition_allowed (sess_state s) state).
Proof.
  intros Hload.
  destruct (updateTask_accepts_any_status now dir task to Hload) as (task' & Hup & Hst & Hld).
  split_and!.
  - exists task'. rewrite Hup in Hld. by split_and!.
  - apply updateState_accepts_any_state.
  - apply validateTaskStatusTransition_table.
  - apply validateStateTransition_table.
Qed.

(** A completed task stored under its own id is moved back to not_started,
    a transition that the validator rejects. *)
Lemma update_operations_accept_every_transition_witness :
  let done := mkTask "task-1" "orch-1" TaskStatus.COMPLETED TaskPriority.MEDIUM [] 1 in
  TaskManifest.loadTask (task_id done) [("task-1", done)] = Some done
  /\ (exists task',
        TaskManifest.updateTask 5 "task-1" (setStatus TaskStatus.NOT_STARTED)
          [("task-1", done)]
        = (Some task', TaskManifest.saveTask task' [("task-1", done)])
        /\ task_status task' = TaskStatus.NOT_STARTED)
  /\ tv_isValid (TransitionRules.validateTaskStatusTransition
                   TaskStatus.COMPLETED TaskStatus.NOT_STARTED) = false.
Proof.
  cbv zeta. split; [reflexivity |].
  destruct (update_operations_accept_every_transition 5
              [("task-1", mkTask "task-1" "orch-1" TaskStatus.COMPLETED
                            TaskPriority.MEDIUM [] 1)]
              (mkTask "task-1" "orch-1" TaskStatus.COMPLETED TaskPriority.MEDIUM [] 1)
              TaskStatus.NOT_STARTED 2 2 SessionState.ACTIVE None
              (sampleSession "session-1" "orch-1" None 1) eq_refl)
    as ((task' & Hup & Hst & _) & _).
  split; [by exists task' | reflexivity].
Defined.

(** C2, counterexample.  Completing a session at time 10 and calling
    [updateState] again with the same state at time 20 changes
    [completedAt]. *)
Lemma updateState_twice_restamps_completedAt :
  let s := sampleSession "session-1" "orch-1" None 1 in
  let s1 := OrchestrationSession.updateState 10 10 SessionState.COMPLETED None s in
  let s2 := OrchestrationSession.updateState 20 20 SessionState.COMPLETED None s1 in
  sess_completedAt s1 = Some (Some 10) /\ sess_completedAt s2 = Some (Some 20)
  /\ sess_completedAt s2 <> sess_completedAt s1.
Proof. cbv zeta. repeat split. discriminate. Qed.

(** C2, amended.  Two successive [updateState] calls with the same state and
    reason: the call is total (it cannot fail), the second call leaves
    [failureReason] and the state as the first call left them and stores
    its own clock reading in [lastActivityAt]; [completedAt] is left alone
    unless the state is completed, in which case the second call overwrites
    it with its own clock reading. *)
Theorem updateState_same_state_twice (s : Session) (st : SessionState.t)
    (reason : option string) (t1 t1' t2 t2' : Z) :
  let s1 := OrchestrationSession.updateState t1 t1' st reason s in
  let s2 := OrchestrationSession.updateState t2 t2' st reason s1 in
  sess_failureReason s2 = sess_failureReason s1
  /\ sess_state s2 = sess_state s1
  /\ sess_lastActivityAt s2 = Some t2
  /\ (st <> SessionState.COMPLETED -> sess_completedAt s2 = sess_completedAt s1)
  /\ (st = SessionState.COMPLETED -> sess_completedAt s2 = Some (Some t2')).
Proof.
  cbv zeta. destruct st; simpl; repeat split; try reflexivity; try congruence.
Qed.

(** Completing a session twice, at times 10 and 20. *)
Lemma updateState_same_state_twice_witness :
  let s := sampleSession "session-1" "orch-1" None 1 in
  let s1 := OrchestrationSession.updateState 10 10 SessionState.COMPLETED None s in
  let s2 := OrchestrationSession.updateState 20 20 SessionState.COMPLETED None s1 in
  sess_failureReason s2 = sess_failureReason s1
  /\ sess_lastActivityAt s2 = Some 20
  /\ sess_completedAt s2 = Some (Some 20).
Proof.
  cbv zeta.
  destruct (updateState_same_state_twice (sampleSession "session-1" "orch-1" None 1)
              SessionState.COMPLETED None 10 10 20 20) as (H1 & _ & H3 & _ & H5).
  split_and!; [exact H1 | exact H3 | exact (H5 eq_refl)].
Defined.

End TransitionFacts.

(** ** Next-task selection *)

Module NextTaskFacts.

Section StableSort.
Context {A : Type} (cmp : A -> A -> Z).

Lemma js_sort_insert_perm (x : A) (l : list A) : js_sort_insert cmp x l ≡ₚ x :: l.
Proof.
  induction l as [|y l IH]; simpl; [done |].
  destruct (cmp x y <=? 0); [done |].
  rewrite IH. apply Permutation_swap.
Qed.

Lemma js_sort_perm (l : list A) : js_sort cmp l ≡ₚ l.
Proof.
  induction l as [|x l IH]; simpl; [done |].
  rewrite js_sort_insert_perm. by rewrite IH.
Qed.

Lemma js_sort_elem (x : A) (l : list A) : x ∈ js_sort cmp l <-> x ∈ l.
Proof. by rewrite js_sort_perm. Qed.

(** When the comparator is the order of a key, the head of the sorted list
    has the least key. *)
Lemma js_sort_head_least (key : A -> Z) (l : list A) (r : A) :
  (forall a b, cmp a b <= 0 <-> key a <= key b) ->
  head (js_sort cmp l) = Some r ->
  Forall (fun t => key r <= key t) l.
Proof.
  intros Hkey. revert r. induction l as [|x l IH]; intros r Hr; [constructor |].
  simpl in Hr. destruct (js_sort cmp l) as [|y s] eqn:Es.
  - simpl in Hr. injection Hr as <-.
    assert (l = []) as ->.
    { apply Permutation_nil_r. rewrite <- Es. symmetry. apply js_sort_perm. }
    constructor; [lia | constructor].
  - simpl in Hr. specialize (IH y eq_refl).
    destruct (Z.leb_spec (cmp x y) 0) as [Hle | Hgt]; simpl in Hr; injection Hr as <-.
    + apply Hkey in Hle. constructor; [lia |].
      eapply Forall_impl; [exact IH | simpl; intros; lia].
    + constructor; [| exact IH].
      destruct (Z.le_gt_cases (key y) (key x)) as [H | H]; [exact H |].
      exfalso. assert (cmp x y <= 0) by (apply Hkey; lia). lia.
Qed.

Lemma js_sort_head_None (l : list A) : head (js_sort cmp l) = None -> l = [].
Proof.
  intros H. apply Permutation_nil_r. rewrite <- (js_sort_perm l).
  by destruct (js_sort cmp l).
Qed.

End StableSort.

Lemma nextTaskCompare_key (a b : Task) :
  TaskManifest.nextTaskCompare a b <= 0 <-> nextTaskKey a <= nextTaskKey b.
Proof.
  unfold TaskManifest.nextTaskCompare, nextTaskKey.
  destruct (task_dependencies a), (task_dependencies b),
    (task_priority a), (task_priority b); simpl; lia.
Qed.

Lemma matches_nextQuery (orchestrationId : string) (t : Task) :
  orchestrationId <> "" ->
  TaskManifest.taskMatchesQuery t (nextQuery orchestrationId) = true
  <-> task_status t = TaskStatus.NOT_STARTED /\ task_orchestrationId t = orchestrationId.
Proof.
  intros Hne. unfold TaskManifest.taskMatchesQuery, nextQuery, truthy_str. simpl.
  assert (String.eqb orchestrationId "" = false) as -> by (by apply String.eqb_neq).
  rewrite !andb_true_r. simpl.
  rewrite andb_true_iff, negb_true_iff, negb_false_iff, String.eqb_eq.
  rewrite TransitionFacts.TaskStatus_eqb_spec. tauto.
Qed.

Lemma queryTasks_nextQuery_elem (orchestrationId : string) (dir : TaskDir) (t : Task) :
  orchestrationId <> "" ->
  t ∈ TaskManifest.queryTasks (nextQuery orchestrationId) dir
  <-> eligible orchestrationId dir t.
Proof.
  intros Hne. unfold TaskManifest.queryTasks, eligible. simpl.
  rewrite js_sort_elem, list_elem_of_filter, matches_nextQuery by done. tauto.
Qed.

Lemma getNextTask_unfold (orchestrationId : string) (dir : TaskDir) :
  TaskManifest.getNextTask orchestrationId dir
  = head (js_sort TaskManifest.nextTaskCompare
            (TaskManifest.queryTasks (nextQuery orchestrationId) dir)).
Proof.
  unfold TaskManifest.getNextTask. fold (nextQuery orchestrationId).
  by destruct (TaskManifest.queryTasks (nextQuery orchestrationId) dir).
Qed.

(** The selection rule, for a non-empty orchestration id: the result is an
    eligible task whose key is least among the eligible tasks, and there is
    no result exactly when no task is eligible. *)
Lemma getNextTask_least (orchestrationId : string) (dir : TaskDir) :
  orchestrationId <> "" ->
  match TaskManifest.getNextTask orchestrationId dir with
  | Some r =>
      eligible orchestrationId dir r
      /\ forall t, eligible orchestrationId dir t -> nextTaskKey r <= nextTaskKey t
  | None => forall t, ~ eligible orchestrationId dir t
  end.
Proof.
  intros Hne. rewrite getNextTask_unfold.
  destruct (head _) as [r|] eqn:Hr.
  - split.
    + apply queryTasks_nextQuery_elem; [done |].
      apply (js_sort_elem TaskManifest.nextTaskCompare).
      by apply head_Some_elem_of.
    + intros t Ht. apply queryTasks_nextQuery_elem in Ht; [| done].
      pose proof (js_sort_head_least _ nextTaskKey _ _ nextTaskCompare_key Hr) as Hall.
      rewrite Forall_forall in Hall. by apply Hall.
  - intros t Ht. apply queryTasks_nextQuery_elem in Ht; [| done].
    apply js_sort_head_None in Hr. rewrite Hr in Ht. by apply elem_of_nil in Ht.
Qed.

End NextTaskFacts.
(** ** The tasks that an orchestration query selects *)

Module OrchestrationFacts.
Import NextTaskFacts.

Lemma matches_orchestrationQuery (orchestrationId : string) (t : Task) :
  orchestrationId <> "" ->
  TaskManifest.taskMatchesQuery t (orchestrationQuery orchestrationId) = true
  <-> task_orchestrationId t = orchestrationId.
Proof.
  intros Hne. unfold TaskManifest.taskMatchesQuery, orchestrationQuery, truthy_str. simpl.
  assert (String.eqb orchestrationId "" = false) as -> by (by apply String.eqb_neq).
  rewrite !andb_true_r. simpl. by rewrite negb_true_iff, negb_false_iff, String.eqb_eq.
Qed.

(** For a non-empty id, the query of an orchestration returns the stored
    tasks of that orchestration, each once, in some order. *)
Lemma queryTasks_orchestration (orchestrationId : string) (dir : TaskDir) :
  orchestrationId <> "" ->
  TaskManifest.queryTasks (orchestrationQuery orchestrationId) dir
  ≡ₚ tasks_of_orchestration orchestrationId dir.
Proof.
  intros Hne. unfold TaskManifest.queryTasks, tasks_of_orchestration. simpl.
  rewrite js_sort_perm.
  rewrite (list_filter_iff _ (fun t => task_orchestrationId t = orchestrationId)); [done |].
  intros t. by apply matches_orchestrationQuery.
Qed.

(** The dependency graph of a list of tasks depends on its members only. *)
Lemma dep_edge_members (tasks tasks' : list Task) (u v : string) :
  tasks ≡ₚ tasks' -> dep_edge tasks u v -> dep_edge tasks' u v.
Proof.
  intros Hp (t & Ht & Hid & Hv & Hin). exists t.
  split_and!; [by rewrite <- Hp | done | done | by rewrite <- Hp].
Qed.

Lemma dep_path_members (tasks tasks' : list Task) (u v : string) :
  tasks ≡ₚ tasks' -> tc (dep_edge tasks) u v -> tc (dep_edge tasks') u v.
Proof.
  intros Hp. induction 1 as [x y H | x y z H _ IH].
  - apply tc_once. by eapply dep_edge_members.
  - eapply tc_l; [by eapply dep_edge_members | exact IH].
Qed.

Lemma dep_reach_members (tasks tasks' : list Task) (u v : string) :
  tasks ≡ₚ tasks' -> rtc (dep_edge tasks) u v -> rtc (dep_edge tasks') u v.
Proof.
  intros Hp. induction 1 as [x | x y z H _ IH]; [done |].
  eapply rtc_l; [by eapply dep_edge_members | exact IH].
Qed.

Lemma has_cycle_members (tasks tasks' : list Task) :
  tasks ≡ₚ tasks' -> has_cycle tasks <-> has_cycle tasks'.
Proof.
  intros Hp. split; intros [u Hu]; exists u; eapply dep_path_members; try exact Hu; done.
Qed.

Lemma NoDup_ids_members (tasks tasks' : list Task) :
  tasks ≡ₚ tasks' -> NoDup (map task_id tasks) <-> NoDup (map task_id tasks').
Proof. intros Hp. by rewrite Hp. Qed.

End OrchestrationFacts.

Module NextTaskScenario.
Import NextTaskFacts.

(** C6, counterexample.  A, B and C are created at times 1, 2 and 3.  Once A
    is completed, B and C are both not_started with one dependency and the
    same priority; the query lists the newest task first and the stable
    sort keeps that order, so [getNextTask] returns C, not B. *)
Lemma getNextTask_returns_C_after_A_completed :
  let d0 := scenarioDir "orch-1" 1 2 3 in
  let d1 := snd (TaskManifest.updateTask 4 "A" (setStatus TaskStatus.COMPLETED) d0) in
  TaskManifest.getNextTask "orch-1" d0 = Some (taskA "orch-1" 1)
  /\ TaskManifest.getNextTask "orch-1" d1 = Some (taskC "orch-1" 3)
  /\ TaskManifest.getNextTask "orch-1" d1 <> Some (taskB "orch-1" 2).
Proof. cbv zeta. split; [reflexivity | split; [reflexivity | discriminate]]. Qed.

Lemma priorityOrder_range (p : TaskPriority.t) :
  1 <= TaskManifest.priorityOrder p <= 4.
Proof. destruct p; simpl; lia. Qed.

Lemma listing_of_three {A} (x y z : A) (l : list A) :
  l ≡ₚ [x; y; z] ->
  l = [x; y; z] \/ l = [x; z; y] \/ l = [y; x; z]
  \/ l = [y; z; x] \/ l = [z; x; y] \/ l = [z; y; x].
Proof.
  intros Hp. symmetry in Hp.
  pose proof (Permutation_length Hp) as Hlen.
  destruct l as [|a [|b [|c [|? ?]]]]; try discriminate.
  assert (a ∈ [x; y; z]) as Ha by (rewrite Hp; left).
  rewrite !elem_of_cons in Ha. destruct Ha as [-> | [-> | [-> | Ha]]];
    [| | | by apply elem_of_nil in Ha].
  - apply Permutation_cons_inv, Permutation_length_2_inv in Hp as [[= <- <-] | [= <- <-]]; auto.
  - rewrite <- (Permutation_swap x y [z]) in Hp.
    apply Permutation_cons_inv, Permutation_length_2_inv in Hp as [[= <- <-] | [= <- <-]];
      auto 6.
  - assert ([x; y; z] ≡ₚ z :: [x; y]) as Hrot by (by rewrite (Permutation_app_comm [x; y] [z])).
    rewrite Hrot in Hp.
    apply Permutation_cons_inv, Permutation_length_2_inv in Hp as [[= <- <-] | [= <- <-]];
      auto 7.
Qed.

Lemma eligible_scenario (orchestrationId : string) (ca cb cc : Z) (d0 : TaskDir) (t : Task) :
  d0 ≡ₚ scenarioDir orchestrationId ca cb cc ->
  eligible orchestrationId d0 t ->
  t = taskA orchestrationId ca \/ t = taskB orchestrationId cb
  \/ t = taskC orchestrationId cc.
Proof.
  intros Hp [Hin _]. rewrite Hp in Hin. simpl in Hin.
  rewrite !elem_of_cons in Hin. destruct Hin as [-> | [-> | [-> | Hin]]]; auto.
  by apply elem_of_nil in Hin.
Qed.

(** C6, amended.  For a non-empty orchestration id, [getNextTask] returns
    none exactly when the orchestration has no not_started task, and
    otherwise a not_started task of the orchestration such that no other
    one is preferred to it: it has no dependencies unless all of them have
    some, and among those of its kind (with or without dependencies) none
    has a higher priority.  In the scenario, whatever the creation times
    and in whatever order [readdir] lists the three files, [getNextTask]
    first returns A; after A is marked completed, [checkDependencies B]
    reports [allSatisfied = true], and [getNextTask] returns the one of B
    and C that was created last, and when both were created at the same
    time the one whose file is listed first. *)
Theorem getNextTask_selection (orchestrationId : string) (dir d0 : TaskDir)
    (ca cb cc now : Z) :
  orchestrationId <> "" ->
  d0 ≡ₚ scenarioDir orchestrationId ca cb cc ->
  match TaskManifest.getNextTask orchestrationId dir with
  | Some r =>
      eligible orchestrationId dir r
      /\ forall t, eligible orchestrationId dir t ->
           (task_dependencies r = [] \/ task_dependencies t <> [])
           /\ ((task_dependencies r = [] <-> task_dependencies t = []) ->
               TaskManifest.priorityOrder (task_priority t)
               <= TaskManifest.priorityOrder (task_priority r))
  | None => forall t, ~ eligible orchestrationId dir t
  end
  /\ let d1 := snd (TaskManifest.updateTask now "A" (setStatus TaskStatus.COMPLETED) d0) in
     TaskManifest.getNextTask orchestrationId d0 = Some (taskA orchestrationId ca)
     /\ (exists r, TaskExecutor.checkDependencies "B" d1 = inr r /\ allSatisfied r = true)
     /\ TaskManifest.getNextTask orchestrationId d1
        = Some (if cb <? cc then taskC orchestrationId cc
                else if cc <? cb then taskB orchestrationId cb
                else if bool_decide (firstListed "B" "C" d0 = Some "C")
                     then taskC orchestrationId cc
                     else taskB orchestrationId cb).
Proof.
  intros Hne Hp. split; [| cbv zeta; split; [| split]].
  - pose proof (getNextTask_least orchestrationId dir Hne) as H.
    destruct (TaskManifest.getNextTask orchestrationId dir) as [r|]; [| exact H].
    destruct H as [Hr Hleast]. split; [exact Hr |].
    intros t Ht. specialize (Hleast t Ht). unfold nextTaskKey in Hleast.
    pose proof (priorityOrder_range (task_priority r)).
    pose proof (priorityOrder_range (task_priority t)).
    destruct (task_dependencies r) as [|dr drs], (task_dependencies t) as [|dt dts].
    + split; [by left | intros _; lia].
    + split; [by left | intros [H1 _]; discriminate (H1 eq_refl)].
    + lia.
    + split; [by right | intros _; lia].
  - pose proof (getNextTask_least orchestrationId d0 Hne) as H.
    assert (eligible orchestrationId d0 (taskA orchestrationId ca)) as HA.
    { split; [| split; reflexivity]. rewrite Hp. simpl. apply elem_of_cons. by left. }
    destruct (TaskManifest.getNextTask _ _) as [r|]; [| by destruct (H _ HA)].
    destruct H as [Hr Hleast]. specialize (Hleast _ HA).
    apply (eligible_scenario _ _ _ _ _ _ Hp) in Hr. destruct Hr as [-> | [-> | ->]];
      [reflexivity | |]; vm_compute in Hleast; by destruct Hleast.
  - apply listing_of_three in Hp.
    destruct Hp as [-> | [-> | [-> | [-> | [-> | ->]]]]];
      (eexists; split; [reflexivity | reflexivity]).
  - assert (String.eqb orchestrationId "" = false) as E0 by (by apply String.eqb_neq).
    apply listing_of_three in Hp.
    destruct Hp as [-> | [-> | [-> | [-> | [-> | ->]]]]];
      unfold TaskManifest.getNextTask, TaskManifest.queryTasks,
        TaskManifest.taskMatchesQuery, truthy_str;
      cbn; rewrite E0, String.eqb_refl; cbn;
      repeat (case_decide; try done); cbn;
      repeat match goal with
             | |- context [Z.leb ?x 0] => destruct (Z.leb_spec x 0)
             | |- context [Z.ltb ?x ?y] => destruct (Z.ltb_spec x y)
             end; cbn; try reflexivity; lia.
Qed.

(** The hypotheses of [getNextTask_selection] hold for the listing A, B, C
    of the scenario. *)
Lemma getNextTask_selection_witness :
  "orch-1" <> ""
  /\ scenarioDir "orch-1" 1 2 3 ≡ₚ scenarioDir "orch-1" 1 2 3
  /\ TaskManifest.getNextTask "orch-1" (scenarioDir "orch-1" 1 2 3)
     = Some (taskA "orch-1" 1).
Proof.
  split; [discriminate |]. split; [reflexivity |].
  exact (proj1 (proj2 (getNextTask_selection "orch-1" [] (scenarioDir "orch-1" 1 2 3)
                         1 2 3 4 ltac:(discriminate) ltac:(reflexivity)))).
Defined.

(** With equal creation times the listing decides: C is returned when its
    file is listed before that of B. *)
Example getNextTask_tie_follows_listing :
  let d0 := [("A", taskA "orch-1" 1); ("C", taskC "orch-1" 2); ("B", taskB "orch-1" 2)] in
  let d1 := snd (TaskManifest.updateTask 4 "A" (setStatus TaskStatus.COMPLETED) d0) in
  TaskManifest.getNextTask "orch-1" d1 = Some (taskC "orch-1" 2)
  /\ TaskManifest.getNextTask "orch-1"
       (snd (TaskManifest.updateTask 4 "A" (setStatus TaskStatus.COMPLETED)
               (scenarioDir "orch-1" 1 2 2)))
     = Some (taskB "orch-1" 2).
Proof. cbv zeta. split; reflexivity. Qed.

End NextTaskScenario.

(** ** Task statistics *)

Module StatisticsFacts.

Section Rounding.
Variable rnd : Q -> Q.
Hypothesis rnd_monotone : forall x y : Q, (x <= y)%Q -> (rnd x <= rnd y)%Q.
Hypothesis rnd_0 : (rnd 0 == 0)%Q.
Hypothesis rnd_1 : (rnd 1 == 1)%Q.
Hypothesis rnd_100 : (rnd 100 == 100)%Q.

Lemma completed_count_bounds (tasks : list Task) (acc : StatsAcc) :
  0 <= acc_byStatus acc TaskStatus.COMPLETED ->
  0 <= acc_byStatus (fold_left (statsStep rnd) tasks acc) TaskStatus.COMPLETED
       <= acc_byStatus acc TaskStatus.COMPLETED + Z.of_nat (length tasks).
Proof.
  revert acc. induction tasks as [|t tasks IH]; intros acc H0; simpl length.
  - simpl. lia.
  - simpl fold_left.
    assert (acc_byStatus acc TaskStatus.COMPLETED
            <= acc_byStatus (statsStep rnd acc t) TaskStatus.COMPLETED
            <= acc_byStatus acc TaskStatus.COMPLETED + 1) as Hstep.
    { simpl. unfold bump. destruct (TaskStatus.eqb _ _); lia. }
    specialize (IH (statsStep rnd acc t) ltac:(lia)). lia.
Qed.

Lemma percentage_in_range (c n : Z) :
  0 < n -> 0 <= c <= n ->
  exists z,
    Math_round (js_mul rnd (js_div rnd (of_int c) (of_int n)) (of_int 100))
    = Num (inject_Z z)
    /\ 0 <= z <= 100.
Proof.
  intros Hn Hc. unfold of_int, js_div, q_is_zero.
  assert (Qeq_bool (inject_Z n) 0 = false) as ->.
  { apply not_true_iff_false. intros H. apply Qeq_bool_iff in H.
    unfold Qeq in H. simpl in H. lia. }
  unfold js_mul, Math_round. eexists. split; [reflexivity |].
  assert (0 <= inject_Z c / inject_Z n <= 1)%Q as [Hq0 Hq1].
  { assert (0 < inject_Z n)%Q as Hnq by (unfold Qlt; simpl; lia).
    split.
    - apply Qle_shift_div_l; [exact Hnq |]. unfold Qle. simpl. lia.
    - apply Qle_shift_div_r; [exact Hnq |]. unfold Qle. simpl. lia. }
  apply rnd_monotone in Hq0, Hq1. rewrite rnd_0 in Hq0. rewrite rnd_1 in Hq1.
  set (q1 := rnd (inject_Z c / inject_Z n)) in *.
  assert (0 <= q1 * inject_Z 100 <= 100)%Q as [Hp0 Hp1].
  { change (inject_Z 100) with 100%Q. split.
    - apply Qmult_le_0_compat; [exact Hq0 | discriminate].
    - apply Qle_trans with (1 * 100)%Q; [| discriminate].
      apply Qmult_le_compat_r; [exact Hq1 | discriminate]. }
  apply rnd_monotone in Hp0, Hp1. rewrite rnd_0 in Hp0. rewrite rnd_100 in Hp1.
  set (q2 := rnd (q1 * inject_Z 100)) in *.
  split.
  - change 0 with (Qfloor 0). apply Qfloor_resp_le.
    apply Qle_trans with q2; [exact Hp0 |].
    rewrite <- (Qplus_0_r q2) at 1. apply Qplus_le_r. discriminate.
  - change 100 with (Qfloor (100 + (1 # 2))). apply Qfloor_resp_le.
    apply Qplus_le_l. exact Hp1.
Qed.

(** C10, amended.  For a non-empty orchestration id: when no stored task
    has that orchestration id, [averageProgress] is the guarded 0 while
    [completionPercentage] is [Math.round((0 / 0) * 100)], which is NaN;
    when at least one has, [completionPercentage] is an integer between 0
    and 100. *)
Theorem getTaskStatistics_completionPercentage (orchestrationId : string) (dir : TaskDir) :
  let tasks := tasks_of_orchestration orchestrationId dir in
  let stats := getTaskStatistics rnd orchestrationId dir in
  orchestrationId <> "" ->
  (tasks = [] ->
     stat_averageProgress stats = of_int 0 /\ stat_completionPercentage stats = NaN)
  /\ (tasks <> [] ->
        exists z, stat_completionPercentage stats = Num (inject_Z z) /\ 0 <= z <= 100).
Proof.
  cbv zeta. intros Hid.
  pose proof (OrchestrationFacts.queryTasks_orchestration orchestrationId dir Hid) as Hp.
  unfold getTaskStatistics.
  set (tasks := TaskManifest.queryTasks _ _) in *. split.
  - intros Hnil. rewrite Hnil in Hp. apply Permutation_nil_r in Hp. rewrite Hp.
    simpl. split; reflexivity.
  - intros Hne. simpl.
    pose proof (completed_count_bounds tasks statsInit ltac:(simpl; lia)) as Hc.
    simpl in Hc. apply percentage_in_range; [| lia].
    destruct tasks; [| simpl; lia].
    exfalso. apply Hne. by apply Permutation_nil_l in Hp.
Qed.

End Rounding.

(** C10, counterexample.  With the empty id the query selects every stored
    task: no stored task has the empty orchestration id, yet the statistics
    count the two tasks of orch-1 and [completionPercentage] is 50, not
    NaN. *)
Lemma getTaskStatistics_empty_id_counts_every_task :
  tasks_of_orchestration "" halfDoneDir = []
  /\ stat_total (getTaskStatistics (fun q => q) "" halfDoneDir) = 2
  /\ stat_completionPercentage (getTaskStatistics (fun q => q) "" halfDoneDir) = Num 50
  /\ stat_completionPercentage (getTaskStatistics (fun q => q) "" halfDoneDir) <> NaN.
Proof. split_and!; [reflexivity | reflexivity | reflexivity | discriminate]. Qed.

(** The rounding hypotheses hold for exact arithmetic; an orchestration
    with one completed task out of two. *)
Lemma getTaskStatistics_completionPercentage_witness :
  (forall x y : Q, (x <= y)%Q -> ((fun q => q) x <= (fun q => q) y)%Q)
  /\ "orch-1" <> ""
  /\ exists z,
       stat_completionPercentage (getTaskStatistics (fun q => q) "orch-1" halfDoneDir)
       = Num (inject_Z z)
       /\ 0 <= z <= 100.
Proof.
  split; [intros x y H; exact H |]. split; [discriminate |].
  apply (getTaskStatistics_completionPercentage (fun q => q)
           (fun x y H => H) (Qeq_refl 0) (Qeq_refl 1) (Qeq_refl 100) "orch-1"
           halfDoneDir ltac:(discriminate)).
  discriminate.
Defined.

End StatisticsFacts.

(** ** Dependency validation: cycle detection *)

Module DependencyFacts.
Import DependencyCheck.

Lemma tc_subrel {A} (R1 R2 : relation A) (x y : A) :
  (forall a b, R1 a b -> R2 a b) -> tc R1 x y -> tc R2 x y.
Proof.
  intros Hsub. induction 1 as [x y H | x y z H _ IH].
  - apply tc_once. by apply Hsub.
  - eapply tc_l; [by apply Hsub | exact IH].
Qed.

Section Search.
Variable tasks : list Task.
Local Abbreviation ids := (taskIdSet tasks).
Local Abbreviation edge := (dfs_edge tasks).
Local Abbreviation Inv := (dfs_inv tasks).

Lemma closed_tc (B : gset string) (u v : string) :
  (forall a b, a ∈ B -> edge a b -> b ∈ B) -> tc edge u v -> u ∈ B -> v ∈ B.
Proof. intros Hcl. induction 1; eauto. Qed.

Lemma edge_source_id (u v : string) : edge u v -> u ∈ ids.
Proof.
  intros (t & Hfind & _). unfold taskIdSet. apply elem_of_list_to_set.
  clear -Hfind. induction tasks as [|t' ts IH]; simpl in *; [done |].
  destruct (String.eqb (task_id t') u) eqn:E.
  - apply String.eqb_eq in E. subst. apply elem_of_cons. by left.
  - apply elem_of_cons. right. by apply IH.
Qed.

Lemma forEachDependency_spec (fuel : nat) :
  (forall v path st r,
      hasCycle tasks ids fuel v path st = Some r ->
      cycles st = [] -> Inv st ->
      (forall x, x ∈ recursionStack st -> tc edge x v) ->
      dfs_post tasks st v r) ->
  forall ds u path st r,
    forEachDependency (hasCycle tasks ids fuel) ids ds path st = Some r ->
    cycles st = [] -> Inv st ->
    (forall x, x ∈ recursionStack st -> x = u \/ tc edge x u) ->
    (forall d, d ∈ ds -> dep_taskId d ∈ ids -> edge u (dep_taskId d)) ->
    dfs_loop_post tasks st ds r.
Proof.
  intros IHfuel. induction ds as [|d ds IHds]; intros u path st r Hrun Hc Hinv Hstack Hedges.
  - simpl in Hrun. injection Hrun as <-. split; simpl; [done |].
    intros _. split_and!; try done. intros d Hd. by apply elem_of_nil in Hd.
  - simpl in Hrun. destruct (decide (dep_taskId d ∈ ids)) as [Hin | Hnin].
    + destruct (hasCycle tasks ids fuel (dep_taskId d) path st) as [[b st']|] eqn:Hcall;
        [| discriminate].
      assert (dfs_post tasks st (dep_taskId d) (b, st')) as [Hdirty Hclean].
      { eapply IHfuel; eauto. intros x Hx.
        assert (edge u (dep_taskId d)) as He.
        { apply Hedges; [apply elem_of_cons; by left | done]. }
        destruct (Hstack x Hx) as [-> | Htc]; [by apply tc_once | by eapply tc_r]. }
      simpl in Hdirty, Hclean. destruct b.
      * injection Hrun as <-. split; simpl; [exact Hdirty |].
        intros Hc'. by destruct (Hclean Hc') as [? _].
      * destruct (cycles st') as [|c cs] eqn:Hc'.
        2:{ by destruct (Hdirty ltac:(done)) as [? _]. }
        destruct (Hclean eq_refl) as (_ & Hinv' & Hstk & Hvis & Hblack).
        assert (dfs_loop_post tasks st' ds r) as [Hd2 Hc2].
        { eapply IHds; eauto.
          - rewrite Hstk. exact Hstack.
          - intros d' Hd'. apply Hedges. apply elem_of_cons. by right. }
        split; [exact Hd2 |]. intros Hcr.
        destruct (Hc2 Hcr) as (Hb & Hinvr & Hstkr & Hvisr & Hblackr).
        split_and!; try done.
        -- congruence.
        -- set_solver.
        -- intros d' Hd' Hid'. apply elem_of_cons in Hd' as [-> | Hd'];
             [| by apply Hblackr].
           unfold dfs_black in *. rewrite Hstkr. set_solver.
    + assert (dfs_loop_post tasks st ds r) as [Hd2 Hc2].
      { eapply IHds; eauto. intros d' Hd'. apply Hedges. apply elem_of_cons. by right. }
      split; [exact Hd2 |]. intros Hcr.
      destruct (Hc2 Hcr) as (Hb & Hinvr & Hstkr & Hvisr & Hblackr).
      split_and!; try done.
      intros d' Hd' Hid'. apply elem_of_cons in Hd' as [-> | Hd']; [done | by apply Hblackr].
Qed.

Lemma hasCycle_spec (fuel : nat) :
  forall v path st r,
    hasCycle tasks ids fuel v path st = Some r ->
    cycles st = [] -> Inv st ->
    (forall x, x ∈ recursionStack st -> tc edge x v) ->
    dfs_post tasks st v r.
Proof.
  induction fuel as [|fuel IH]; intros v path st r Hrun Hc Hinv Hstack; [discriminate |].
  simpl in Hrun.
  destruct (decide (v ∈ recursionStack st)) as [Hon | Hoff].
  { injection Hrun as <-. split; simpl.
    - intros _. split; [done |]. exists v. by apply Hstack.
    - intros Habs. by destruct (cycles st). }
  destruct (decide (v ∈ visited st)) as [Hvis | Hnew].
  { injection Hrun as <-. split; simpl; [done |].
    intros _. split_and!; try done. unfold dfs_black. set_solver. }
  set (st1 := {| visited := visited st ∪ {[v]};
                 recursionStack := recursionStack st ∪ {[v]};
                 cycles := cycles st |}) in *.
  set (deps := match findTask v tasks with
               | Some task => task_dependencies task
               | None => []
               end) in *.
  destruct (forEachDependency _ _ deps _ st1) as [[b st2]|] eqn:Hloop; [| discriminate].
  assert (dfs_black st1 = dfs_black st) as Hb1.
  { unfold dfs_black, st1. simpl. apply set_eq. set_solver. }
  assert (dfs_loop_post tasks st1 deps (b, st2)) as [Hdirty Hclean].
  { eapply (forEachDependency_spec fuel IH deps v); eauto.
    - destruct Hinv as [I1 I2 I3]. split.
      + unfold st1. simpl. set_solver.
      + rewrite Hb1. exact I2.
      + rewrite Hb1. exact I3.
    - unfold st1. simpl. intros x Hx.
      apply elem_of_union in Hx as [Hx | Hx]; [right; by apply Hstack | left; set_solver].
    - intros d Hd Hid. unfold dfs_edge. unfold deps in Hd.
      destruct (findTask v tasks) as [t|]; [| by apply elem_of_nil in Hd].
      exists t. split_and!; try done. apply list_elem_of_fmap. by exists d. }
  simpl in Hdirty, Hclean. destruct b.
  { injection Hrun as <-. split; simpl; [exact Hdirty |].
    intros Hc'. by destruct (Hclean Hc') as [? _]. }
  injection Hrun as <-. split; simpl.
  { intros Hc'. by destruct (Hdirty Hc') as [? _]. }
  intros Hc2. destruct (Hclean Hc2) as (_ & [I1 I2 I3] & Hstk & Hvis2 & Hblack).
  unfold st1 in Hstk, Hvis2. simpl in Hstk, Hvis2.
  assert (v ∉ dfs_black st2) as Hvgray.
  { unfold dfs_black. rewrite Hstk. set_solver. }
  assert (forall w, edge v w -> w ∈ dfs_black st2) as Hsucc.
  { intros w (t & Hfind & Hw & Hwid). apply list_elem_of_fmap in Hw as (d & -> & Hd).
    apply Hblack; [| done]. unfold deps. by rewrite Hfind. }
  assert (forall x, x ∈ dfs_black st2 ∨ x = v <->
                    x ∈ visited st2 ∖ (recursionStack st2 ∖ {[v]})) as Hnewblack.
  { intros x. unfold dfs_black. rewrite Hstk.
    destruct (decide (x = v)) as [-> | Hne]; set_solver. }
  split_and!; [done | split | | |]; simpl.
  - set_solver.
  - unfold dfs_black at 1 2. simpl. intros a b Ha Hab.
    apply Hnewblack. left. apply Hnewblack in Ha as [Ha | ->]; [by eapply I2 | by apply Hsucc].
  - unfold dfs_black. simpl. intros a Ha Hcyc.
    apply Hnewblack in Ha as [Ha | ->]; [by eapply I3 |].
    apply Hvgray. inversion Hcyc as [? ? He | ? w ? He Htc]; subst.
    + by apply Hsucc.
    + eapply closed_tc; [exact I2 | exact Htc | by apply Hsucc].
  - rewrite Hstk. apply set_eq. set_solver.
  - set_solver.
  - unfold dfs_black. simpl. set_solver.
Qed.

(** Once a cycle has been recorded the list only grows. *)
Lemma forEachDependency_cycles_mono (fuel : nat) :
  (forall v path st r,
      hasCycle tasks ids fuel v path st = Some r -> cycles st <> [] -> cycles r.2 <> []) ->
  forall ds path st r,
    forEachDependency (hasCycle tasks ids fuel) ids ds path st = Some r ->
    cycles st <> [] -> cycles r.2 <> [].
Proof.
  intros IHfuel. induction ds as [|d ds IHds]; intros path st r Hrun Hc; simpl in Hrun.
  - by injection Hrun as <-.
  - destruct (decide (dep_taskId d ∈ ids)); [| by eapply IHds].
    destruct (hasCycle tasks ids fuel (dep_taskId d) path st) as [[b st']|] eqn:Hcall;
      [| discriminate].
    pose proof (IHfuel _ _ _ _ Hcall Hc) as Hc'. simpl in Hc'.
    destruct b; [by injection Hrun as <- | by eapply IHds].
Qed.

Lemma hasCycle_cycles_mono (fuel : nat) :
  forall v path st r,
    hasCycle tasks ids fuel v path st = Some r -> cycles st <> [] -> cycles r.2 <> [].
Proof.
  induction fuel as [|fuel IH]; intros v path st r Hrun Hc; [discriminate |].
  simpl in Hrun.
  destruct (decide (v ∈ recursionStack st)).
  { injection Hrun as <-. simpl. by destruct (cycles st). }
  destruct (decide (v ∈ visited st)); [by injection Hrun as <- |].
  destruct (forEachDependency _ _ _ _ _) as [[b st2]|] eqn:Hloop; [| discriminate].
  pose proof (forEachDependency_cycles_mono fuel IH _ _ _ _ Hloop Hc) as Hc2.
  destruct b; by injection Hrun as <-.
Qed.

(** *** Termination: the fuel is never exhausted *)

Lemma forEachDependency_total (fuel : nat) :
  (forall v path st,
      size (ids ∖ visited st) < fuel -> v ∈ ids ->
      exists r, hasCycle tasks ids fuel v path st = Some r /\ visited st ⊆ visited r.2)%nat ->
  forall ds path st,
    (size (ids ∖ visited st) < fuel)%nat ->
    exists r, forEachDependency (hasCycle tasks ids fuel) ids ds path st = Some r
              /\ visited st ⊆ visited r.2.
Proof.
  intros IHfuel. induction ds as [|d ds IHds]; intros path st Hsize; simpl.
  - by eexists.
  - destruct (decide (dep_taskId d ∈ ids)) as [Hin |]; [| by apply IHds].
    destruct (IHfuel (dep_taskId d) path st Hsize Hin) as ([b st'] & -> & Hsub).
    simpl in Hsub. destruct b; [by eexists |].
    destruct (IHds path st') as (r & -> & Hsub').
    { eapply Nat.le_lt_trans; [| exact Hsize]. apply subseteq_size. set_solver. }
    exists r. split; [done | set_solver].
Qed.

Lemma hasCycle_total (fuel : nat) :
  forall v path st,
    (size (ids ∖ visited st) < fuel)%nat -> v ∈ ids ->
    exists r, hasCycle tasks ids fuel v path st = Some r /\ visited st ⊆ visited r.2.
Proof.
  induction fuel as [|fuel IH]; intros v path st Hsize Hv; [lia |].
  simpl. destruct (decide (v ∈ recursionStack st)); [by eexists |].
  destruct (decide (v ∈ visited st)) as [| Hnew]; [by eexists |].
  set (st1 := {| visited := visited st ∪ {[v]};
                 recursionStack := recursionStack st ∪ {[v]};
                 cycles := cycles st |}).
  assert (size (ids ∖ visited st1) < fuel)%nat as Hsize1.
  { assert (ids ∖ visited st1 ⊂ ids ∖ visited st) as Hsub.
    { unfold st1. simpl. split; [set_solver |]. intros Habs.
      assert (v ∈ ids ∖ (visited st ∪ {[v]})) by set_solver. set_solver. }
    apply subset_size in Hsub. lia. }
  destruct (forEachDependency_total fuel IH
              (match findTask v tasks with
               | Some task => task_dependencies task
               | None => []
               end) (path ++ [v])%list st1 Hsize1) as ([b st2] & -> & Hsub).
  unfold st1 in Hsub. simpl in Hsub.
  destruct b; eexists; (split; [reflexivity | simpl; set_solver]).
Qed.

Lemma size_taskIdSet : (size ids <= length tasks)%nat.
Proof.
  unfold taskIdSet. rewrite <- (length_map task_id tasks).
  induction (map task_id tasks) as [|x l IH].
  - by rewrite list_to_set_nil, size_empty.
  - rewrite list_to_set_cons, size_union_alt, size_singleton. simpl length.
    assert (size (list_to_set l ∖ {[x]} : gset string) <= size (list_to_set l : gset string))%nat
      by (apply subseteq_size; set_solver).
    lia.
Qed.

Lemma task_id_in_ids (t : Task) : t ∈ tasks -> task_id t ∈ ids.
Proof.
  intros Ht. unfold taskIdSet. apply elem_of_list_to_set.
  apply list_elem_of_fmap. by exists t.
Qed.

(** *** The loop over all tasks *)

Lemma checkAll_total (fuel : nat) (todo : list Task) :
  (length tasks < fuel)%nat ->
  forall isValid st,
    (forall t, t ∈ todo -> t ∈ tasks) ->
    exists r, checkAll tasks ids fuel todo isValid st = Some r.
Proof.
  intros Hfuel.
  induction todo as [|t todo IH]; intros isValid st Hsub; simpl; [by eexists |].
  assert (forall t', t' ∈ todo -> t' ∈ tasks) as Hsub'.
  { intros t' Ht'. apply Hsub. apply elem_of_cons. by right. }
  destruct (decide (task_id t ∈ visited st)); [by apply IH |].
  destruct (hasCycle_total fuel (task_id t) [] st) as ([b st'] & -> & _).
  - pose proof size_taskIdSet.
    assert (size (ids ∖ visited st) <= size ids)%nat by (apply subseteq_size; set_solver).
    lia.
  - apply task_id_in_ids. apply Hsub. apply elem_of_cons. by left.
  - by apply IH.
Qed.

Lemma checkAll_dirty (fuel : nat) (todo : list Task) :
  forall isValid st r,
    checkAll tasks ids fuel todo isValid st = Some r ->
    cycles st <> [] ->
    cycles r.2 <> [] /\ (isValid = false -> r.1 = false).
Proof.
  induction todo as [|t todo IH]; intros isValid st r Hrun Hc; simpl in Hrun.
  - by injection Hrun as <-.
  - destruct (decide (task_id t ∈ visited st)); [by eapply IH |].
    destruct (hasCycle tasks ids fuel (task_id t) [] st) as [[b st']|] eqn:Hcall;
      [| discriminate].
    pose proof (hasCycle_cycles_mono _ _ _ _ _ Hcall Hc) as Hc'. simpl in Hc'.
    destruct (IH _ _ _ Hrun Hc') as [H1 H2]. split; [done |].
    intros ->. apply H2. by destruct b.
Qed.

Lemma checkAll_spec (fuel : nat) (todo : list Task) :
  forall isValid st r,
    checkAll tasks ids fuel todo isValid st = Some r ->
    cycles st = [] -> Inv st -> recursionStack st = ∅ ->
    (cycles r.2 <> [] -> r.1 = false /\ exists u, tc edge u u)
    /\ (cycles r.2 = [] ->
        r.1 = isValid /\ Inv r.2 /\ recursionStack r.2 = ∅
        /\ visited st ⊆ visited r.2
        /\ forall t, t ∈ todo -> task_id t ∈ visited r.2).
Proof.
  induction todo as [|t todo IH]; intros isValid st r Hrun Hc Hinv Hstk; simpl in Hrun.
  - injection Hrun as <-. simpl. split; [done |]. intros _. split_and!; try done.
    intros t Ht. by apply elem_of_nil in Ht.
  - destruct (decide (task_id t ∈ visited st)) as [Hvis |].
    + destruct (IH _ _ _ Hrun Hc Hinv Hstk) as [Hd Hcl]. split; [done |].
      intros Hcr. destruct (Hcl Hcr) as (? & ? & ? & Hsub & Hall). split_and!; try done.
      intros t' Ht'. apply elem_of_cons in Ht' as [-> | Ht']; [set_solver | by apply Hall].
    + destruct (hasCycle tasks ids fuel (task_id t) [] st) as [[b st']|] eqn:Hcall;
        [| discriminate].
      assert (dfs_post tasks st (task_id t) (b, st')) as [Hdirty Hclean].
      { eapply hasCycle_spec; eauto. rewrite Hstk. set_solver. }
      simpl in Hdirty, Hclean.
      destruct (cycles st') as [|c cs] eqn:Hc'.
      * destruct (Hclean eq_refl) as (-> & Hinv' & Hstk' & Hsub & Hblack).
        destruct (IH _ _ _ Hrun Hc' Hinv' ltac:(congruence)) as [Hd Hcl].
        split; [done |]. intros Hcr.
        destruct (Hcl Hcr) as (? & ? & ? & Hsub' & Hall). split_and!; try done.
        -- set_solver.
        -- intros t' Ht'. apply elem_of_cons in Ht' as [-> | Ht']; [| by apply Hall].
           unfold dfs_black in Hblack. set_solver.
      * destruct (Hdirty ltac:(done)) as [-> Hcyc].
        destruct (checkAll_dirty _ _ _ _ _ Hrun ltac:(by rewrite Hc')) as [Hcr Hb].
        split; [intros _; split; [by apply Hb | done] | done].
Qed.

End Search.
End DependencyFacts.

Module DependencyValidationFacts.
Import DependencyCheck DependencyFacts.

Lemma findTask_Some (tasks : list Task) (u : string) (t : Task) :
  findTask u tasks = Some t -> t ∈ tasks /\ task_id t = u.
Proof.
  induction tasks as [|t' ts IH]; simpl; [done |].
  destruct (String.eqb (task_id t') u) eqn:E.
  - intros [= ->]. apply String.eqb_eq in E. split; [apply elem_of_cons; by left | done].
  - intros H. destruct (IH H). split; [apply elem_of_cons; by right | done].
Qed.

Lemma findTask_NoDup (tasks : list Task) (t : Task) :
  NoDup (map task_id tasks) -> t ∈ tasks -> findTask (task_id t) tasks = Some t.
Proof.
  induction tasks as [|t' ts IH]; intros Hnd Ht; [by apply elem_of_nil in Ht |].
  simpl in *. apply NoDup_cons in Hnd as [Hnotin Hnd].
  apply elem_of_cons in Ht as [-> | Ht]; [by rewrite String.eqb_refl |].
  destruct (String.eqb (task_id t') (task_id t)) eqn:E; [| by apply IH].
  apply String.eqb_eq in E. exfalso. apply Hnotin. rewrite E.
  apply list_elem_of_fmap. by exists t.
Qed.

Lemma dfs_edge_dep_edge (tasks : list Task) (u v : string) :
  NoDup (map task_id tasks) -> dfs_edge tasks u v <-> dep_edge tasks u v.
Proof.
  intros Hnd. unfold dfs_edge, dep_edge, taskIdSet. split.
  - intros (t & Hfind & Hv & Hid). apply findTask_Some in Hfind as [Ht <-].
    exists t. split_and!; try done. by apply elem_of_list_to_set in Hid.
  - intros (t & Ht & <- & Hv & Hid). exists t. split_and!; try done.
    + by apply findTask_NoDup.
    + by apply elem_of_list_to_set.
Qed.

Lemma invalidDependencies_elem (tasks : list Task) (msg : string) :
  msg ∈ invalidDependencies tasks
  <-> exists t d, t ∈ tasks /\ d ∈ task_dependencies t
                  /\ (dep_taskId d ∉ map task_id tasks)
                  /\ msg = task_id t ++ (" -> " ++ dep_taskId d).
Proof.
  unfold invalidDependencies, invalidDependenciesOf, taskIdSet.
  rewrite list_elem_of_In, in_flat_map. split.
  - intros (t & Ht & Hmsg). apply in_flat_map in Hmsg as (d & Hd & Hmsg).
    destruct (decide _) as [| Hnot]; [done |].
    destruct Hmsg as [<- | []]. exists t, d.
    apply list_elem_of_In in Ht, Hd. split_and!; try done.
    intros Habs. apply Hnot. by apply elem_of_list_to_set.
  - intros (t & d & Ht & Hd & Hnot & ->). exists t.
    apply list_elem_of_In in Ht, Hd. split; [done |].
    apply in_flat_map. exists d. split; [done |].
    destruct (decide _) as [Hin |]; [| by left].
    by apply elem_of_list_to_set in Hin.
Qed.

Lemma dfs_inv_init (tasks : list Task) :
  dfs_inv tasks {| visited := ∅; recursionStack := ∅; cycles := [] |}.
Proof. split; unfold dfs_black; simpl; set_solver. Qed.

(** Validation of a snapshot: it terminates, records a cycle exactly when
    the dependency graph has one, lists exactly the dependencies on unknown
    tasks, and is valid exactly when both lists are empty. *)
Lemma validate_correct (tasks : list Task) :
  NoDup (map task_id tasks) ->
  exists r,
    validate tasks = Some r
    /\ (dv_cycles r <> [] <-> has_cycle tasks)
    /\ (forall msg,
          msg ∈ dv_invalidDependencies r
          <-> exists t d, t ∈ tasks /\ d ∈ task_dependencies t
                          /\ (dep_taskId d ∉ map task_id tasks)
                          /\ msg = task_id t ++ (" -> " ++ dep_taskId d))
    /\ (dv_isValid r = true <-> dv_cycles r = [] /\ dv_invalidDependencies r = []).
Proof.
  intros Hnd. unfold validate.
  set (st0 := {| visited := ∅; recursionStack := ∅; cycles := [] |}).
  set (valid0 := match invalidDependencies tasks with [] => true | _ => false end).
  destruct (checkAll_total tasks (S (length tasks)) tasks ltac:(lia) valid0 st0
              ltac:(done)) as ([b st] & Hrun).
  rewrite Hrun. eexists. split; [reflexivity |]. simpl.
  destruct (checkAll_spec tasks _ _ _ _ _ Hrun eq_refl (dfs_inv_init tasks) eq_refl)
    as [Hdirty Hclean]. simpl in Hdirty, Hclean.
  assert (has_cycle tasks <-> exists u, tc (dfs_edge tasks) u u) as Hcyc.
  { unfold has_cycle. split; intros [u Hu]; exists u;
      (eapply tc_subrel; [| exact Hu]); intros a c; by apply dfs_edge_dep_edge. }
  split_and!.
  - rewrite Hcyc. split; [intros Hc; by destruct (Hdirty Hc) |].
    intros [u Hu] Hc. destruct (Hclean Hc) as (_ & [I1 I2 I3] & Hstk & _ & Hall).
    apply (I3 u); [| done]. unfold dfs_black. rewrite Hstk.
    assert (u ∈ taskIdSet tasks) as Hid.
    { inversion Hu as [? ? He | ? ? ? He _]; subst; by eapply edge_source_id. }
    unfold taskIdSet in Hid. apply elem_of_list_to_set, list_elem_of_fmap in Hid
      as (t & -> & Ht).
    specialize (Hall t Ht). set_solver.
  - intros msg. apply invalidDependencies_elem.
  - destruct (cycles st) as [|c cs] eqn:Hc.
    + destruct (Hclean eq_refl) as (-> & _). unfold valid0.
      destruct (invalidDependencies tasks); split; try done. by intros [_ ?].
    + destruct (Hdirty ltac:(done)) as [-> _]. split; [done | by intros [? _]].
Qed.



(** The cycle scenario: the result is invalid with the single cycle
    B, A, B (the query lists B first). *)
Example validateTaskDependencies_cycle_scenario :
  validateTaskDependencies "orch-1" cycleDir
  = Some {| dv_isValid := false; dv_cycles := [["B"; "A"; "B"]];
            dv_orphanedTasks := []; dv_invalidDependencies := [] |}.
Proof. vm_compute. reflexivity. Qed.


End DependencyValidationFacts.

(** ** Execution order: Kahn's algorithm *)

Module JsMapFacts.

Section Facts.
Context {V : Type}.
Implicit Types (m : JsMap.t V) (k : string) (v : V).

Lemma get_set_eq k v m : JsMap.get k (JsMap.set k v m) = Some v.
Proof.
  induction m as [|[k' v'] m IH]; simpl.
  - by rewrite String.eqb_refl.
  - destruct (String.eqb k' k) eqn:E; simpl; rewrite E; [done | exact IH].
Qed.

Lemma get_set_ne k k' v m : k <> k' -> JsMap.get k' (JsMap.set k v m) = JsMap.get k' m.
Proof.
  intros Hne. induction m as [|[k0 v0] m IH]; simpl.
  - assert (String.eqb k k' = false) as -> by (by apply String.eqb_neq). done.
  - destruct (String.eqb k0 k) eqn:E; simpl.
    + apply String.eqb_eq in E. subst k0.
      assert (String.eqb k k' = false) as -> by (by apply String.eqb_neq). done.
    + destruct (String.eqb k0 k'); [done | exact IH].
Qed.

Lemma get_set k k' v m :
  JsMap.get k' (JsMap.set k v m) = if decide (k = k') then Some v else JsMap.get k' m.
Proof.
  destruct (decide (k = k')) as [-> | Hne]; [apply get_set_eq | by apply get_set_ne].
Qed.

Lemma get_Some_key k v m : JsMap.get k m = Some v -> k ∈ JsMap.keys m.
Proof.
  induction m as [|[k' v'] m IH]; simpl; [done |].
  destruct (String.eqb k' k) eqn:E.
  - apply String.eqb_eq in E. subst. intros _. apply elem_of_cons. by left.
  - intros H. apply elem_of_cons. right. by apply IH.
Qed.

Lemma get_None_key k m : JsMap.get k m = None -> k ∉ JsMap.keys m.
Proof.
  induction m as [|[k' v'] m IH]; simpl; [intros _; apply not_elem_of_nil |].
  destruct (String.eqb k' k) eqn:E; [done |].
  intros H Hin. apply elem_of_cons in Hin as [-> | Hin].
  - by rewrite String.eqb_refl in E.
  - by apply IH.
Qed.

Lemma keys_set_present k v m :
  is_Some (JsMap.get k m) -> JsMap.keys (JsMap.set k v m) = JsMap.keys m.
Proof.
  induction m as [|[k' v'] m IH]; simpl.
  - by intros [? ?].
  - destruct (String.eqb k' k) eqn:E; simpl; [done |].
    intros H. f_equal. by apply IH.
Qed.

Lemma keys_set_absent k v m :
  JsMap.get k m = None -> JsMap.keys (JsMap.set k v m) = (JsMap.keys m ++ [k])%list.
Proof.
  induction m as [|[k' v'] m IH]; simpl; [done |].
  destruct (String.eqb k' k) eqn:E; simpl; [done |].
  intros H. f_equal. by apply IH.
Qed.

Lemma keys_set_NoDup k v m : NoDup (JsMap.keys m) -> NoDup (JsMap.keys (JsMap.set k v m)).
Proof.
  intros Hnd. destruct (JsMap.get k m) as [v'|] eqn:E.
  - by rewrite keys_set_present.
  - rewrite keys_set_absent by done. apply NoDup_app. split_and!; [done | | apply NoDup_singleton].
    intros x Hx Hx'. apply list_elem_of_singleton in Hx'. subst.
    by apply get_None_key in E.
Qed.

Lemma get_lookup_NoDup k v m :
  NoDup (JsMap.keys m) -> (k, v) ∈ m -> JsMap.get k m = Some v.
Proof.
  induction m as [|[k' v'] m IH]; intros Hnd Hin; [by apply elem_of_nil in Hin |].
  simpl in *. apply NoDup_cons in Hnd as [Hnotin Hnd].
  apply elem_of_cons in Hin as [[= -> ->] | Hin]; [by rewrite String.eqb_refl |].
  destruct (String.eqb k' k) eqn:E; [| by apply IH].
  apply String.eqb_eq in E. subst. exfalso. apply Hnotin.
  apply list_elem_of_fmap. by exists (k, v).
Qed.

Lemma get_elem k v m : JsMap.get k m = Some v -> (k, v) ∈ m.
Proof.
  induction m as [|[k' v'] m IH]; simpl; [done |].
  destruct (String.eqb k' k) eqn:E.
  - apply String.eqb_eq in E. subst. intros [= ->]. apply elem_of_cons. by left.
  - intros H. apply elem_of_cons. right. by apply IH.
Qed.

End Facts.
End JsMapFacts.

Module GraphFacts.
Import ExecutionOrder JsMapFacts.

Lemma initialize_fold (ts : list Task) (maps : Maps) (k : string) :
  JsMap.get k (fold_left initStep ts maps).1
    = (if decide (k ∈ map task_id ts) then Some [] else JsMap.get k maps.1)
  /\ JsMap.get k (fold_left initStep ts maps).2
    = (if decide (k ∈ map task_id ts) then Some 0 else JsMap.get k maps.2)
  /\ (NoDup (JsMap.keys maps.2) -> NoDup (JsMap.keys (fold_left initStep ts maps).2)).
Proof.
  revert maps. induction ts as [|t ts IH]; intros maps.
  - cbn [fold_left map]. rewrite !decide_False by apply not_elem_of_nil. done.
  - cbn [fold_left map]. destruct (IH (initStep maps t)) as (H1 & H2 & H3).
    rewrite H1, H2. clear H1 H2. unfold initStep in *. cbn [fst snd] in *. rewrite !get_set.
    assert (k ∈ task_id t :: map task_id ts <-> task_id t = k \/ k ∈ map task_id ts) as Hiff.
    { rewrite elem_of_cons. intuition congruence. }
    split_and!.
    + destruct (decide (k ∈ map task_id ts)), (decide (task_id t = k)),
        (decide (k ∈ task_id t :: map task_id ts)); try done; exfalso; tauto.
    + destruct (decide (k ∈ map task_id ts)), (decide (task_id t = k)),
        (decide (k ∈ task_id t :: map task_id ts)); try done; exfalso; tauto.
    + intros Hnd. apply H3. by apply keys_set_NoDup.
Qed.

Lemma initialize_spec (tasks : list Task) :
  wf_maps (map task_id tasks) (initialize tasks)
  /\ NoDup (JsMap.keys (initialize tasks).2)
  /\ (forall k, k ∈ map task_id tasks ->
        JsMap.get k (initialize tasks).1 = Some []
        /\ JsMap.get k (initialize tasks).2 = Some 0).
Proof.
  unfold initialize, wf_maps. fold initStep. split_and!.
  - intros k. destruct (initialize_fold tasks ([], []) k) as (-> & _ & _).
    destruct (decide _); simpl; split; try done; by intros [? ?].
  - intros k. destruct (initialize_fold tasks ([], []) k) as (_ & -> & _).
    destruct (decide _); simpl; split; try done; by intros [? ?].
  - destruct (initialize_fold tasks ([], []) "") as (_ & _ & H). apply H. simpl. constructor.
  - intros k Hk. destruct (initialize_fold tasks ([], []) k) as (-> & -> & _).
    by rewrite !decide_True.
Qed.

Lemma addEdge_wf (ids : list string) (maps : Maps) (e : string * string) :
  wf_maps ids maps -> e.1 ∈ ids -> e.2 ∈ ids -> wf_maps ids (addEdge maps e).
Proof.
  intros [W1 W2] H1 H2. unfold addEdge. split; intros k; simpl; rewrite get_set.
  - destruct (decide (e.1 = k)) as [<- | Hne]; [| apply W1]. split; [done | by eexists].
  - destruct (decide (e.2 = k)) as [<- | Hne]; [| apply W2]. split; [done | by eexists].
Qed.

(** The effect of recording a list of edges whose endpoints are keys. *)
Lemma addEdge_fold (ids : list string) (es : list (string * string)) :
  forall maps,
    wf_maps ids maps ->
    (forall e, e ∈ es -> e.1 ∈ ids /\ e.2 ∈ ids) ->
    let maps' := fold_left addEdge es maps in
    wf_maps ids maps'
    /\ JsMap.keys maps'.2 = JsMap.keys maps.2
    /\ forall k,
         JsMap.get k maps'.1 = (fun l => l ++ dependentsOf k es)%list <$> JsMap.get k maps.1
         /\ JsMap.get k maps'.2
            = (fun n => n + Z.of_nat (indegree k es)) <$> JsMap.get k maps.2.
Proof.
  induction es as [|e es IH]; intros maps Hwf Hes; simpl.
  - split_and!; [done | done |]. intros k. unfold dependentsOf, indegree. simpl.
    destruct (JsMap.get k maps.1), (JsMap.get k maps.2); simpl;
      rewrite ?app_nil_r, ?Z.add_0_r; done.
  - destruct (Hes e ltac:(apply elem_of_cons; by left)) as [He1 He2].
    assert (wf_maps ids (addEdge maps e)) as Hwf' by (by apply addEdge_wf).
    destruct (IH (addEdge maps e) Hwf') as (Hwf'' & Hkeys & Hget).
    { intros e' He'. apply Hes. apply elem_of_cons. by right. }
    split_and!; [done | |].
    + rewrite Hkeys. unfold addEdge. simpl. apply keys_set_present. by apply (proj2 Hwf).
    + intros k. destruct (Hget k) as [-> ->]. unfold addEdge. simpl.
      rewrite !get_set. unfold dependentsOf, indegree. rewrite !filter_cons. simpl.
      split.
      * destruct (decide (e.1 = k)) as [<- | Hne]; simpl.
        -- destruct (proj2 (proj1 Hwf e.1) He1) as [l ->]. simpl.
           by rewrite <- app_assoc.
        -- done.
      * destruct (decide (e.2 = k)) as [<- | Hne]; simpl.
        -- destruct (proj2 (proj2 Hwf e.2) He2) as [n ->]. simpl. f_equal. lia.
        -- done.
Qed.

Lemma edgesOfTask_elem (ids : list string) (t : Task) (e : string * string) :
  e ∈ edgesOfTask ids t
  <-> e.2 = task_id t /\ e.1 ∈ ids /\ e.1 ∈ map dep_taskId (task_dependencies t).
Proof.
  unfold edgesOfTask. rewrite list_elem_of_In, in_flat_map. split.
  - intros (d & Hd & He). apply list_elem_of_In in Hd. case_bool_decide; [| done].
    destruct He as [<- | []]. simpl. split_and!; try done.
    apply list_elem_of_fmap. by exists d.
  - intros (H2 & Hin & Hdep). apply list_elem_of_fmap in Hdep as (d & Hd1 & Hd).
    exists d. split; [by apply list_elem_of_In |].
    rewrite <- Hd1. rewrite bool_decide_true by done. left. destruct e; simpl in *. congruence.
Qed.

Lemma edgesOf_elem (tasks : list Task) (u v : string) :
  (u, v) ∈ edgesOf tasks
  <-> exists t, t ∈ tasks /\ task_id t = v /\ u ∈ map task_id tasks
                /\ u ∈ map dep_taskId (task_dependencies t).
Proof.
  unfold edgesOf. rewrite list_elem_of_In, in_flat_map. split.
  - intros (t & Ht & He). apply list_elem_of_In in Ht, He.
    apply edgesOfTask_elem in He as (? & ? & ?). simpl in *. by exists t.
  - intros (t & Ht & Hv & Hu & Hdep). exists t. split; [by apply list_elem_of_In |].
    apply list_elem_of_In, edgesOfTask_elem. done.
Qed.

Lemma edgesOf_endpoints (tasks : list Task) (e : string * string) :
  e ∈ edgesOf tasks -> e.1 ∈ map task_id tasks /\ e.2 ∈ map task_id tasks.
Proof.
  destruct e as [u v]. intros He. apply edgesOf_elem in He as (t & Ht & <- & Hu & _).
  split; [done |]. apply list_elem_of_fmap. by exists t.
Qed.

(** The source loop and the edge list agree. *)
Lemma addDependency_fold (ids : list string) (t : Task) (deps : list TaskDependency) :
  forall maps,
    wf_maps ids maps -> task_id t ∈ ids ->
    fold_left (addDependency t) deps maps
    = fold_left addEdge
        (flat_map (fun dependency =>
                     if bool_decide (dep_taskId dependency ∈ ids)
                     then [(dep_taskId dependency, task_id t)] else []) deps) maps.
Proof.
  induction deps as [|d deps IH]; intros maps Hwf Ht; simpl; [done |].
  rewrite fold_left_app. unfold addDependency at 2. unfold JsMap.has.
  case_bool_decide as Hd.
  - destruct (proj2 (proj1 Hwf (dep_taskId d)) Hd) as [l Hl]. rewrite Hl. simpl.
    assert (addEdge maps (dep_taskId d, task_id t)
            = (JsMap.set (dep_taskId d) (l ++ [task_id t])%list maps.1,
               JsMap.set (task_id t) (default 0 (JsMap.get (task_id t) maps.2) + 1) maps.2))
      as Heq by (unfold addEdge; simpl; by rewrite Hl).
    rewrite <- Heq. apply IH; [| done]. by apply addEdge_wf.
  - destruct (JsMap.get (dep_taskId d) maps.1) as [l|] eqn:Hl.
    + exfalso. apply Hd. apply (proj1 Hwf). rewrite Hl. by eexists.
    + simpl. by apply IH.
Qed.

Lemma buildGraph_fold (ids : list string) (ts : list Task) :
  forall maps,
    wf_maps ids maps -> (forall t, t ∈ ts -> task_id t ∈ ids) ->
    buildGraph ts maps = fold_left addEdge (flat_map (edgesOfTask ids) ts) maps.
Proof.
  unfold buildGraph.
  induction ts as [|t ts IH]; intros maps Hwf Hts; simpl; [done |].
  rewrite fold_left_app.
  assert (task_id t ∈ ids) as Ht by (apply Hts, elem_of_cons; by left).
  rewrite (addDependency_fold ids t _ maps Hwf Ht). fold (edgesOfTask ids t).
  apply IH.
  - apply addEdge_fold; [done |]. intros e He. apply edgesOfTask_elem in He as (-> & ? & _). done.
  - intros t' Ht'. apply Hts, elem_of_cons. by right.
Qed.

(** The maps that the sort starts from. *)
Lemma buildGraph_spec (tasks : list Task) :
  let maps := buildGraph tasks (initialize tasks) in
  NoDup (JsMap.keys maps.2)
  /\ (forall k, k ∈ JsMap.keys maps.2 -> k ∈ map task_id tasks)
  /\ forall k, k ∈ map task_id tasks ->
       JsMap.get k maps.1 = Some (dependentsOf k (edgesOf tasks))
       /\ JsMap.get k maps.2 = Some (Z.of_nat (indegree k (edgesOf tasks))).
Proof.
  destruct (initialize_spec tasks) as (Hwf & Hnd & Hinit).
  cbv zeta. rewrite (buildGraph_fold (map task_id tasks)); [| done |].
  2:{ intros t Ht. apply list_elem_of_fmap. by exists t. }
  fold (edgesOf tasks).
  destruct (addEdge_fold (map task_id tasks) (edgesOf tasks) (initialize tasks) Hwf
              (edgesOf_endpoints tasks)) as (Hwf' & Hkeys & Hget).
  split_and!.
  - by rewrite Hkeys.
  - intros k Hk. rewrite Hkeys in Hk. apply (proj2 Hwf).
    destruct (JsMap.get k (initialize tasks).2) eqn:E; [by eexists |].
    by apply get_None_key in E.
  - intros k Hk. destruct (Hget k) as [-> ->]. destruct (Hinit k Hk) as [-> ->].
    simpl. done.
Qed.

End GraphFacts.

Module CountingFacts.

Lemma occurrences_cons_eq (v : string) (l : list string) :
  occurrences v (v :: l) = S (occurrences v l).
Proof. unfold occurrences. by rewrite filter_cons_True. Qed.

Lemma occurrences_cons_ne (v x : string) (l : list string) :
  x <> v -> occurrences v (x :: l) = occurrences v l.
Proof. intros H. unfold occurrences. by rewrite filter_cons_False. Qed.

Lemma occurrences_pos (v : string) (l : list string) :
  v ∈ l <-> (0 < occurrences v l)%nat.
Proof.
  induction l as [|x l IH].
  - split; [intros H; by apply elem_of_nil in H | unfold occurrences; simpl; lia].
  - destruct (decide (x = v)) as [-> | Hne].
    + rewrite occurrences_cons_eq. split; [lia | intros _; apply elem_of_cons; by left].
    + rewrite occurrences_cons_ne by done. rewrite <- IH, elem_of_cons. naive_solver.
Qed.

Section Edges.
Implicit Types (es : list (string * string)) (done : list string) (u v : string).

Lemma occurrences_dependentsOf u v es :
  occurrences v (dependentsOf u es) = length (filter (from_to u v) es).
Proof.
  unfold occurrences, dependentsOf, from_to.
  induction es as [|[a b] es IH]; [done |].
  rewrite !filter_cons. cbn [fst snd].
  destruct (decide (a = u)) as [-> | Hne]; cbn [map snd].
  - rewrite filter_cons. destruct (decide (b = v)) as [-> | Hne'].
    + rewrite decide_True by done. cbn [length]. by rewrite IH.
    + rewrite decide_False by naive_solver. done.
  - rewrite decide_False by naive_solver. done.
Qed.

Lemma pending_nil v es : pending [] v es = indegree v es.
Proof.
  unfold pending, indegree. induction es as [|[a b] es IH]; [done |].
  rewrite !filter_cons. cbn [fst snd]. destruct (decide (b = v)) as [-> | Hne].
  - rewrite decide_True by (split; [done | apply not_elem_of_nil]).
    cbn [length]. by rewrite IH.
  - rewrite decide_False by naive_solver. done.
Qed.

Lemma pending_snoc done u v es :
  u ∉ done ->
  pending done v es
  = (pending (done ++ [u]) v es + length (filter (from_to u v) es))%nat.
Proof.
  intros Hu. unfold pending, from_to. induction es as [|[a b] es IH]; [done |].
  rewrite !filter_cons. cbn [fst snd].
  destruct (decide (b = v)) as [-> | Hne].
  - destruct (decide (a = u)) as [-> | Hne'].
    + rewrite decide_True by done. rewrite decide_False.
      2:{ intros [_ H]. apply H. apply elem_of_app. right. by apply list_elem_of_singleton. }
      rewrite decide_True by done. cbn [length]. rewrite IH. lia.
    + destruct (decide (a ∈ done)) as [Hin | Hnin].
      * rewrite decide_False by naive_solver. rewrite decide_False.
        2:{ intros [_ H]. apply H. apply elem_of_app. by left. }
        rewrite decide_False by naive_solver. exact IH.
      * rewrite decide_True by done. rewrite decide_True.
        2:{ split; [done |]. intros H. apply elem_of_app in H as [H | H]; [done |].
            by apply list_elem_of_singleton in H. }
        rewrite decide_False by naive_solver. cbn [length]. by rewrite IH.
  - rewrite !decide_False by naive_solver. exact IH.
Qed.

Lemma pending_zero done v es a :
  pending done v es = 0%nat -> (a, v) ∈ es -> a ∈ done.
Proof.
  unfold pending. intros H0 Hin.
  destruct (decide (a ∈ done)) as [| Hnin]; [done | exfalso].
  assert ((a, v) ∈ filter (fun e : string * string => e.2 = v /\ e.1 ∉ done) es) as Hf.
  { apply list_elem_of_filter. done. }
  destruct (filter _ es); [by apply elem_of_nil in Hf | discriminate].
Qed.

Lemma pending_nonzero done v es :
  pending done v es <> 0%nat -> exists a, (a, v) ∈ es /\ a ∉ done.
Proof.
  unfold pending. intros H.
  destruct (filter (fun e : string * string => e.2 = v /\ e.1 ∉ done) es) as [|[a b] l] eqn:E;
    [done |].
  assert ((a, b) ∈ filter (fun e : string * string => e.2 = v /\ e.1 ∉ done) es) as Hf.
  { rewrite E. apply elem_of_cons. by left. }
  apply list_elem_of_filter in Hf as [[Hb Ha] Hin]. simpl in *. subst. by exists a.
Qed.

Lemma dependentsOf_elem u v es : v ∈ dependentsOf u es <-> (u, v) ∈ es.
Proof.
  unfold dependentsOf. rewrite list_elem_of_fmap. split.
  - intros ([a b] & -> & H). apply list_elem_of_filter in H as [Ha H]. simpl in *. by subst.
  - intros H. exists (u, v). split; [done |]. by apply list_elem_of_filter.
Qed.

End Edges.

(** The loop over the dependents of the current task: each degree drops by
    the number of occurrences, and exactly the nodes whose degree reaches
    zero are appended to the queue, once each. *)
Lemma relax_fold (D : list string) :
  forall (deg : JsMap.t Z) (q : list string),
    (forall v, v ∈ D ->
        exists k, JsMap.get v deg = Some k /\ Z.of_nat (occurrences v D) <= k) ->
    let st := fold_left ExecutionOrder.relax D (deg, q) in
    (forall v, JsMap.get v st.1
               = (fun k => k - Z.of_nat (occurrences v D)) <$> JsMap.get v deg)
    /\ exists pushed,
         st.2 = (q ++ pushed)%list /\ NoDup pushed
         /\ forall v, v ∈ pushed <-> v ∈ D /\ JsMap.get v st.1 = Some 0.
Proof.
  induction D as [|v0 D IH]; intros deg q Hpre; cbv zeta; cbn [fold_left].
  - split.
    + intros v. unfold occurrences. simpl. destruct (JsMap.get v deg); simpl; f_equal; lia.
    + exists []. rewrite app_nil_r. split_and!; [done | constructor |].
      intros v. split; [intros H | intros [H _]]; by apply elem_of_nil in H.
  - destruct (Hpre v0 ltac:(apply elem_of_cons; by left)) as (k0 & Hk0 & Hle0).
    rewrite occurrences_cons_eq in Hle0.
    set (deg1 := JsMap.set v0 (k0 - 1) deg).
    set (q1 := if k0 - 1 =? 0 then (q ++ [v0])%list else q).
    assert (ExecutionOrder.relax (deg, q) v0 = (deg1, q1)) as ->
      by (unfold ExecutionOrder.relax; cbn [fst snd]; by rewrite Hk0).
    destruct (IH deg1 q1) as (Hget & pushed & Hq & Hnd & Hmem).
    { intros v Hv. unfold deg1. rewrite JsMapFacts.get_set.
      destruct (decide (v0 = v)) as [<- | Hne].
      - eexists. split; [done | lia].
      - destruct (Hpre v ltac:(apply elem_of_cons; by right)) as (k & Hk & Hle).
        rewrite occurrences_cons_ne in Hle by done. eauto. }
    assert (forall v, JsMap.get v (fold_left ExecutionOrder.relax D (deg1, q1)).1
                      = (fun k => k - Z.of_nat (occurrences v (v0 :: D))) <$> JsMap.get v deg)
      as Hget'.
    { intros v. rewrite Hget. unfold deg1. rewrite JsMapFacts.get_set.
      destruct (decide (v0 = v)) as [<- | Hne].
      - rewrite Hk0, occurrences_cons_eq. simpl. f_equal. lia.
      - by rewrite occurrences_cons_ne. }
    split; [exact Hget' |].
    subst q1. destruct (Z.eqb_spec (k0 - 1) 0) as [Hz | Hnz].
    + assert (occurrences v0 D = 0%nat) as Hc0 by lia.
      assert (v0 ∉ D) as Hv0 by (rewrite occurrences_pos; lia).
      exists (v0 :: pushed). split_and!.
      * rewrite Hq. by rewrite <- app_assoc.
      * constructor; [| done]. intros H. apply Hmem in H as [? _]. done.
      * intros v. rewrite !elem_of_cons, Hmem. split.
        -- intros [-> | [? ?]]; [| by auto].
           split; [by left |]. rewrite Hget', Hk0, occurrences_cons_eq, Hc0. simpl.
           f_equal. lia.
        -- intros [[-> | Hv] Hg]; [by left | right; done].
    + exists pushed. split_and!; [done | done |].
      intros v. rewrite Hmem, elem_of_cons. split; [naive_solver |].
      intros [[-> | Hv] Hg]; [| done].
      destruct (decide (v0 ∈ D)) as [| Hv0]; [done | exfalso].
      rewrite Hget', Hk0, occurrences_cons_eq in Hg. simpl in Hg.
      assert (occurrences v0 D = 0%nat) as Hc0.
      { destruct (occurrences v0 D) eqn:E; [done |].
        exfalso. apply Hv0. apply occurrences_pos. lia. }
      rewrite Hc0 in Hg. injection Hg as Hg. lia.
Qed.

End CountingFacts.

Module ExecutionOrderFacts.
Import ExecutionOrder JsMapFacts GraphFacts CountingFacts.

(** A finite non-empty set in which every node has a successor inside the
    set contains a cycle. *)
Lemma closed_set_has_cycle (R : relation string) (S : list string) :
  S <> [] ->
  (forall v, v ∈ S -> exists u, u ∈ S /\ tc R v u) ->
  exists x, tc R x x.
Proof.
  remember (length S) as n eqn:Hn. revert S Hn.
  induction n as [n IH] using lt_wf_ind. intros S Hn Hne Hsucc.
  destruct S as [|v0 S0]; [done |].
  destruct (Hsucc v0 ltac:(apply elem_of_cons; by left)) as (u0 & Hu0 & Htc0).
  destruct (decide (u0 = v0)) as [-> | Hneq]; [by exists v0 |].
  set (S' := filter (fun x => x <> v0) (v0 :: S0)).
  assert (u0 ∈ S') as Hu0' by (by apply list_elem_of_filter).
  apply (IH (length S')) with (S := S').
  - subst n. apply (length_filter_lt _ _ v0); [apply elem_of_cons; by left | naive_solver].
  - done.
  - intros ->. by apply elem_of_nil in Hu0'.
  - intros v Hv. apply list_elem_of_filter in Hv as [Hv0 Hv].
    destruct (Hsucc v Hv) as (u & Hu & Htc).
    destruct (decide (u = v0)) as [-> | Hne'].
    + exists u0. split; [done | by etrans].
    + exists u. split; [by apply list_elem_of_filter | done].
Qed.

Lemma initialQueue_NoDup (deg : JsMap.t Z) :
  NoDup (JsMap.keys deg) -> NoDup (initialQueue deg).
Proof.
  unfold initialQueue, JsMap.keys.
  induction deg as [|[k d] deg IH]; intros Hnd; [constructor |].
  cbn [map fst] in Hnd. apply NoDup_cons in Hnd as [Hk Hnd].
  rewrite filter_cons. cbn [snd].
  destruct (decide (d = 0)); [| by apply IH].
  cbn [map fst]. constructor; [| by apply IH].
  intros H. apply Hk. apply list_elem_of_fmap in H as ([k' d'] & -> & H).
  apply list_elem_of_filter in H as [_ H]. apply list_elem_of_fmap. by exists (k', d').
Qed.

Section Drain.
Variable tasks : list Task.
Local Abbreviation ids := (map task_id tasks).
Local Abbreviation E := (edgesOf tasks).

Lemma drain_step (deg : JsMap.t Z) (u : string) (q done : list string) :
  drain_inv tasks deg (u :: q) done ->
  drain_inv tasks (fold_left relax (dependentsOf u E) (deg, q)).1
    (fold_left relax (dependentsOf u E) (deg, q)).2 (done ++ [u]).
Proof.
  intros [Hnd Hkeys Hdeg Hzero Horder].
  assert (u ∉ done) as Hu.
  { apply NoDup_app in Hnd as (_ & Hdisj & _). intros H. apply (Hdisj u H).
    apply elem_of_cons. by left. }
  assert (forall v, pending done v E
                    = (pending (done ++ [u]) v E + occurrences v (dependentsOf u E))%nat)
    as Hpend.
  { intros v. rewrite occurrences_dependentsOf. by apply pending_snoc. }
  destruct (relax_fold (dependentsOf u E) deg q) as (Hget & pushed & Hq & Hndp & Hmem).
  { intros v Hv. apply dependentsOf_elem in Hv.
    destruct (edgesOf_endpoints tasks _ Hv) as [_ Hvid]. simpl in Hvid.
    eexists. split; [by apply Hdeg |]. specialize (Hpend v). lia. }
  set (st := fold_left relax (dependentsOf u E) (deg, q)) in *.
  assert (forall v, v ∈ ids ->
            JsMap.get v st.1 = Some (Z.of_nat (pending (done ++ [u]) v E))) as Hdeg'.
  { intros v Hv. rewrite Hget, (Hdeg v Hv). simpl. f_equal. specialize (Hpend v). lia. }
  assert (forall v, v ∈ pushed -> v ∈ ids /\ v ∉ (done ++ u :: q)%list) as Hpushed.
  { intros v Hv. apply Hmem in Hv as [Hv _]. apply dependentsOf_elem in Hv.
    destruct (edgesOf_endpoints tasks _ Hv) as [_ Hvid]. simpl in Hvid.
    split; [done |]. intros Hin. apply Hzero in Hin; [| done].
    apply Hu. by eapply pending_zero. }
  assert (((done ++ [u]) ++ st.2)%list = ((done ++ u :: q) ++ pushed)%list) as Heq.
  { rewrite Hq. by rewrite <- !app_assoc. }
  split.
  - rewrite Heq. apply NoDup_app. split_and!; [done | | done].
    intros v Hv Hv'. by apply Hpushed in Hv' as [_ Hv'].
  - intros v Hv. rewrite Heq in Hv. apply elem_of_app in Hv as [Hv | Hv].
    + by apply Hkeys.
    + by apply Hpushed.
  - exact Hdeg'.
  - intros v Hv. rewrite Heq, elem_of_app, (Hzero v Hv).
    specialize (Hpend v). split.
    + intros [H0 | Hp]; [lia |]. apply Hmem in Hp as [_ Hp].
      rewrite (Hdeg' v Hv) in Hp. injection Hp as Hp. lia.
    + intros H0. destruct (decide (pending done v E = 0%nat)); [by left | right].
      apply Hmem. split.
      * apply occurrences_pos. lia.
      * rewrite (Hdeg' v Hv). by rewrite H0.
  - intros a v He Hv. apply elem_of_app in Hv as [Hv | Hv].
    + destruct (Horder a v He Hv) as (l1 & l2 & l3 & ->).
      exists l1, l2, (l3 ++ [u])%list. by simplify_list_eq.
    + apply list_elem_of_singleton in Hv. subst v.
      assert (a ∈ done) as Ha.
      { eapply pending_zero; [| exact He].
        apply Hzero; [| apply elem_of_app; right; apply elem_of_cons; by left].
        apply Hkeys. apply elem_of_app. right. apply elem_of_cons. by left. }
      apply list_elem_of_split in Ha as (l1 & l2 & ->).
      exists l1, l2, []. by simplify_list_eq.
Qed.

Lemma drain_inv_length (deg : JsMap.t Z) (queue done : list string) :
  drain_inv tasks deg queue done -> (length done + length queue <= length tasks)%nat.
Proof.
  intros [Hnd Hkeys _ _ _]. rewrite <- length_app, <- (length_map task_id tasks).
  apply submseteq_length. by apply NoDup_submseteq.
Qed.

Lemma drain_spec (dm : JsMap.t (list string)) (fuel : nat) :
  (forall u, u ∈ ids -> JsMap.get u dm = Some (dependentsOf u E)) ->
  forall deg queue done,
    drain_inv tasks deg queue done ->
    (length tasks < fuel + length done)%nat ->
    exists done' deg',
      drain fuel tasks dm deg queue (resultOf tasks done) = Some (resultOf tasks done')
      /\ drain_inv tasks deg' [] done'.
Proof.
  intros Hdm. induction fuel as [|fuel IH]; intros deg queue done Hinv Hfuel.
  - apply drain_inv_length in Hinv. lia.
  - destruct queue as [|u q]; cbn [drain]; [by exists done, deg |].
    assert (u ∈ ids) as Hu.
    { apply (di_keys _ _ _ _ Hinv). apply elem_of_app. right. apply elem_of_cons. by left. }
    rewrite (Hdm u Hu). cbn [default].
    assert (match DependencyCheck.findTask u tasks with
            | Some currentTask => (resultOf tasks done ++ [currentTask])%list
            | None => resultOf tasks done
            end = resultOf tasks (done ++ [u])) as ->.
    { unfold resultOf. rewrite omap_app. simpl.
      destruct (DependencyCheck.findTask u tasks); simpl; [done | by rewrite app_nil_r]. }
    apply IH; [by apply drain_step |]. rewrite length_app. simpl. lia.
Qed.

Lemma initialQueue_inv :
  let maps := buildGraph tasks (initialize tasks) in
  drain_inv tasks maps.2 (initialQueue maps.2) [].
Proof.
  destruct (buildGraph_spec tasks) as (Hnd & Hkeys & Hget). cbv zeta.
  set (deg := (buildGraph tasks (initialize tasks)).2) in *.
  assert (forall v, v ∈ initialQueue deg <-> (v, 0) ∈ deg) as Hq.
  { intros v. unfold initialQueue. rewrite list_elem_of_fmap. split.
    - intros ([k d] & -> & H). apply list_elem_of_filter in H as [Hd H]. simpl in *. by subst.
    - intros H. exists (v, 0). split; [done |]. by apply list_elem_of_filter. }
  split; simpl.
  - by apply initialQueue_NoDup.
  - intros v Hv. apply Hq in Hv. apply Hkeys. apply list_elem_of_fmap. by exists (v, 0).
  - intros v Hv. rewrite pending_nil. by apply Hget.
  - intros v Hv. rewrite pending_nil, Hq. destruct (Hget v Hv) as [_ Hd]. split.
    + intros H. apply get_lookup_NoDup in H; [| done]. rewrite Hd in H.
      injection H as H. lia.
    + intros H. apply get_elem. by rewrite Hd, H.
  - intros u v _ Hv. by apply elem_of_nil in Hv.
Qed.

End Drain.
End ExecutionOrderFacts.

Module TopologicalOrder.
Import ExecutionOrder JsMapFacts GraphFacts CountingFacts ExecutionOrderFacts.

Lemma findTask_is_Some (tasks : list Task) (id : string) :
  id ∈ map task_id tasks -> exists t, DependencyCheck.findTask id tasks = Some t.
Proof.
  induction tasks as [|t ts IH]; simpl; intros Hin; [by apply elem_of_nil in Hin |].
  destruct (String.eqb (task_id t) id) eqn:E; [by eexists |].
  apply elem_of_cons in Hin as [-> | Hin]; [by rewrite String.eqb_refl in E | by apply IH].
Qed.

Lemma resultOf_ids (tasks : list Task) (done : list string) :
  (forall v, v ∈ done -> v ∈ map task_id tasks) ->
  map task_id (resultOf tasks done) = done.
Proof.
  unfold resultOf. induction done as [|v done IH]; intros Hsub; [done |].
  destruct (findTask_is_Some tasks v) as [t Ht]; [apply Hsub, elem_of_cons; by left |].
  simpl. rewrite Ht. simpl.
  apply DependencyValidationFacts.findTask_Some in Ht as [_ ->].
  f_equal. apply IH. intros v' Hv'. apply Hsub, elem_of_cons. by right.
Qed.

(** The sort terminates, and its result lists the tasks of a duplicate-free
    list [done] of ids in which every recorded edge goes forward and which
    holds exactly the ids with no edge from an id outside of it. *)
Lemma order_spec (tasks : list Task) :
  exists done,
    order tasks = Some (resultOf tasks done)
    /\ NoDup done
    /\ (forall v, v ∈ done -> v ∈ map task_id tasks)
    /\ (forall v, v ∈ map task_id tasks ->
          (v ∈ done <-> pending done v (edgesOf tasks) = 0%nat))
    /\ (forall u v, (u, v) ∈ edgesOf tasks -> v ∈ done -> occurs_before u v done).
Proof.
  unfold order.
  destruct (buildGraph_spec tasks) as (_ & _ & Hget).
  destruct (drain_spec tasks (buildGraph tasks (initialize tasks)).1 (S (length tasks))
              (fun u Hu => proj1 (Hget u Hu)) _ _ [] (initialQueue_inv tasks)
              ltac:(simpl; lia)) as (done & deg' & Hrun & [Hnd Hkeys _ Hzero Horder]).
  exists done. rewrite app_nil_r in Hnd.
  split_and!; [exact Hrun | done | | | done].
  - intros v Hv. apply Hkeys. by rewrite app_nil_r.
  - intros v Hv. rewrite <- (Hzero v Hv). by rewrite app_nil_r.
Qed.

(** On a list of tasks with distinct ids and no dependency cycle, the
    sort returns every task once, each after the tasks it depends on. *)
Lemma order_topological (tasks : list Task) :
  NoDup (map task_id tasks) ->
  ~ has_cycle tasks ->
  exists result,
    order tasks = Some result
    /\ result ≡ₚ tasks
    /\ forall from to,
         dep_edge tasks to from -> occurs_before from to (map task_id result).
Proof.
  intros Hnd Hacyc.
  destruct (order_spec tasks) as (done & Hrun & Hnd' & Hsub & Hzero & Horder).
  assert (forall v, v ∈ map task_id tasks -> v ∈ done) as Hall.
  { intros v Hv. destruct (decide (v ∈ done)) as [| Hnot]; [done | exfalso].
    apply Hacyc.
    apply (closed_set_has_cycle (dep_edge tasks)
             (filter (fun x => x ∉ done) (map task_id tasks))).
    - intros Hnil. assert (v ∈ filter (fun x => x ∉ done) (map task_id tasks)) as Hin
        by (by apply list_elem_of_filter).
      rewrite Hnil in Hin. by apply elem_of_nil in Hin.
    - intros w Hw. apply list_elem_of_filter in Hw as [Hw Hwid].
      destruct (pending_nonzero done w (edgesOf tasks)) as (a & Ha & Hanot).
      { intros H0. apply Hw. by apply Hzero. }
      pose proof (edgesOf_endpoints tasks _ Ha) as [Haid _]. simpl in Haid.
      exists a. split; [by apply list_elem_of_filter |].
      apply tc_once. apply edgesOf_elem in Ha as (t & Ht & Htid & _ & Hdep).
      exists t. done. }
  pose proof (resultOf_ids tasks done Hsub) as Hids.
  exists (resultOf tasks done). split_and!; [done | |].
  - apply NoDup_Permutation.
    + apply (NoDup_fmap_1 task_id).
      change (NoDup (map task_id (resultOf tasks done))). by rewrite Hids.
    + by apply (NoDup_fmap_1 task_id).
    + intros t. unfold resultOf. rewrite list_elem_of_omap. split.
      * intros (id & _ & Hfind). by apply DependencyValidationFacts.findTask_Some in Hfind as [? _].
      * intros Ht. exists (task_id t). split.
        -- apply Hall. apply list_elem_of_fmap. by exists t.
        -- by apply DependencyValidationFacts.findTask_NoDup.
  - intros from to (t & Ht & Htid & Hdep & Hfrom). rewrite Hids.
    apply Horder.
    + apply edgesOf_elem. by exists t.
    + apply Hall. rewrite <- Htid. apply list_elem_of_fmap. by exists t.
Qed.

(** C8, amended.  For a non-empty orchestration id whose stored tasks have
    distinct ids and no directed dependency cycle, [getTaskExecutionOrder]
    returns a list that holds every stored task of the orchestration
    exactly once, and no other task, and in which, for every dependency
    edge from -> to between tasks of the orchestration (task [to] lists
    [from] as a dependency), [from] occurs before [to]. *)
Theorem getTaskExecutionOrder_topological (orchestrationId : string) (dir : TaskDir) :
  let tasks := tasks_of_orchestration orchestrationId dir in
  orchestrationId <> "" ->
  NoDup (map task_id tasks) ->
  ~ has_cycle tasks ->
  exists result,
    getTaskExecutionOrder orchestrationId dir = Some result
    /\ result ≡ₚ tasks
    /\ forall from to,
         dep_edge tasks to from -> occurs_before from to (map task_id result).
Proof.
  intros tasks Hid Hnd Hacyc.
  pose proof (OrchestrationFacts.queryTasks_orchestration orchestrationId dir Hid) as Hp.
  fold tasks in Hp. unfold getTaskExecutionOrder.
  set (queried := TaskManifest.queryTasks _ _) in *.
  destruct (order_topological queried) as (result & Hrun & Hperm & Horder).
  { by apply (OrchestrationFacts.NoDup_ids_members _ _ Hp). }
  { intros Hc. by apply Hacyc, (OrchestrationFacts.has_cycle_members _ _ Hp). }
  exists result. split_and!; [done | by rewrite Hperm |].
  intros from to Hedge. apply Horder.
  eapply OrchestrationFacts.dep_edge_members; [symmetry; exact Hp | exact Hedge].
Qed.

(** C8, counterexample.  With the empty id the query selects every stored
    task.  The orchestration with the empty id holds the single task X,
    whose dependency Y belongs to orch-1: its tasks have distinct ids and
    no dependency cycle among them.  The sort runs over the tasks of
    orch-1 as well, where Y and Z form a cycle, and the result is empty: X
    does not appear in it. *)
Lemma getTaskExecutionOrder_empty_id_omits_task :
  tasks_of_orchestration "" strayDir
  = [mkTask "X" "" TaskStatus.NOT_STARTED TaskPriority.MEDIUM [dependsOn "Y"] 1]
  /\ NoDup (map task_id (tasks_of_orchestration "" strayDir))
  /\ ~ has_cycle (tasks_of_orchestration "" strayDir)
  /\ getTaskExecutionOrder "" strayDir = Some [].
Proof.
  split_and!; [reflexivity | | | vm_compute; reflexivity].
  - vm_compute. repeat constructor; set_solver.
  - assert (forall u v, ~ dep_edge (tasks_of_orchestration "" strayDir) u v) as Hnone.
    { intros u v (t & Ht & _ & Hdep & Hv). cbn in Ht, Hv.
      apply list_elem_of_singleton in Ht, Hv. subst t v. cbn in Hdep.
      apply list_elem_of_singleton in Hdep. discriminate. }
    intros [u Hu]. inversion Hu as [? ? H | ? ? ? H _]; by apply Hnone in H.
Qed.

(** The hypotheses of [getTaskExecutionOrder_topological] hold in the
    three-task scenario, where the order is A, B, C. *)
Lemma getTaskExecutionOrder_topological_witness :
  let tasks := tasks_of_orchestration "orch-1" (scenarioDir "orch-1" 1 2 3) in
  "orch-1" <> ""
  /\ NoDup (map task_id tasks)
  /\ ~ has_cycle tasks
  /\ exists result,
       getTaskExecutionOrder "orch-1" (scenarioDir "orch-1" 1 2 3) = Some result
       /\ result ≡ₚ tasks
       /\ forall from to,
            dep_edge tasks to from -> occurs_before from to (map task_id result).
Proof.
  cbv zeta.
  assert ("orch-1" <> "") as Hid by discriminate.
  assert (NoDup (map task_id (tasks_of_orchestration "orch-1" (scenarioDir "orch-1" 1 2 3))))
    as Hnd.
  { vm_compute. repeat constructor; set_solver. }
  assert (~ has_cycle (tasks_of_orchestration "orch-1" (scenarioDir "orch-1" 1 2 3)))
    as Hacyc.
  { destruct (DependencyValidationFacts.validate_correct _ Hnd) as (r & Hr & Hcyc & _).
    vm_compute in Hr. injection Hr as <-. simpl in Hcyc. intros H. by apply Hcyc in H. }
  split; [exact Hid |]. split; [exact Hnd | split; [exact Hacyc |]].
  exact (getTaskExecutionOrder_topological "orch-1" (scenarioDir "orch-1" 1 2 3)
           Hid Hnd Hacyc).
Defined.

End TopologicalOrder.

(** ** Saving a session: validation before any write *)

Module SaveFacts.

Lemma read_write_eq (name : string) (c : FileData) (d : Directory) :
  Dir.read name (Dir.write name c d) = Some c.
Proof.
  induction d as [|[n c'] d IH]; simpl.
  - by rewrite String.eqb_refl.
  - destruct (String.eqb n name) eqn:E; simpl; rewrite E; [done | exact IH].
Qed.

Lemma read_write_ne (name name' : string) (c : FileData) (d : Directory) :
  name <> name' -> Dir.read name' (Dir.write name c d) = Dir.read name' d.
Proof.
  intros Hne. induction d as [|[n c'] d IH]; simpl.
  - assert (String.eqb name name' = false) as -> by (by apply String.eqb_neq). done.
  - destruct (String.eqb n name) eqn:E; simpl.
    + apply String.eqb_eq in E. subst n.
      assert (String.eqb name name' = false) as -> by (by apply String.eqb_neq). done.
    + destruct (String.eqb n name'); [done | exact IH].
Qed.

Lemma validateSession_result (Date_parse : string -> JsDate) (data : JsValue) :
  (sv_isValid (validateSession Date_parse data) = false
   /\ sv_session (validateSession Date_parse data) = None)
  \/ (sv_isValid (validateSession Date_parse data) = true
      /\ exists validated,
           sv_session (validateSession Date_parse data) = Some validated
           /\ sv_errors (validateSession Date_parse data) = []).
Proof.
  unfold validateSession. destruct (SessionSchema Date_parse data); [left | right]; simpl; eauto.
Qed.

(** The shape checks of [validateSession]: a missing required field, a
    value outside an enumeration and a non-array where an array is required
    are each reported under the path of the field. *)
Example validateSession_rejects_bad_shapes :
  let good :=
    [("id", VStr "session-1"); ("type", VStr "task"); ("state", VStr "active");
     ("orchestrationId", VStr "orch-1"); ("timestamp", VDate (Some 1));
     ("lastActivityAt", VDate (Some 1))] in
  sv_isValid (validateSession noDateParse (VObj good)) = true
  /\ sv_errors (validateSession noDateParse (VObj (prop_set "id" VUndefined good))) = ["id"]
  /\ sv_errors (validateSession noDateParse (VObj (prop_set "state" (VStr "paused") good)))
     = ["state"]
  /\ sv_errors (validateSession noDateParse
                  (VObj (good ++ [("childSessionIds", VStr "c1")])%list))
     = ["childSessionIds"]
  /\ sv_errors (validateSession noDateParse
                  (VObj (good ++ [("context", VObj [("messages", VNull)])])%list))
     = ["context.messages"].
Proof. cbv zeta. repeat split; reflexivity. Qed.

(** C7, counterexample.  A record without orchestration id fails
    validation; the error that [saveSession] throws is a [StorageError],
    not a [ValidationError]. *)
Lemma saveSession_invalid_throws_StorageError :
  let fs := {| fs_sessions := []; fs_backups := [] |} in
  let bad := toJSON (sampleSession "session-1" "" None 1) in
  (StateManager.saveSession noDateParse sampleConfig "stamp" bad fs).1
  = Some (StorageError "Session validation failed: orchestrationId")
  /\ forall message,
       (StateManager.saveSession noDateParse sampleConfig "stamp" bad fs).1
       <> Some (ValidationError message).
Proof. cbv zeta. split; [reflexivity | intros message; discriminate]. Qed.

(** C7, amended.  [saveSession] validates the record before anything else.
    When validation fails it throws a [StorageError] whose message starts
    with "Session validation failed" and leaves the file system, data files
    and backups alike, as it was.  When validation succeeds it does not
    fail and the data file of the record holds the validated record. *)
Theorem saveSession_validates_before_writing (Date_parse : string -> JsDate)
    (config : StorageConfig) (stamp : string) (session : JsValue) (fs : FileSystem) :
  (sv_isValid (validateSession Date_parse session) = false ->
     StateManager.saveSession Date_parse config stamp session fs
     = (Some (StorageError ("Session validation failed: "
                            ++ String.concat ", "
                                 (sv_errors (validateSession Date_parse session)))),
        fs))
  /\ (sv_isValid (validateSession Date_parse session) = true ->
        exists validated fs',
          sv_session (validateSession Date_parse session) = Some validated
          /\ StateManager.saveSession Date_parse config stamp session fs = (None, fs')
          /\ Dir.read (as_string (get_prop "id" session)) (fs_sessions fs')
             = Some (Parsed validated)).
Proof.
  unfold StateManager.saveSession.
  destruct (validateSession_result Date_parse session)
    as [[Hv Hs] | (Hv & validated & Hs & _)]; rewrite Hv, Hs; split; try done.
  intros _. eexists _, _. split_and!; [done | done |]. simpl. apply read_write_eq.
Qed.

(** An invalid record exists: the hypothesis of the first part is
    satisfiable, and nothing is written for it. *)
Lemma saveSession_validates_before_writing_witness :
  let fs := {| fs_sessions := []; fs_backups := [] |} in
  let bad := toJSON (sampleSession "session-1" "" None 1) in
  sv_isValid (validateSession noDateParse bad) = false
  /\ (StateManager.saveSession noDateParse sampleConfig "stamp" bad fs).2 = fs.
Proof.
  cbv zeta. split; [reflexivity |].
  rewrite (proj1 (saveSession_validates_before_writing noDateParse sampleConfig "stamp"
                    (toJSON (sampleSession "session-1" "" None 1))
                    {| fs_sessions := []; fs_backups := [] |}) eq_refl).
  reflexivity.
Defined.

End SaveFacts.

(** ** Sessions on disk *)

Module SchemaFacts.

Lemma object_ok (shape : list (string * Parser)) (props : list (string * JsValue))
    (vals : list JsValue) :
  Forall2 (fun (kp : string * Parser) v => kp.2 (prop_get kp.1 props) = inr v) shape vals ->
  Zod.object shape (VObj props) = inr (VObj (zip (map fst shape) vals)).
Proof.
  intros H. unfold Zod.object.
  set (results := map (fun kp : string * Parser => (kp.1, kp.2 (prop_get kp.1 props))) shape).
  assert (results = zip (map fst shape) (map inr vals)) as ->.
  { unfold results. induction H as [|[k p] v shape vals Hkv _ IH]; simpl; [done |].
    simpl in Hkv. by rewrite Hkv, IH. }
  assert (forall (ks : list string),
            flat_map (fun kr : string * (list string + JsValue) =>
                        match kr.2 with
                        | inl es => map (Zod.path kr.1) es
                        | inr _ => []
                        end) (zip ks (map inr vals)) = []
            /\ flat_map (fun kr : string * (list string + JsValue) =>
                           match kr.2 with
                           | inr x => [(kr.1, x)]
                           | inl _ => []
                           end) (zip ks (map inr vals)) = zip ks vals) as Hflat.
  { clear. induction vals as [|v vals IH]; intros [|k ks]; simpl; try done.
    destruct (IH ks) as [-> ->]. done. }
  destruct (Hflat (map fst shape)) as [-> ->]. done.
Qed.

Lemma optional_str (o : option string) :
  Zod.optional (Zod.str false) (ostr_value o) = inr (ostr_value o).
Proof. by destruct o. Qed.

Lemma optional_record (o : option (list (string * JsValue))) :
  Zod.optional Zod.record (orecord_value o) = inr (orecord_value o).
Proof. by destruct o. Qed.

Lemma optional_any (v : JsValue) : Zod.optional Zod.any v = inr v.
Proof. by destruct v. Qed.

Lemma forallb_is_string (l : list string) : forallb Zod.is_string (map VStr l) = true.
Proof. induction l; simpl; auto. Qed.

Lemma array_of_strings (l : list string) :
  Zod.withDefault (VArr []) Zod.arrayOfString (VArr (map VStr l)) = inr (VArr (map VStr l)).
Proof. simpl. by rewrite forallb_is_string. Qed.

Lemma as_strings_map (l : list string) : as_strings (VArr (map VStr l)) = l.
Proof. unfold as_strings. simpl. induction l; simpl; congruence. Qed.

Lemma as_ostring_value (o : option string) : as_ostring (ostr_value o) = o.
Proof. by destruct o. Qed.

Lemma as_orecord_value (o : option (list (string * JsValue))) :
  as_orecord (orecord_value o) = o.
Proof. by destruct o. Qed.

Lemma context_ok (ctx : SessionContext) :
  ContextSchema (context_value ctx) = inr (context_value ctx).
Proof.
  unfold ContextSchema, context_value, Zod.withDefault.
  rewrite (object_ok _ _ [VArr (ctx_messages ctx); VArr (ctx_artifacts ctx);
                          VArr (ctx_decisions ctx); ostr_value (ctx_currentFocus ctx);
                          ctx_sequentialThinking ctx; orecord_value (ctx_variables ctx)]);
    [done |].
  repeat constructor; cbn [fst snd prop_get String.eqb Ascii.eqb Bool.eqb];
    auto using optional_str, optional_record, optional_any.
Qed.

Lemma metadata_ok (md : SessionMetadata) :
  MetadataSchema (metadata_value md) = inr (metadata_value md).
Proof.
  unfold MetadataSchema, metadata_value, Zod.optional at 1.
  rewrite (object_ok _ _ [ostr_value (md_name md); ostr_value (md_description md);
                          VArr (map VStr (md_tags md));
                          orecord_value (md_userMetadata md)]); [done |].
  repeat constructor; cbn [fst snd prop_get String.eqb Ascii.eqb Bool.eqb];
    auto using optional_str, optional_record, array_of_strings.
Qed.

Section Schema.
Variable Date_parse : string -> JsDate.

Lemma enum_type (t : SessionType.t) :
  Zod.nativeEnum (map SessionType.name SessionType.all) (VStr (SessionType.name t))
  = inr (VStr (SessionType.name t)).
Proof. by destruct t. Qed.

Lemma enum_state (t : SessionState.t) :
  Zod.nativeEnum (map SessionState.name SessionState.all) (VStr (SessionState.name t))
  = inr (VStr (SessionState.name t)).
Proof. by destruct t. Qed.

Lemma fields_ok (s : Session) (props : list (string * JsValue)) :
  valid_session s ->
  prop_get "id" props = VStr (sess_id s) ->
  prop_get "type" props = VStr (SessionType.name (sess_type s)) ->
  prop_get "state" props = VStr (SessionState.name (sess_state s)) ->
  prop_get "orchestrationId" props = VStr (sess_orchestrationId s) ->
  prop_get "timestamp" props = VDate (sess_timestamp s) ->
  prop_get "lastActivityAt" props = VDate (sess_lastActivityAt s) ->
  prop_get "completedAt" props = odate_value (sess_completedAt s) ->
  prop_get "failureReason" props = ostr_value (sess_failureReason s) ->
  prop_get "parentSessionId" props = ostr_value (sess_parentSessionId s) ->
  prop_get "childSessionIds" props = VArr (map VStr (sess_childSessionIds s)) ->
  prop_get "context" props = context_value (sess_context s) ->
  prop_get "metadata" props = match sess_metadata s with
                              | Some md => metadata_value md
                              | None => VUndefined
                              end ->
  SessionSchema Date_parse (VObj props) = inr (docOf s).
Proof.
  intros (Hid & Horch & [t Ht] & [a Ha] & Hc) H1 H2 H3 H4 H5 H6 H7 H8 H9 H10 H11 H12.
  unfold SessionSchema.
  rewrite (object_ok _ _ [VStr (sess_id s); VStr (SessionType.name (sess_type s));
                          VStr (SessionState.name (sess_state s));
                          VStr (sess_orchestrationId s);
                          VDate (sess_timestamp s); VDate (sess_lastActivityAt s);
                          odate_value (sess_completedAt s);
                          ostr_value (sess_failureReason s);
                          ostr_value (sess_parentSessionId s);
                          VArr (map VStr (sess_childSessionIds s));
                          context_value (sess_context s);
                          match sess_metadata s with
                          | Some md => metadata_value md
                          | None => VUndefined
                          end]); [done |].
  repeat constructor; cbn [fst snd].
  - rewrite H1. simpl. by apply String.eqb_neq in Hid as ->.
  - rewrite H2. apply enum_type.
  - rewrite H3. apply enum_state.
  - rewrite H4. simpl. by apply String.eqb_neq in Horch as ->.
  - rewrite H5, Ht. done.
  - rewrite H6, Ha. done.
  - rewrite H7. destruct (sess_completedAt s) as [[c|]|]; done.
  - rewrite H8. apply optional_str.
  - rewrite H9. apply optional_str.
  - rewrite H10. apply array_of_strings.
  - rewrite H11. apply context_ok.
  - rewrite H12. destruct (sess_metadata s); [apply metadata_ok | done].
Qed.

(** Validating the JSON form of a valid session object gives its record. *)
Lemma schema_toJSON (s : Session) :
  valid_session s -> SessionSchema Date_parse (toJSON s) = inr (docOf s).
Proof. intros Hv. unfold toJSON. by apply fields_ok. Qed.


Lemma as_sessionType_name (t : SessionType.t) :
  as_sessionType (VStr (SessionType.name t)) = t.
Proof. by destruct t. Qed.

Lemma as_sessionState_name (t : SessionState.t) :
  as_sessionState (VStr (SessionState.name t)) = t.
Proof. by destruct t. Qed.


End Schema.
End SchemaFacts.

(** ** Parent and child sessions *)

Module ParentChildFacts.

Import SaveFacts SchemaFacts.



Lemma createBackup_sessions (config : StorageConfig) (stamp id : string) (fs : FileSystem) :
  fs_sessions (StateManager.createBackup config stamp id fs) = fs_sessions fs.
Proof.
  unfold StateManager.createBackup.
  destruct (enableBackups config); [| done]. by destruct (Dir.read id (fs_sessions fs)).
Qed.




Section Store.
Variable Date_parse : string -> JsDate.
Variable config : StorageConfig.

(** Saving a valid session object succeeds and writes its record. *)
Lemma saveSession_valid (stamp : string) (s : Session) (fs : FileSystem) :
  valid_session s ->
  exists fs',
    StateManager.saveSession Date_parse config stamp (toJSON s) fs = (None, fs')
    /\ fs_sessions fs' = Dir.write (sess_id s) (Parsed (docOf s)) (fs_sessions fs).
Proof.
  intros Hv. unfold StateManager.saveSession, validateSession.
  rewrite (schema_toJSON Date_parse s Hv). cbn [sv_session].
  eexists. split; [reflexivity |]. cbn [fs_sessions].
  change (as_string (get_prop "id" (toJSON s))) with (sess_id s).
  destruct (enableBackups config); [| done]. by rewrite createBackup_sessions.
Qed.






End Store.


(** A registry that has not loaded the stored sessions: P exists in storage
    only.  C is created with [parentSessionId = "P"], but the record of P is
    not touched and P lists no child. *)
Example createSession_parent_in_storage_only :
  exists (p : Session) (reg' : Registry),
    SessionRegistry.getSession noDateParse "P" restartedRegistry = (inr (Some p), reg')
    /\ sess_childSessionIds p = []
    /\ (sess_parentSessionId <$> reg_sessions restartedRegistry !! "C") = Some (Some "P").
Proof.
  eexists _, _. split; [vm_compute; reflexivity |]. split_and!; vm_compute; reflexivity.
Qed.


End ParentChildFacts.

(** ** Deleting a session *)

Module DeletionFacts.

(** A parent with a single child: the child is deleted with it. *)
Example deleteSession_single_child :
  let reg := create "c1" "orch-1" (Some "P") 2 (create "P" "orch-1" None 1 emptyRegistry) in
  exists reg',
    SessionDeletion.deleteSession noDateParse sampleConfig sampleClock 3 "P" reg
    = Some (inr true, reg')
    /\ reg_sessions reg' = ∅
    /\ fs_sessions (reg_fs reg') = [].
Proof. cbv zeta. eexists. split; [vm_compute; reflexivity |]. split; vm_compute; reflexivity. Qed.

(** C9.  P lists the children c1 and c2.  Deleting c1 from within the loop
    over [P.childSessionIds] removes c1 from that very array, so the loop
    ends after one turn: [deleteSession("P")] returns [true] while c2 is
    still in the map and in storage.  And for an id that names no session
    the removal of the file fails, so the call throws a [StorageError]
    instead of returning [true]. *)
Theorem deleteSession_leaves_second_child :
  (sess_childSessionIds <$> reg_sessions familyRegistry !! "P") = Some ["c1"; "c2"]
  /\ map fst (fs_sessions (reg_fs familyRegistry)) = ["P"; "c1"; "c2"]
  /\ (exists reg',
        SessionDeletion.deleteSession noDateParse sampleConfig sampleClock 3 "P" familyRegistry
        = Some (inr true, reg')
        /\ map fst (map_to_list (reg_sessions reg')) = ["c2"]
        /\ map fst (fs_sessions (reg_fs reg')) = ["c2"])
  /\ (exists reg',
        SessionDeletion.deleteSession noDateParse sampleConfig sampleClock 3 "nope"
          familyRegistry
        = Some (inl (StorageError "Failed to delete session nope"), reg')).
Proof.
  split_and!.
  - vm_compute. reflexivity.
  - vm_compute. reflexivity.
  - eexists. split; [vm_compute; reflexivity |]. split; vm_compute; reflexivity.
  - eexists. vm_compute. reflexivity.
Qed.

End DeletionFacts.

(** ** Recovery of a task manifest file *)

Module RecoveryFacts.

Lemma prop_get_set_eq (k : string) (v : JsValue) (props : list (string * JsValue)) :
  prop_get k (prop_set k v props) = v.
Proof.
  induction props as [|[k' v'] props IH]; simpl.
  - by rewrite String.eqb_refl.
  - destruct (String.eqb k' k) eqn:E; simpl; rewrite E; [done | exact IH].
Qed.

Lemma prop_get_set_ne (k k' : string) (v : JsValue) (props : list (string * JsValue)) :
  k <> k' -> prop_get k' (prop_set k v props) = prop_get k' props.
Proof.
  intros Hne. induction props as [|[k0 v0] props IH]; simpl.
  - assert (String.eqb k k' = false) as -> by (by apply String.eqb_neq). done.
  - destruct (String.eqb k0 k) eqn:E; simpl.
    + apply String.eqb_eq in E. subst k0.
      assert (String.eqb k k' = false) as -> by (by apply String.eqb_neq). done.
    + destruct (String.eqb k0 k'); [done | exact IH].
Qed.



Section Recovery.
Variable Date_parse : string -> JsDate.
Variable clock : Clock.

Local Abbreviation ensureGenerated := (RecoveryUtils.ensureGenerated clock).
Local Abbreviation recoverDate := (RecoveryUtils.recoverDate Date_parse clock).
Local Abbreviation recoverTaskData := (RecoveryUtils.recoverTaskData Date_parse clock).
Local Abbreviation recoverTasks := (RecoveryUtils.recoverTasks Date_parse clock).
Local Abbreviation recoverTaskManifestData :=
  (RecoveryUtils.recoverTaskManifestData Date_parse clock).
Local Abbreviation recoverTaskManifestFile :=
  (RecoveryUtils.recoverTaskManifestFile Date_parse clock).

(** Each repair step leaves the other fields alone. *)
Lemma ensure_other (field k : string) (value : JsValue) (r : list (string * JsValue)) :
  field <> k -> prop_get k (RecoveryUtils.ensure field value r) = prop_get k r.
Proof.
  intros Hne. unfold RecoveryUtils.ensure.
  destruct (negb _); [by apply prop_get_set_ne | done].
Qed.

Lemma ensureEnum_other (field k : string) (values : list string) (value : string)
    (r : list (string * JsValue)) :
  field <> k -> prop_get k (RecoveryUtils.ensureEnum field values value r) = prop_get k r.
Proof.
  intros Hne. unfold RecoveryUtils.ensureEnum.
  destruct (_ || _); [by apply prop_get_set_ne | done].
Qed.

Lemma ensureArray_other (field k : string) (r : list (string * JsValue)) :
  field <> k -> prop_get k (RecoveryUtils.ensureArray field r) = prop_get k r.
Proof.
  intros Hne. unfold RecoveryUtils.ensureArray.
  destruct (negb _); [by apply prop_get_set_ne | done].
Qed.

Lemma ensureProgress_other (k : string) (r : list (string * JsValue)) :
  "progress" <> k -> prop_get k (RecoveryUtils.ensureProgress r) = prop_get k r.
Proof.
  intros Hne. unfold RecoveryUtils.ensureProgress.
  set (r1 := if _ || _ then _ else r).
  assert (prop_get k r1 = prop_get k r) as H1.
  { unfold r1. destruct (_ || _); [by apply prop_get_set_ne | done]. }
  destruct (prop_get "progress" r1); try done.
  destruct (negb (typeof_number _)); [by rewrite prop_get_set_ne | done].
Qed.

Lemma ensureGenerated_other (field prefix k : string) (st : list (string * JsValue) * nat) :
  field <> k -> prop_get k (ensureGenerated field prefix st).1 = prop_get k st.1.
Proof.
  intros Hne. destruct st as [r tick]. unfold RecoveryUtils.ensureGenerated.
  destruct (negb _); [by apply prop_get_set_ne | done].
Qed.

Lemma recoverDate_other (field k : string) (st : list (string * JsValue) * nat) :
  field <> k -> prop_get k (recoverDate field st).1 = prop_get k st.1.
Proof.
  intros Hne. destruct st as [r tick]. unfold RecoveryUtils.recoverDate.
  destruct (negb _); [by apply prop_get_set_ne |].
  destruct (prop_get field r); try done. by apply prop_get_set_ne.
Qed.

Lemma ensureGenerated_field (field prefix : string) (r : list (string * JsValue))
    (tick : nat) :
  prop_get field (ensureGenerated field prefix (r, tick)).1
  = if truthy (prop_get field r) then prop_get field r
    else VStr (prefix ++ "-" ++ decimal (time_at clock tick) ++ "-recovered").
Proof.
  unfold RecoveryUtils.ensureGenerated.
  destruct (truthy (prop_get field r)); simpl; [done | apply prop_get_set_eq].
Qed.


Ltac peel :=
  repeat (first [ rewrite recoverDate_other by discriminate
                | rewrite ensureProgress_other by discriminate
                | rewrite ensureArray_other by discriminate
                | rewrite ensureEnum_other by discriminate
                | rewrite ensure_other by discriminate
                | rewrite ensureGenerated_other by discriminate ];
          cbn [fst snd]).









End Recovery.


(** A truncated file need not fail: a task document that lost its last
    brace does not parse, but the removal of what looks like a block
    comment leaves a text that parses, and the recovery succeeds and writes
    a manifest back. *)
Example recoverTaskManifestFile_truncated_repaired :
  JSON.parse truncatedRepairable = None
  /\ JSON.parse (RecoveryUtils.fixCommonJsonIssues truncatedRepairable)
     = Some (VObj [("id", VStr "task-1 ")])
  /\ RecoveryUtils.recoverTaskManifestFile noDateParse sampleClock (BackupAt "backup")
       truncatedRepairable 0
     = ({| rr_success := true;
           rr_message := "Task manifest file successfully recovered";
           rr_recoveredData :=
             Some (VObj [("id", VStr "task-1 "); ("tasks", VArr []); ("plans", VArr [])]);
           rr_backupCreated := Some "backup";
           rr_errors := None |},
        Some (VObj [("id", VStr "task-1 "); ("tasks", VArr []); ("plans", VArr [])])).
Proof. split_and!; vm_compute; reflexivity. Qed.


End RecoveryFacts.

(** ** The task store: updates and queries *)

Module TaskStoreFacts.

Lemma loadTask_writeTaskFile_ne (f f' : string) (t : Task) (dir : TaskDir) :
  f <> f' ->
  TaskManifest.loadTask f' (TaskManifest.writeTaskFile f t dir) = TaskManifest.loadTask f' dir.
Proof.
  intros Hne. induction dir as [|[g u] dir IH]; simpl.
  - assert (String.eqb f f' = false) as -> by (by apply String.eqb_neq). done.
  - destruct (String.eqb g f) eqn:E; simpl.
    + apply String.eqb_eq in E. subst g.
      assert (String.eqb f f' = false) as -> by (by apply String.eqb_neq). done.
    + destruct (String.eqb g f'); [done | exact IH].
Qed.

Lemma loadTask_writeTaskFile_same (f : string) (t : Task) (dir : TaskDir) :
  TaskManifest.loadTask f (TaskManifest.writeTaskFile f t dir) = Some t.
Proof.
  induction dir as [|[g u] dir IH]; simpl.
  - by rewrite String.eqb_refl.
  - destruct (String.eqb g f) eqn:E; simpl; rewrite E; [done | exact IH].
Qed.

Lemma writeTaskFile_names (f : string) (t : Task) (dir : TaskDir) :
  is_Some (TaskManifest.loadTask f dir) ->
  map fst (TaskManifest.writeTaskFile f t dir) = map fst dir.
Proof.
  induction dir as [|[g u] dir IH]; simpl; [by intros [? ?] |].
  destruct (String.eqb g f) eqn:E; simpl; [done |]. intros H. by rewrite IH.
Qed.

Lemma loadTask_elem (f : string) (t : Task) (dir : TaskDir) :
  TaskManifest.loadTask f dir = Some t -> (f, t) ∈ dir.
Proof.
  induction dir as [|[g u] dir IH]; simpl; [done |].
  destruct (String.eqb_spec g f) as [-> | Hne].
  - intros [= ->]. left.
  - intros H. right. auto.
Qed.

(** X1.  [updateTask] of a task that is stored under its own id
    rewrites that file only: the updated task is what [loadTask] then
    returns for the id, every other task loads as before, no file is added
    or removed, the id, orchestration, parent and creation time are kept
    and [updatedAt] is the clock reading.  For an id with no file the result
    is [null] and the directory is left as it was. *)
Theorem updateTask_rewrites_one_file (now : Z) (taskId : string)
    (params : UpdateTaskParams) (dir : TaskDir) :
  match TaskManifest.loadTask taskId dir with
  | None => TaskManifest.updateTask now taskId params dir = (None, dir)
  | Some task =>
      task_id task = taskId ->
      exists updated dir',
        TaskManifest.updateTask now taskId params dir = (Some updated, dir')
        /\ TaskManifest.loadTask taskId dir' = Some updated
        /\ (forall other, other <> taskId ->
              TaskManifest.loadTask other dir' = TaskManifest.loadTask other dir)
        /\ map fst dir' = map fst dir
        /\ task_id updated = taskId
        /\ task_orchestrationId updated = task_orchestrationId task
        /\ task_parentTaskId updated = task_parentTaskId task
        /\ task_createdAt updated = task_createdAt task
        /\ task_updatedAt updated = now
  end.
Proof.
  unfold TaskManifest.updateTask.
  destruct (TaskManifest.loadTask taskId dir) as [task|] eqn:Hload; [| done].
  intros Hid. eexists _, _. split; [reflexivity |].
  unfold TaskManifest.saveTask. cbn [task_id task_orchestrationId task_parentTaskId
                                    task_createdAt task_updatedAt].
  rewrite Hid. split_and!; try done.
  - apply loadTask_writeTaskFile_same.
  - intros other Hne. by apply loadTask_writeTaskFile_ne.
  - apply writeTaskFile_names. by rewrite Hload.
Qed.

Lemma updateTask_rewrites_one_file_witness :
  exists updated dir',
    TaskManifest.updateTask 10 "A" (setStatus TaskStatus.COMPLETED) sampleDir
    = (Some updated, dir')
    /\ TaskManifest.loadTask "A" dir' = Some updated
    /\ (forall other, other <> "A" ->
          TaskManifest.loadTask other dir' = TaskManifest.loadTask other sampleDir)
    /\ map fst dir' = map fst sampleDir
    /\ task_id updated = "A"
    /\ task_orchestrationId updated = "orch-1"
    /\ task_parentTaskId updated = None
    /\ task_createdAt updated = 1
    /\ task_updatedAt updated = 10.
Proof.
  exact (updateTask_rewrites_one_file 10 "A" (setStatus TaskStatus.COMPLETED) sampleDir
           eq_refl).
Defined.

(** X2.  The time stamps that [updateTask] sets: [completedAt] becomes
    the clock reading exactly on an update to completed of a task that was
    not completed, and is otherwise left alone, so a completed task keeps its
    first completion time and a task moved away from completed keeps a
    completion time; [startedAt] becomes the clock reading on every update
    of a not_started task to another status and is otherwise left alone. *)
Theorem updateTask_time_stamps (now : Z) (taskId : string) (params : UpdateTaskParams)
    (dir : TaskDir) (task updated : Task) (dir' : TaskDir) :
  TaskManifest.loadTask taskId dir = Some task ->
  TaskManifest.updateTask now taskId params dir = (Some updated, dir') ->
  (up_status params = Some TaskStatus.COMPLETED ->
   task_status task <> TaskStatus.COMPLETED -> task_completedAt updated = Some now)
  /\ (up_status params <> Some TaskStatus.COMPLETED
      \/ task_status task = TaskStatus.COMPLETED ->
      task_completedAt updated = task_completedAt task)
  /\ (task_status task = TaskStatus.NOT_STARTED ->
      is_Some (up_status params) -> up_status params <> Some TaskStatus.NOT_STARTED ->
      task_startedAt updated = Some now)
  /\ (task_status task <> TaskStatus.NOT_STARTED
      \/ up_status params = None \/ up_status params = Some TaskStatus.NOT_STARTED ->
      task_startedAt updated = task_startedAt task).
Proof.
  intros Hload. unfold TaskManifest.updateTask. rewrite Hload. intros [= <- _].
  cbn [task_completedAt task_startedAt].
  destruct (up_status params) as [[]|], (task_status task) eqn:Est; simpl;
    split_and!; try done; try (intros; done); try (intros [? ?]; done);
    try (intros; exfalso; naive_solver).
Qed.

Lemma updateTask_time_stamps_witness :
  let r := TaskManifest.updateTask 10 "A" (setStatus TaskStatus.COMPLETED) sampleDir in
  exists updated, r.1 = Some updated
    /\ task_completedAt updated = Some 10 /\ task_startedAt updated = Some 10.
Proof.
  cbv zeta. eexists. split; [reflexivity |].
  destruct (updateTask_time_stamps 10 "A" (setStatus TaskStatus.COMPLETED) sampleDir
              (taskA "orch-1" 1) _ _ eq_refl eq_refl) as (Hc & _ & Hs & _).
  split; [by apply Hc | apply Hs; [done | by eexists | done]].
Defined.

End TaskStoreFacts.

(** ** The task store: queries and statistics *)

Module TaskQueryFacts.

Section Sorting.
Context {A : Type} (cmp : A -> A -> Z) (key : A -> Z).
Hypothesis cmp_key : forall a b, cmp a b <= 0 <-> key a <= key b.

Lemma js_sort_insert_sorted (x : A) (l : list A) :
  StronglySorted (fun a b => key a <= key b) l ->
  StronglySorted (fun a b => key a <= key b) (js_sort_insert cmp x l).
Proof.
  induction 1 as [|y l Hl IH Hy]; simpl; [repeat constructor |].
  destruct (Z.leb_spec (cmp x y) 0) as [Hle | Hgt].
  - apply cmp_key in Hle. constructor; [by constructor |].
    constructor; [exact Hle |]. eapply Forall_impl; [exact Hy |]. simpl. intros; lia.
  - constructor; [exact IH |].
    rewrite (NextTaskFacts.js_sort_insert_perm cmp x l). constructor; [| exact Hy].
    destruct (Z.le_gt_cases (key y) (key x)) as [H | H]; [exact H |].
    exfalso. assert (cmp x y <= 0) by (apply cmp_key; lia). lia.
Qed.

Lemma js_sort_sorted (l : list A) :
  StronglySorted (fun a b => key a <= key b) (js_sort cmp l).
Proof.
  induction l as [|x l IH]; simpl; [constructor |]. by apply js_sort_insert_sorted.
Qed.

End Sorting.

Lemma StronglySorted_weaken {A} (R R' : relation A) (l : list A) :
  (forall a b, R a b -> R' a b) -> StronglySorted R l -> StronglySorted R' l.
Proof.
  intros HR. induction 1 as [|x l Hl IH Hx]; constructor; [exact IH |].
  eapply Forall_impl; [exact Hx | by auto].
Qed.

Lemma StronglySorted_take {A} (R : relation A) (n : nat) (l : list A) :
  StronglySorted R l -> StronglySorted R (take n l).
Proof. intros H. rewrite <- (take_drop n l) in H. by apply StronglySorted_app_1_l in H. Qed.

Lemma StronglySorted_drop {A} (R : relation A) (n : nat) (l : list A) :
  StronglySorted R l -> StronglySorted R (drop n l).
Proof. intros H. rewrite <- (take_drop n l) in H. by apply StronglySorted_app_1_r in H. Qed.

(** X3.  What [queryTasks] returns: only stored tasks that match the
    query, newest first, at most [limit] of them when the limit is
    positive; an offset or a limit that is absent or zero is ignored, and
    when both are the result holds every stored task that matches. *)
Theorem queryTasks_result (query : TaskQuery) (dir : TaskDir) :
  let result := TaskManifest.queryTasks query dir in
  (forall t, t ∈ result ->
     t ∈ map snd dir /\ TaskManifest.taskMatchesQuery t query = true)
  /\ StronglySorted newest_first result
  /\ (forall n, q_limit query = Some (S n) -> (length result <= S n)%nat)
  /\ (absent_or_zero (q_offset query) -> absent_or_zero (q_limit query) ->
      result ≡ₚ filter (fun t => TaskManifest.taskMatchesQuery t query = true) (map snd dir)).
Proof.
  cbv zeta. unfold TaskManifest.queryTasks.
  set (matching := filter (fun t => TaskManifest.taskMatchesQuery t query = true)
                     (map snd dir)).
  set (sorted := js_sort (fun a b => task_createdAt b - task_createdAt a) matching).
  assert (StronglySorted newest_first sorted) as Hsorted.
  { pose proof (js_sort_sorted (fun a b : Task => task_createdAt b - task_createdAt a)
                  (fun a => - task_createdAt a) ltac:(intros; lia) matching) as H.
    eapply StronglySorted_weaken; [| exact H].
    unfold newest_first. simpl. intros; lia. }
  assert (forall t, t ∈ sorted ->
            t ∈ map snd dir /\ TaskManifest.taskMatchesQuery t query = true) as Hin.
  { intros t Ht. apply NextTaskFacts.js_sort_elem in Ht.
    apply list_elem_of_filter in Ht. tauto. }
  set (paged := match q_offset query with Some o => drop o sorted | None => sorted end).
  assert (paged `sublist_of` sorted) as Hsub.
  { unfold paged. destruct (q_offset query); [apply sublist_drop | done]. }
  assert (StronglySorted newest_first paged) as Hpaged.
  { unfold paged. destruct (q_offset query); [by apply StronglySorted_drop | done]. }
  split_and!.
  - intros t Ht. apply Hin. eapply elem_of_sublist; [| exact Hsub].
    destruct (q_limit query) as [[|n]|]; try done.
    eapply elem_of_sublist; [exact Ht | apply sublist_take].
  - destruct (q_limit query) as [[|n]|]; try done. by apply StronglySorted_take.
  - intros n ->. apply firstn_le_length.
  - intros [Ho | Ho] [Hl | Hl]; unfold paged; rewrite Ho, Hl; rewrite ?drop_0;
      apply NextTaskFacts.js_sort_perm.
Qed.

Section Counting.
Variable rnd : Q -> Q.

Lemma bump_count {K} (eqb : K -> K -> bool) (proj : Task -> K)
    (step : (K -> Z) -> Task -> K -> Z) (tasks : list Task) :
  (forall f t, step f t = bump eqb (proj t) f) ->
  forall (f : K -> Z) (k : K),
    fold_left step tasks f k
    = f k + Z.of_nat (length (filter (fun t => eqb (proj t) k = true) tasks)).
Proof.
  intros Hstep. induction tasks as [|t tasks IH]; intros f k; simpl; [lia |].
  rewrite IH, Hstep. unfold bump. rewrite filter_cons.
  destruct (decide (eqb (proj t) k = true)) as [-> | Hne]; simpl; [lia |].
  apply not_true_is_false in Hne. rewrite Hne. lia.
Qed.

Lemma fold_statsStep_byStatus (tasks : list Task) (acc : StatsAcc) :
  acc_byStatus (fold_left (statsStep rnd) tasks acc)
  = fold_left (fun f t => bump TaskStatus.eqb (task_status t) f) tasks (acc_byStatus acc).
Proof. revert acc. induction tasks as [|t tasks IH]; intros acc; simpl; [done |]. by rewrite IH. Qed.

Lemma fold_statsStep_byPriority (tasks : list Task) (acc : StatsAcc) :
  acc_byPriority (fold_left (statsStep rnd) tasks acc)
  = fold_left (fun f t => bump TaskPriority.eqb (task_priority t) f) tasks
      (acc_byPriority acc).
Proof. revert acc. induction tasks as [|t tasks IH]; intros acc; simpl; [done |]. by rewrite IH. Qed.

Lemma status_partition (tasks : list Task) :
  Z.of_nat (length tasks)
  = foldr Z.add 0
      (map (fun s => Z.of_nat (length (filter (fun t => TaskStatus.eqb (task_status t) s = true)
                                         tasks)))
           TaskStatus.all).
Proof.
  induction tasks as [|t tasks IH]; [done |].
  cbn [length]. rewrite Nat2Z.inj_succ, IH. unfold TaskStatus.all. cbn [map foldr].
  rewrite !filter_cons. destruct (task_status t); simpl; lia.
Qed.

Lemma priority_partition (tasks : list Task) :
  Z.of_nat (length tasks)
  = foldr Z.add 0
      (map (fun p => Z.of_nat (length (filter (fun t => TaskPriority.eqb (task_priority t) p
                                                        = true) tasks)))
           [TaskPriority.LOW; TaskPriority.MEDIUM; TaskPriority.HIGH; TaskPriority.CRITICAL]).
Proof.
  induction tasks as [|t tasks IH]; [done |].
  cbn [length]. rewrite Nat2Z.inj_succ, IH. cbn [map foldr].
  rewrite !filter_cons. destruct (task_priority t); simpl; lia.
Qed.

(** The counters over the list that the query returns. *)
Lemma statistics_count_query (orchestrationId : string) (dir : TaskDir) :
  let tasks := TaskManifest.queryTasks (orchestrationQuery orchestrationId) dir in
  let stats := getTaskStatistics rnd orchestrationId dir in
  stat_total stats = Z.of_nat (length tasks)
  /\ (forall s, stat_byStatus stats s
                = Z.of_nat (length (filter (fun t => TaskStatus.eqb (task_status t) s = true)
                                      tasks)))
  /\ (forall p, stat_byPriority stats p
                = Z.of_nat (length (filter (fun t => TaskPriority.eqb (task_priority t) p
                                                     = true) tasks)))
  /\ foldr Z.add 0 (map (stat_byStatus stats) TaskStatus.all) = stat_total stats
  /\ foldr Z.add 0 (map (stat_byPriority stats)
                      [TaskPriority.LOW; TaskPriority.MEDIUM; TaskPriority.HIGH;
                       TaskPriority.CRITICAL]) = stat_total stats
  /\ stat_actualTotalHours stats = of_int 0.
Proof.
  cbv zeta. unfold getTaskStatistics. cbn [stat_total stat_byStatus stat_byPriority
                                           stat_actualTotalHours].
  set (tasks := TaskManifest.queryTasks _ _).
  assert (forall s, acc_byStatus (fold_left (statsStep rnd) tasks statsInit) s
                    = Z.of_nat (length (filter (fun t => TaskStatus.eqb (task_status t) s
                                                         = true) tasks))) as Hs.
  { intros s. rewrite fold_statsStep_byStatus.
    rewrite (bump_count TaskStatus.eqb task_status) by done. simpl. lia. }
  assert (forall p, acc_byPriority (fold_left (statsStep rnd) tasks statsInit) p
                    = Z.of_nat (length (filter (fun t => TaskPriority.eqb (task_priority t) p
                                                         = true) tasks))) as Hp.
  { intros p. rewrite fold_statsStep_byPriority.
    rewrite (bump_count TaskPriority.eqb task_priority) by done. simpl. lia. }
  split_and!; try done.
  - rewrite (status_partition tasks). unfold TaskStatus.all. cbn [map foldr]. by rewrite !Hs.
  - rewrite (priority_partition tasks). cbn [map foldr]. by rewrite !Hp.
Qed.

(** X4.  The counters of [getTaskStatistics] for a non-empty orchestration
    id: [total] is the number of stored tasks with that orchestration id,
    each [byStatus] and [byPriority] entry is the number of those tasks
    with that status or priority, so that either table adds up to [total];
    [actualTotalHours] is always 0. *)
Theorem getTaskStatistics_counts (orchestrationId : string) (dir : TaskDir) :
  let tasks := tasks_of_orchestration orchestrationId dir in
  let stats := getTaskStatistics rnd orchestrationId dir in
  orchestrationId <> "" ->
  stat_total stats = Z.of_nat (length tasks)
  /\ (forall s, stat_byStatus stats s
                = Z.of_nat (length (filter (fun t => TaskStatus.eqb (task_status t) s = true)
                                      tasks)))
  /\ (forall p, stat_byPriority stats p
                = Z.of_nat (length (filter (fun t => TaskPriority.eqb (task_priority t) p
                                                     = true) tasks)))
  /\ foldr Z.add 0 (map (stat_byStatus stats) TaskStatus.all) = stat_total stats
  /\ foldr Z.add 0 (map (stat_byPriority stats)
                      [TaskPriority.LOW; TaskPriority.MEDIUM; TaskPriority.HIGH;
                       TaskPriority.CRITICAL]) = stat_total stats
  /\ stat_actualTotalHours stats = of_int 0.
Proof.
  intros tasks stats Hid.
  pose proof (OrchestrationFacts.queryTasks_orchestration orchestrationId dir Hid) as Hp.
  fold tasks in Hp.
  destruct (statistics_count_query orchestrationId dir) as (Ht & Hs & Hpr & Hss & Hsp & Ha).
  cbv zeta in *. fold stats in Ht, Hs, Hpr, Hss, Hsp, Ha.
  split_and!; [| | | done | done | done].
  - by rewrite Ht, Hp.
  - intros s. by rewrite Hs, Hp.
  - intros p. by rewrite Hpr, Hp.
Qed.

End Counting.

(** In the scenario the three tasks of orch-1 are counted. *)
Lemma getTaskStatistics_counts_witness :
  "orch-1" <> ""
  /\ stat_total (getTaskStatistics (fun q => q) "orch-1" sampleDir)
     = Z.of_nat (length (tasks_of_orchestration "orch-1" sampleDir)).
Proof.
  assert ("orch-1" <> "") as Hid by discriminate.
  split; [exact Hid |].
  exact (proj1 (getTaskStatistics_counts (fun q => q) "orch-1" sampleDir Hid)).
Defined.


End TaskQueryFacts.

(** ** The dependency check of the task executor *)

Module DependencyCheckFacts.

Lemma forallb_filter_nil {A} (f : A -> bool) (l : list A) :
  forallb f l = true <-> filter (fun x => f x <> true) l = [].
Proof.
  induction l as [|x l IH]; simpl; [done |].
  rewrite filter_cons. destruct (f x); simpl.
  - destruct (decide (true <> true)); [done | exact IH].
  - destruct (decide (false <> true)); [| done]. split; discriminate.
Qed.

Lemma isDependencySatisfied_status (d : TaskDependency) (t : Task) :
  TaskExecutor.isDependencySatisfied d t = true
  <-> (task_status t = TaskStatus.COMPLETED
       /\ is_Some (DependencyType.of_value (dep_type d)))
      \/ (task_status t = TaskStatus.IN_PROGRESS /\ start_dependency (dep_type d) = true).
Proof.
  unfold TaskExecutor.isDependencySatisfied, start_dependency.
  destruct (DependencyType.of_value (dep_type d)) as [[]|], (task_status t); simpl;
    rewrite ?is_Some_alt; naive_solver.
Qed.

Lemma checkOne_fold (dir : TaskDir) (deps : list TaskDependency) :
  forall acc : DependencyCheckResult,
    let r := fold_left (TaskExecutor.checkOne dir) deps acc in
    satisfiedDependencies r
    = (satisfiedDependencies acc ++ filter (fun d => satisfied_in dir d = true) deps)%list
    /\ unsatisfiedDependencies r
       = (unsatisfiedDependencies acc
          ++ filter (fun d => satisfied_in dir d <> true) deps)%list
    /\ allSatisfied r
       = allSatisfied acc && forallb (satisfied_in dir) deps
    /\ length (blockedBy r)
       = (length (blockedBy acc)
          + length (filter (fun d => satisfied_in dir d <> true) deps))%nat.
Proof.
  induction deps as [|d deps IH]; intros acc; cbn [fold_left].
  - cbv zeta. rewrite !app_nil_r, andb_true_r. simpl. split_and!; [done .. | lia].
  - specialize (IH (TaskExecutor.checkOne dir acc d)). cbv zeta in *.
    destruct IH as (Hs & Hu & Ha & Hb). rewrite Hs, Hu, Ha, Hb. clear Hs Hu Ha Hb.
    rewrite !filter_cons. cbn [forallb].
    unfold TaskExecutor.checkOne, satisfied_in.
    destruct (TaskManifest.loadTask (dep_taskId d) dir) as [t|].
    + destruct (TaskExecutor.isDependencySatisfied d t) eqn:E; simpl.
      * destruct (decide (true = true)); [| done].
        destruct (decide (true <> true)); [done |].
        rewrite <- !app_assoc. simpl. split_and!; done.
      * destruct (decide (false = true)); [done |].
        destruct (decide (false <> true)); [| done].
        rewrite <- !app_assoc, ?length_app. simpl. rewrite andb_false_r.
        split_and!; [done | done | done | lia].
    + simpl. destruct (decide (false = true)); [done |].
      destruct (decide (false <> true)); [| done].
      rewrite <- !app_assoc, ?length_app. simpl. rewrite andb_false_r.
      split_and!; [done | done | done | lia].
Qed.

(** X5.  [checkDependencies] sorts every dependency of the task into
    exactly one of the two lists, in their order: the satisfied ones are
    those that name a stored task whose status satisfies the dependency
    according to [isDependencySatisfied] (never, for a type outside the
    enum), the unsatisfied ones are the others; [allSatisfied] is true
    exactly when none is unsatisfied, and [blockedBy] has one entry per
    unsatisfied dependency.  For an id with no task file the call throws
    "Task <id> not found". *)
Theorem checkDependencies_accounts_for_every_dependency (taskId : string) (dir : TaskDir) :
  match TaskManifest.loadTask taskId dir with
  | None => TaskExecutor.checkDependencies taskId dir = inl ("Task " ++ taskId ++ " not found")
  | Some task =>
      exists r,
        TaskExecutor.checkDependencies taskId dir = inr r
        /\ satisfiedDependencies r
           = filter (fun d => satisfied_in dir d = true) (task_dependencies task)
        /\ unsatisfiedDependencies r
           = filter (fun d => satisfied_in dir d <> true) (task_dependencies task)
        /\ (allSatisfied r = true <-> unsatisfiedDependencies r = [])
        /\ length (blockedBy r) = length (unsatisfiedDependencies r)
  end.
Proof.
  unfold TaskExecutor.checkDependencies.
  destruct (TaskManifest.loadTask taskId dir) as [task|]; [| done].
  eexists. split; [reflexivity |].
  destruct (checkOne_fold dir (task_dependencies task)
              {| allSatisfied := true; satisfiedDependencies := [];
                 unsatisfiedDependencies := []; blockedBy := [] |}) as (Hs & Hu & Ha & Hb).
  cbv zeta in *. simpl in Hs, Hu, Ha, Hb. rewrite Hs, Hu, Ha, Hb.
  split_and!; try done.
  apply forallb_filter_nil.
Qed.

(** X6.  When [checkDependencies] reports [allSatisfied]: exactly when
    every dependency of the task names a stored task that is completed,
    where the type of the dependency is one of the four values of
    [DependencyType], or that is in progress, where the type is
    start_to_start or start_to_finish.  A dependency of another type
    (requires, blocks, enables), on a missing task, or on a task that is
    not started, blocked, failed or cancelled, is never satisfied. *)
Theorem checkDependencies_allSatisfied (taskId : string) (dir : TaskDir) (task : Task)
    (r : DependencyCheckResult) :
  TaskManifest.loadTask taskId dir = Some task ->
  TaskExecutor.checkDependencies taskId dir = inr r ->
  allSatisfied r = true
  <-> forall d, d ∈ task_dependencies task ->
        exists t, TaskManifest.loadTask (dep_taskId d) dir = Some t
                  /\ ((task_status t = TaskStatus.COMPLETED
                       /\ is_Some (DependencyType.of_value (dep_type d)))
                      \/ (task_status t = TaskStatus.IN_PROGRESS
                          /\ start_dependency (dep_type d) = true)).
Proof.
  intros Hload. unfold TaskExecutor.checkDependencies. rewrite Hload. intros [= <-].
  destruct (checkOne_fold dir (task_dependencies task)
              {| allSatisfied := true; satisfiedDependencies := [];
                 unsatisfiedDependencies := []; blockedBy := [] |}) as (_ & _ & Ha & _).
  cbv zeta in Ha. rewrite Ha. simpl. rewrite forallb_forall.
  split.
  - intros Hall d Hd. specialize (Hall d (proj1 (list_elem_of_In _ _) Hd)).
    unfold satisfied_in in Hall.
    destruct (TaskManifest.loadTask (dep_taskId d) dir) as [t|]; [| done].
    exists t. split; [done |]. by apply isDependencySatisfied_status.
  - intros Hall d Hd. destruct (Hall d (proj2 (list_elem_of_In _ _) Hd)) as (t & Ht & Hst).
    unfold satisfied_in. rewrite Ht. by apply isDependencySatisfied_status.
Qed.

Lemma checkDependencies_allSatisfied_witness :
  let dir := (TaskManifest.updateTask 10 "A" (setStatus TaskStatus.COMPLETED) sampleDir).2 in
  exists r, TaskExecutor.checkDependencies "B" dir = inr r /\ allSatisfied r = true.
Proof.
  cbv zeta. eexists. split; [reflexivity |].
  apply (checkDependencies_allSatisfied "B"
           (TaskManifest.updateTask 10 "A" (setStatus TaskStatus.COMPLETED) sampleDir).2
           (taskB "orch-1" 2) _ eq_refl eq_refl).
  intros d Hd. apply list_elem_of_singleton in Hd. subst d.
  eexists. split; [reflexivity |]. left. split; [reflexivity | by eexists].
Defined.

End DependencyCheckFacts.

(** ** Session objects *)

Module SessionObjectFacts.

Import SchemaFacts.

(** X7.  [fromJSON] undoes [toJSON]: a session object serialised with
    [toJSON] and rebuilt with [fromJSON] has every field as before. *)
Theorem fromJSON_toJSON (s : Session) : fromJSON (toJSON s) = s.
Proof.
  destruct s as [id ty orch task ts ctx st md parent children act completed reason].
  unfold fromJSON, toJSON.
  cbn [get_prop prop_get String.eqb Ascii.eqb Bool.eqb sess_id sess_type
       sess_orchestrationId sess_taskId sess_timestamp sess_context sess_state
       sess_metadata sess_parentSessionId sess_childSessionIds sess_lastActivityAt
       sess_completedAt sess_failureReason as_string as_date].
  rewrite as_sessionType_name, as_sessionState_name, !as_ostring_value, as_strings_map.
  f_equal.
  - destruct ctx as [msgs arts decs focus thinking vars]. unfold context_value.
    cbn [get_prop prop_get String.eqb Ascii.eqb Bool.eqb ctx_messages ctx_artifacts
         ctx_decisions ctx_currentFocus ctx_sequentialThinking ctx_variables as_array].
    by rewrite as_ostring_value, as_orecord_value.
  - destruct md as [[name description tags user]|]; [| done]. unfold metadata_value.
    cbn [get_prop prop_get String.eqb Ascii.eqb Bool.eqb md_name md_description md_tags
         md_userMetadata].
    by rewrite !as_ostring_value, as_strings_map, as_orecord_value.
  - by destruct completed.
Qed.

Lemma existsb_eqb_elem (x : string) (l : list string) :
  existsb (String.eqb x) l = true <-> x ∈ l.
Proof.
  rewrite existsb_exists. split.
  - intros (y & Hin & Heq). apply String.eqb_eq in Heq. subst y. by apply list_elem_of_In.
  - intros Hin. exists x. split; [by apply list_elem_of_In | apply String.eqb_refl].
Qed.

Lemma remove_first_absent (x : string) (l : list string) :
  x ∉ l -> OrchestrationSession.remove_first x l = l.
Proof.
  induction l as [|y l IH]; simpl; [done |]. intros Hx.
  apply not_elem_of_cons in Hx as [Hne Hx].
  assert (String.eqb y x = false) as -> by (apply String.eqb_neq; congruence).
  by rewrite IH.
Qed.

Lemma remove_first_snoc (x : string) (l : list string) :
  x ∉ l -> OrchestrationSession.remove_first x (l ++ [x]) = l.
Proof.
  induction l as [|y l IH]; simpl; [by rewrite String.eqb_refl |]. intros Hx.
  apply not_elem_of_cons in Hx as [Hne Hx].
  assert (String.eqb y x = false) as -> by (apply String.eqb_neq; congruence).
  by rewrite IH.
Qed.

Lemma remove_first_elem (x y : string) (l : list string) :
  y ∈ OrchestrationSession.remove_first x l -> y ∈ l.
Proof.
  induction l as [|z l IH]; simpl; [done |].
  destruct (String.eqb z x); [by right |].
  intros [-> | H]%elem_of_cons; [left | right; auto].
Qed.

Lemma remove_first_NoDup (x : string) (l : list string) :
  NoDup l -> NoDup (OrchestrationSession.remove_first x l)
             /\ x ∉ OrchestrationSession.remove_first x l.
Proof.
  induction 1 as [|z l Hz Hl IH]; simpl; [split; [constructor | by apply not_elem_of_nil] |].
  destruct (String.eqb_spec z x) as [-> | Hne]; [done |].
  destruct IH as [IH1 IH2]. split.
  - constructor; [| exact IH1]. intros H. apply Hz. by eapply remove_first_elem.
  - apply not_elem_of_cons. split; [congruence | exact IH2].
Qed.

(** X8.  The list of children of a session: [addChildSession] makes the
    id a member, never adds an id that is already listed (so a list without
    duplicates stays without duplicates) and is then a no-op that does not
    even refresh [lastActivityAt]; [removeChildSession] of an id that is not
    listed changes nothing, removes the id from a list without duplicates,
    and undoes the [addChildSession] of a new id. *)
Theorem childSessionIds_add_remove (now now' : Z) (child : string) (s : Session) :
  let added := OrchestrationSession.addChildSession now child s in
  let removed := OrchestrationSession.removeChildSession now child s in
  child ∈ sess_childSessionIds added
  /\ (NoDup (sess_childSessionIds s) -> NoDup (sess_childSessionIds added))
  /\ (child ∈ sess_childSessionIds s -> added = s)
  /\ OrchestrationSession.addChildSession now' child added = added
  /\ (child ∉ sess_childSessionIds s -> removed = s)
  /\ (NoDup (sess_childSessionIds s) ->
      NoDup (sess_childSessionIds removed) /\ child ∉ sess_childSessionIds removed)
  /\ (child ∉ sess_childSessionIds s ->
      sess_childSessionIds (OrchestrationSession.removeChildSession now' child added)
      = sess_childSessionIds s).
Proof.
  cbv zeta. unfold OrchestrationSession.addChildSession,
    OrchestrationSession.removeChildSession.
  destruct (existsb (String.eqb child) (sess_childSessionIds s)) eqn:E.
  - apply existsb_eqb_elem in E as Hin. rewrite E. split_and!; try done.
    intros Hnd. simpl. by apply remove_first_NoDup.
  - assert (child ∉ sess_childSessionIds s) as Hout.
    { intros Hin. apply existsb_eqb_elem in Hin. congruence. }
    cbn [sess_childSessionIds OrchestrationSession.with_children].
    assert (existsb (String.eqb child) (sess_childSessionIds s ++ [child]) = true) as E'.
    { apply existsb_eqb_elem. set_solver. }
    rewrite E'. split_and!; try done.
    + set_solver.
    + intros Hnd. apply NoDup_app. split_and!; [done | | apply NoDup_singleton].
      intros x Hx ->%list_elem_of_singleton. done.
    + intros _. simpl. by apply remove_first_snoc.
Qed.

End SessionObjectFacts.

(** ** The session store: what can be saved, and what is read back *)

Module SessionStoreFacts.

Import SaveFacts SchemaFacts ParentChildFacts.

Lemma object_fields (shape : list (string * Parser)) (props : list (string * JsValue))
    (v : JsValue) :
  Zod.object shape (VObj props) = inr v ->
  forall k p, (k, p) ∈ shape -> forall es, p (prop_get k props) = inl es -> es = [].
Proof.
  unfold Zod.object.
  set (results := map (fun kp : string * Parser => (kp.1, kp.2 (prop_get kp.1 props))) shape).
  destruct (flat_map _ results) as [|e errs] eqn:E; [| done].
  intros _ k p Hin es Hes.
  assert ((k, inl es) ∈ results) as Hres.
  { unfold results. apply list_elem_of_fmap. exists (k, p). by rewrite <- Hes. }
  destruct es as [|e es]; [done |]. exfalso.
  assert (Zod.path k e ∈ flat_map
            (fun kr : string * (list string + JsValue) =>
               match kr.2 with
               | inl es => map (Zod.path kr.1) es
               | inr _ => []
               end) results) as Hin'.
  { apply list_elem_of_In, in_flat_map. exists (k, inl (e :: es)).
    split; [by apply list_elem_of_In | by left]. }
  rewrite E in Hin'. by apply elem_of_nil in Hin'.
Qed.

Section Store.
Variable Date_parse : string -> JsDate.
Variable config : StorageConfig.

Lemma schema_toJSON_inv (s : Session) (v : JsValue) :
  SessionSchema Date_parse (toJSON s) = inr v -> valid_session s.
Proof.
  unfold SessionSchema, toJSON. intros H.
  pose proof (object_fields _ _ _ H) as Hf. clear H.
  repeat split.
  - intros Hid. specialize (Hf "id" (Zod.str true) ltac:(set_solver) [""]).
    simpl in Hf. rewrite Hid in Hf. by specialize (Hf eq_refl).
  - intros Ho. specialize (Hf "orchestrationId" (Zod.str true) ltac:(set_solver) [""]).
    simpl in Hf. rewrite Ho in Hf. by specialize (Hf eq_refl).
  - destruct (sess_timestamp s) as [t|] eqn:E; [by eexists |].
    specialize (Hf "timestamp" (dateLike Date_parse) ltac:(set_solver) [""]).
    simpl in Hf. rewrite ?E in Hf. by specialize (Hf eq_refl).
  - destruct (sess_lastActivityAt s) as [t|] eqn:E; [by eexists |].
    specialize (Hf "lastActivityAt" (dateLike Date_parse) ltac:(set_solver) [""]).
    simpl in Hf. rewrite ?E in Hf. by specialize (Hf eq_refl).
  - intros E.
    specialize (Hf "completedAt" (Zod.optional (dateLike Date_parse)) ltac:(set_solver) [""]).
    simpl in Hf. rewrite ?E in Hf. by specialize (Hf eq_refl).
Qed.



End Store.


End SessionStoreFacts.

(** ** The session store: deleting files and keeping backups *)

Module BackupFacts.

Import SaveFacts.

Lemma filter_all {A} (P : A -> Prop) `{!forall x, Decision (P x)} (l : list A) :
  Forall P l -> filter P l = l.
Proof.
  induction 1 as [|x l Hx Hl IH]; [done |].
  rewrite filter_cons. destruct (decide (P x)); [by rewrite IH | done].
Qed.

Lemma remove_read_ne (name other : string) (d : Directory) :
  name <> other -> Dir.read other (Dir.remove name d) = Dir.read other d.
Proof.
  intros Hne. induction d as [|[n c] d IH]; simpl; [done |].
  destruct (String.eqb_spec n name) as [-> | Hn]; simpl.
  - assert (String.eqb name other = false) as -> by (by apply String.eqb_neq). done.
  - destruct (String.eqb n other); [done | exact IH].
Qed.

Lemma read_None_names (name : string) (d : Directory) :
  Dir.read name d = None <-> name ∉ map fst d.
Proof.
  induction d as [|[n c] d IH]; simpl; [split; [intros _; apply not_elem_of_nil | done] |].
  destruct (String.eqb_spec n name) as [-> | Hn].
  - split; [done |]. intros H. exfalso. apply H. left.
  - rewrite IH, not_elem_of_cons. naive_solver.
Qed.

Lemma remove_names (name : string) (d : Directory) :
  unique_names d -> map fst (Dir.remove name d) = filter (fun n => n <> name) (map fst d).
Proof.
  unfold unique_names. induction d as [|[n c] d IH]; simpl; [done |].
  intros [Hn Hd]%NoDup_cons. rewrite filter_cons.
  destruct (String.eqb_spec n name) as [-> | Hne]; simpl.
  - destruct (decide (name <> name)); [done |].
    symmetry. apply filter_all.
    apply Forall_forall. intros x Hx ->. by apply Hn, list_elem_of_In.
  - destruct (decide (n <> name)); [| done]. by rewrite IH.
Qed.

Lemma write_names (name : string) (c : FileData) (d : Directory) :
  unique_names d -> unique_names (Dir.write name c d).
Proof.
  unfold unique_names. induction d as [|[n c'] d IH]; simpl; [intros _; apply NoDup_singleton |].
  intros [Hn Hd]%NoDup_cons.
  destruct (String.eqb_spec n name) as [-> | Hne]; simpl; [by constructor |].
  constructor; [| by apply IH].
  intros Hin. apply Hn. clear IH Hn Hd.
  induction d as [|[m c''] d IH]; simpl in *.
  - apply list_elem_of_singleton in Hin. congruence.
  - destruct (String.eqb m name); simpl in Hin; [exact Hin |].
    apply elem_of_cons in Hin as [-> | Hin]; [left | right; auto].
Qed.

Lemma fold_remove_names (names : list string) (d : Directory) :
  unique_names d ->
  map fst (fold_left (fun d file => Dir.remove file d) names d)
  = filter (fun n => n ∉ names) (map fst d).
Proof.
  revert d. induction names as [|name names IH]; intros d Hd; simpl.
  - symmetry. apply filter_all. apply Forall_forall. intros x _. apply not_elem_of_nil.
  - rewrite IH.
    2:{ unfold unique_names. rewrite remove_names by done. by apply NoDup_filter. }
    rewrite remove_names by done. rewrite list_filter_filter.
    apply list_filter_iff. intros x. rewrite not_elem_of_cons. tauto.
Qed.

Lemma fold_remove_read (names : list string) (other : string) (d : Directory) :
  other ∉ names ->
  Dir.read other (fold_left (fun d file => Dir.remove file d) names d) = Dir.read other d.
Proof.
  revert d. induction names as [|name names IH]; intros d Hout; simpl; [done |].
  apply not_elem_of_cons in Hout as [Hne Hout].
  rewrite IH by done. apply remove_read_ne. congruence.
Qed.

Section Backups.
Variable config : StorageConfig.

Lemma prefix_shorter (a b s : string) :
  String.prefix (a ++ b) s = true -> String.prefix a s = true.
Proof.
  revert s. induction a as [|c a IH]; intros s; [by destruct s |].
  change (String c a ++ b)%string with (String c (a ++ b)%string).
  destruct s as [|d s]; [done |]. simpl.
  destruct (ascii_dec c d); [apply IH | done].
Qed.

Lemma text_app_assoc (a b c : string) : ((a ++ b) ++ c = a ++ (b ++ c))%string.
Proof.
  induction a as [|x a IH]; [done |].
  change (String x ((a ++ b) ++ c) = String x (a ++ (b ++ c)))%string. by rewrite IH.
Qed.

(** The name test does not tell the backups of a record from those of a
    record whose id continues it after a hyphen. *)
Lemma backup_of_longer_id (type id more name : string) :
  backup_of type (id ++ "-" ++ more) name -> backup_of type id name.
Proof.
  intros [Hpre Hend]. split; [| done].
  apply (prefix_shorter _ (more ++ "-")).
  rewrite !text_app_assoc in Hpre. rewrite !text_app_assoc. exact Hpre.
Qed.

(** X11.  [cleanupBackups] bounds the files that pass its name test (the
    name starts with <type>-<id>- and ends with .json): with a positive
    [maxBackups] and distinct file names, at most [maxBackups] such files
    are left; a file that fails the test is never deleted, and no file is
    added.  The test looks at the name only: the backups of a record whose
    id is <id>-<more> pass the test for <id> as well, so that they are
    counted with, and may be deleted as, backups of <id>. *)
Theorem cleanupBackups_bound (type id : string) (backups : Directory) :
  unique_names backups ->
  (0 < maxBackups config)%nat ->
  let kept := StateManager.cleanupBackups config type id backups in
  (length (filter (backup_of type id) (map fst kept)) <= maxBackups config)%nat
  /\ (forall name, ~ backup_of type id name -> Dir.read name kept = Dir.read name backups)
  /\ (forall name, name ∈ map fst kept -> name ∈ map fst backups)
  /\ unique_names kept
  /\ (forall more name, backup_of type (id ++ "-" ++ more) name -> backup_of type id name).
Proof.
  intros Hu Hpos. cbv zeta.
  set (mine := filter (backup_of type id) (map fst backups)).
  set (sorted := rev (js_sort string_order mine)).
  assert (StateManager.cleanupBackups config type id backups
          = match maxBackups config with
            | O => backups
            | S _ =>
                if (maxBackups config <? length sorted)%nat
                then fold_left (fun d file => Dir.remove file d)
                       (drop (maxBackups config) sorted) backups
                else backups
            end) as -> by reflexivity.
  destruct (maxBackups config) as [|m] eqn:Em; [lia |].
  assert (sorted ≡ₚ mine) as Hperm.
  { unfold sorted. rewrite <- Permutation_rev. apply NextTaskFacts.js_sort_perm. }
  destruct (S m <? length sorted)%nat eqn:Elen.
  2:{ split_and!; try done; [| intros more name; apply backup_of_longer_id].
      apply Nat.ltb_ge in Elen. fold mine. rewrite <- Hperm. exact Elen. }
  set (extra := drop (S m) sorted).
  assert (map fst (fold_left (fun d file => Dir.remove file d) extra backups)
          = filter (fun n => n ∉ extra) (map fst backups)) as Hnames
    by (by apply fold_remove_names).
  assert (NoDup sorted) as Hnd.
  { rewrite Hperm. unfold mine. by apply NoDup_filter. }
  split_and!.
  - rewrite Hnames, list_filter_filter.
    rewrite (list_filter_iff _ (fun n => (n ∉ extra) /\ backup_of type id n)) by (intros; tauto).
    rewrite <- list_filter_filter. fold mine.
    assert (filter (fun n => n ∉ extra) mine ⊆+ take (S m) sorted) as Hsub.
    { apply NoDup_submseteq; [by apply NoDup_filter; rewrite <- Hperm |].
      intros x [Hx Hin]%list_elem_of_filter.
      rewrite <- Hperm, <- (take_drop (S m) sorted) in Hin.
      apply elem_of_app in Hin as [Hin | Hin]; done. }
    apply submseteq_length in Hsub. rewrite length_take in Hsub. lia.
  - intros name Hname. apply fold_remove_read.
    intros Hin. apply Hname.
    assert (name ∈ mine) as Hm.
    { rewrite <- Hperm. eapply elem_of_sublist; [exact Hin | apply sublist_drop]. }
    by apply list_elem_of_filter in Hm as [? _].
  - intros name. rewrite Hnames. by intros [_ ?]%list_elem_of_filter.
  - unfold unique_names. rewrite Hnames. by apply NoDup_filter.
  - intros more name. apply backup_of_longer_id.
Qed.

End Backups.

(** Cleaning up the backups of s1 with room for one deletes the only backup
    of the record s1-a. *)
Example cleanupBackups_deletes_backup_of_longer_id :
  StateManager.cleanupBackups {| enableBackups := true; maxBackups := 1 |}
    "sessions" "s1" collidingBackups
  = [("sessions-s1-t9.json", Unparseable)].
Proof. vm_compute. reflexivity. Qed.

Lemma cleanupBackups_bound_witness :
  let config := {| enableBackups := true; maxBackups := 1 |} in
  let kept := StateManager.cleanupBackups config "sessions" "s1" sampleBackups in
  (length (filter (backup_of "sessions" "s1") (map fst kept)) <= 1)%nat
  /\ Dir.read "sessions-s2-t1.json" kept = Some Unparseable.
Proof.
  cbv zeta.
  destruct (cleanupBackups_bound {| enableBackups := true; maxBackups := 1 |}
              "sessions" "s1" sampleBackups) as (Hlen & Hother & _).
  - unfold unique_names. simpl. repeat constructor; set_solver.
  - simpl. lia.
  - split; [exact Hlen |]. rewrite Hother; [reflexivity |].
    unfold backup_of. by intros [? _].
Defined.

Lemma remove_read_eq (name : string) (d : Directory) :
  unique_names d -> Dir.read name (Dir.remove name d) = None.
Proof.
  intros Hu. apply read_None_names. rewrite remove_names by done.
  by intros [? _]%list_elem_of_filter.
Qed.



End BackupFacts.

(** ** Execution order when the dependencies have cycles *)

Module ExecutionOrderCycles.

Import ExecutionOrder GraphFacts.

Lemma occurs_before_lookup {A} (x y : A) (l : list A) :
  occurs_before x y l ->
  exists i j, (i < j)%nat /\ l !! i = Some x /\ l !! j = Some y.
Proof.
  intros (l1 & l2 & l3 & ->).
  exists (length l1), (length l1 + S (length l2))%nat. split_and!; [lia | |].
  - by rewrite list_lookup_middle.
  - rewrite lookup_app_r by lia.
    replace (length l1 + S (length l2) - length l1)%nat with (S (length l2)) by lia.
    simpl. by rewrite list_lookup_middle.
Qed.

(** The sort on any list of tasks, cyclic or not. *)
Lemma order_leaves_out_cycles (tasks : list Task) :
  exists result,
    order tasks = Some result
    /\ NoDup (map task_id result)
    /\ (forall t, t ∈ result -> t ∈ tasks)
    /\ (forall from to,
          dep_edge tasks to from -> to ∈ map task_id result ->
          occurs_before from to (map task_id result))
    /\ (forall v w,
          rtc (dep_edge tasks) v w -> tc (dep_edge tasks) w w ->
          v ∉ map task_id result).
Proof.
  destruct (TopologicalOrder.order_spec tasks) as (done & Hrun & Hnd & Hsub & _ & Horder).
  pose proof (TopologicalOrder.resultOf_ids tasks done Hsub) as Hids.
  exists (resultOf tasks done). rewrite Hids.
  assert (forall from to, dep_edge tasks to from -> to ∈ done -> occurs_before from to done)
    as Hbefore.
  { intros from to (t & Ht & Htid & Hdep & Hfrom) Hto. apply Horder; [| done].
    apply edgesOf_elem. by exists t. }
  assert (forall a b, tc (dep_edge tasks) a b ->
            forall i, done !! i = Some a ->
                      exists j, (j < i)%nat /\ done !! j = Some b) as Hrank.
  { induction 1 as [a b Hab | a b c Hab _ IH]; intros i Hi.
    - destruct (occurs_before_lookup _ _ _ (Hbefore b a Hab (list_elem_of_lookup_2 _ _ _ Hi)))
        as (j & i' & Hlt & Hj & Hi').
      rewrite (NoDup_lookup _ _ _ _ Hnd Hi Hi'). by exists j.
    - destruct (occurs_before_lookup _ _ _ (Hbefore b a Hab (list_elem_of_lookup_2 _ _ _ Hi)))
        as (j & i' & Hlt & Hj & Hi').
      rewrite (NoDup_lookup _ _ _ _ Hnd Hi Hi').
      destruct (IH j Hj) as (k & Hk & Hc). exists k. split; [lia | done]. }
  assert (forall w, tc (dep_edge tasks) w w -> w ∉ done) as Hcycle.
  { intros w Hw Hin. apply list_elem_of_lookup_1 in Hin as [i Hi].
    destruct (Hrank w w Hw i Hi) as (j & Hlt & Hj).
    pose proof (NoDup_lookup _ _ _ _ Hnd Hi Hj). lia. }
  split_and!; try done.
  - intros t. unfold resultOf. rewrite list_elem_of_omap.
    intros (id & _ & Hfind). by apply DependencyValidationFacts.findTask_Some in Hfind as [? _].
  - intros v w Hvw Hw Hin. apply rtc_tc in Hvw as [-> | Hvw]; [by apply (Hcycle w) |].
    apply list_elem_of_lookup_1 in Hin as [i Hi].
    destruct (Hrank v w Hvw i Hi) as (j & _ & Hj).
    apply (Hcycle w Hw). by eapply list_elem_of_lookup_2.
Qed.

(** X13.  [getTaskExecutionOrder] for a non-empty orchestration id, on
    any stored tasks, cyclic or not: the call returns; the result lists
    stored tasks of that orchestration only, each id at most once; a task
    is listed only after every task of the orchestration that it depends
    on; and a task that lies on a dependency cycle of the orchestration,
    or depends directly or indirectly on one that does, is left out of the
    result without any error. *)
Theorem getTaskExecutionOrder_leaves_out_cycles (orchestrationId : string) (dir : TaskDir) :
  let tasks := tasks_of_orchestration orchestrationId dir in
  orchestrationId <> "" ->
  exists result,
    getTaskExecutionOrder orchestrationId dir = Some result
    /\ NoDup (map task_id result)
    /\ (forall t, t ∈ result -> t ∈ tasks)
    /\ (forall from to,
          dep_edge tasks to from -> to ∈ map task_id result ->
          occurs_before from to (map task_id result))
    /\ (forall v w,
          rtc (dep_edge tasks) v w -> tc (dep_edge tasks) w w ->
          v ∉ map task_id result).
Proof.
  intros tasks Hid.
  pose proof (OrchestrationFacts.queryTasks_orchestration orchestrationId dir Hid) as Hp.
  fold tasks in Hp. unfold getTaskExecutionOrder.
  set (queried := TaskManifest.queryTasks _ _) in *.
  destruct (order_leaves_out_cycles queried) as (result & Hrun & Hnd & Hsub & Hbefore & Hout).
  exists result. split_and!; [done | done | | |].
  - intros t Ht. rewrite <- Hp. by apply Hsub.
  - intros from to Hedge. apply Hbefore.
    eapply OrchestrationFacts.dep_edge_members; [symmetry; exact Hp | exact Hedge].
  - intros v w Hvw Hw. apply (Hout v w).
    + eapply OrchestrationFacts.dep_reach_members; [symmetry; exact Hp | exact Hvw].
    + eapply OrchestrationFacts.dep_path_members; [symmetry; exact Hp | exact Hw].
Qed.

(** In the cycle scenario both tasks of orch-1 lie on the cycle and the
    result is empty. *)
Lemma getTaskExecutionOrder_leaves_out_cycles_witness :
  "orch-1" <> ""
  /\ exists result,
       getTaskExecutionOrder "orch-1" cycleDir = Some result
       /\ forall v w,
            rtc (dep_edge (tasks_of_orchestration "orch-1" cycleDir)) v w ->
            tc (dep_edge (tasks_of_orchestration "orch-1" cycleDir)) w w ->
            v ∉ map task_id result.
Proof.
  assert ("orch-1" <> "") as Hid by discriminate.
  split; [exact Hid |].
  destruct (getTaskExecutionOrder_leaves_out_cycles "orch-1" cycleDir Hid)
    as (result & Hrun & _ & _ & _ & Hout).
  exists result. split; [exact Hrun | exact Hout].
Defined.

End ExecutionOrderCycles.

(** ** The session registry: failed creation, deletion of a leaf *)

Module RegistryFacts.

Import SaveFacts SchemaFacts ParentChildFacts.

Section Registry.
Variable Date_parse : string -> JsDate.
Variable config : StorageConfig.

(** X14.  [createSession] with an empty orchestration id: the new
    session fails validation, so the call throws the [StorageError] of
    [saveSession] and nothing is written; but the session object was put
    into the registry's map before the save and stays there, and a parent
    named by the parameters is not updated. *)
Theorem createSession_invalid_stays_in_map (env : CreateEnv) (params : CreateSessionParams)
    (reg : Registry) :
  cp_orchestrationId params = "" ->
  exists message,
    SessionRegistry.createSession Date_parse config env params reg
    = (inl (StorageError message),
       {| reg_sessions :=
            <[env_id env := OrchestrationSession.new (env_id env) (env_created env)
                              (env_activity env) params]> (reg_sessions reg);
          reg_fs := reg_fs reg |}).
Proof.
  intros Horch. unfold SessionRegistry.createSession, StateManager.saveSession, validateSession.
  set (session := OrchestrationSession.new (env_id env) (env_created env)
                    (env_activity env) params).
  destruct (SessionSchema Date_parse (toJSON session)) as [errs | v] eqn:E.
  - cbn [sv_session sv_errors]. eexists. reflexivity.
  - apply SessionStoreFacts.schema_toJSON_inv in E. destruct E as (_ & Ho & _).
    exfalso. by apply Ho.
Qed.

End Registry.

Lemma createSession_invalid_stays_in_map_witness :
  exists message reg',
    SessionRegistry.createSession noDateParse sampleConfig (sampleEnv "s1" 1)
      (sampleParams "" None) emptyRegistry
    = (inl (StorageError message), reg')
    /\ is_Some (reg_sessions reg' !! "s1")
    /\ fs_sessions (reg_fs reg') = [].
Proof.
  destruct (createSession_invalid_stays_in_map noDateParse sampleConfig
              (sampleEnv "s1" 1) (sampleParams "" None)
              emptyRegistry eq_refl) as [message H].
  eexists _, _. split; [exact H |]. split; [| reflexivity].
  cbn. rewrite lookup_insert_eq. by eexists.
Defined.

End RegistryFacts.

(** ** The session registry: deleting a session without children *)

Module DeleteLeafFacts.

Import SaveFacts SchemaFacts ParentChildFacts BackupFacts.

Lemma valid_removeChildSession (now : Z) (child : string) (s : Session) :
  valid_session s -> valid_session (OrchestrationSession.removeChildSession now child s).
Proof.
  intros Hv. unfold OrchestrationSession.removeChildSession.
  destruct (existsb _ _); [| done].
  destruct Hv as (? & ? & ? & ? & ?). repeat split; simpl; eauto.
Qed.

Lemma removeChildSession_fields (now : Z) (child : string) (s : Session) :
  let s' := OrchestrationSession.removeChildSession now child s in
  sess_id s' = sess_id s
  /\ (NoDup (sess_childSessionIds s) -> child ∉ sess_childSessionIds s').
Proof.
  cbv zeta. unfold OrchestrationSession.removeChildSession.
  destruct (existsb (String.eqb child) (sess_childSessionIds s)) eqn:E; simpl.
  - split; [done |]. intros Hnd. by apply SessionObjectFacts.remove_first_NoDup.
  - split; [done |]. intros _ Hin. apply SessionObjectFacts.existsb_eqb_elem in Hin. congruence.
Qed.

Section Deletion.
Variable Date_parse : string -> JsDate.
Variable config : StorageConfig.
Variable clock : Clock.

(** X15.  Deleting a leaf session that is stored: for a session of the
    registry's map that has no children and has a file in storage (with
    distinct file names), and whose parent is another session, held in the
    map under its own non-empty id, that is a valid session record and
    lists no child twice, [deleteSession]
    returns [true]; the session is gone from the map and from storage; the
    parent object no longer lists it and has been written back to its
    file. *)
Theorem deleteSession_leaf (fuel : nat) (sessionId parentId : string)
    (session parent : Session) (reg : Registry) :
  reg_sessions reg !! sessionId = Some session ->
  sess_childSessionIds session = [] ->
  sess_parentSessionId session = Some parentId ->
  parentId <> "" -> parentId <> sessionId ->
  reg_sessions reg !! parentId = Some parent ->
  sess_id parent = parentId ->
  valid_session parent ->
  NoDup (sess_childSessionIds parent) ->
  unique_names (fs_sessions (reg_fs reg)) ->
  is_Some (Dir.read sessionId (fs_sessions (reg_fs reg))) ->
  exists reg' parent',
    SessionDeletion.deleteSession Date_parse config clock (S fuel) sessionId reg
    = Some (inr true, reg')
    /\ reg_sessions reg' !! sessionId = None
    /\ Dir.read sessionId (fs_sessions (reg_fs reg')) = None
    /\ reg_sessions reg' !! parentId = Some parent'
    /\ (sessionId ∉ sess_childSessionIds parent')
    /\ Dir.read parentId (fs_sessions (reg_fs reg')) = Some (Parsed (docOf parent')).
Proof.
  intros Hs Hleaf Hparent Hpne Hne Hp Hpid Hv Hnd Hu [content Hfile].
  set (parent' := OrchestrationSession.removeChildSession (time_at clock 0) sessionId parent).
  destruct (removeChildSession_fields (time_at clock 0) sessionId parent) as [Hid' Hgone].
  fold parent' in Hid', Hgone.
  assert (valid_session parent') as Hv' by (by apply valid_removeChildSession).
  destruct (saveSession_valid Date_parse config (stamp_at clock 1) parent' (reg_fs reg) Hv')
    as (fs1 & Hsave & Hfs1).
  assert (unique_names (fs_sessions fs1)) as Hu1 by (rewrite Hfs1; by apply write_names).
  assert (Dir.read sessionId (fs_sessions fs1) = Some content) as Hfile1.
  { rewrite Hfs1, Hid', Hpid. by rewrite read_write_ne. }
  set (fs1' := if enableBackups config
               then StateManager.createBackup config (stamp_at clock 2) sessionId fs1
               else fs1).
  assert (fs_sessions fs1' = fs_sessions fs1) as Hs1'.
  { unfold fs1'. destruct (enableBackups config); [apply createBackup_sessions | done]. }
  exists {| reg_sessions :=
              filter (fun kv : string * Session => kv.1 ∈ dom (reg_sessions reg) ∖ {[sessionId]})
                (<[parentId := parent']> (reg_sessions reg));
            reg_fs := {| fs_sessions := Dir.remove sessionId (fs_sessions fs1');
                         fs_backups := fs_backups fs1' |} |}, parent'.
  split_and!.
  - unfold SessionDeletion.deleteSession. cbn [SessionDeletion.deleteRec].
    unfold SessionDeletion.lookup at 1. cbn [ds_cached ds_objects].
    rewrite decide_True by (apply elem_of_dom; by eexists). rewrite Hs.
    unfold SessionDeletion.detachFromParent. rewrite Hparent.
    cbn [truthy_ostr default from_option id]. unfold truthy_str.
    apply String.eqb_neq in Hpne as ->. cbn [negb].
    unfold SessionDeletion.lookup. cbn [ds_cached ds_objects ds_tick ds_fs].
    rewrite decide_True by (apply elem_of_dom; by eexists). rewrite Hp.
    fold parent'. rewrite Hsave. cbn [fst snd ds_objects ds_cached ds_fs ds_tick].
    rewrite lookup_insert_ne by done. rewrite Hs. cbn [from_option]. rewrite Hleaf.
    cbn [length SessionDeletion.forEachChild].
    unfold StateManager.deleteSession. cbn [ds_tick ds_fs ds_objects ds_cached].
    fold fs1'. rewrite Hs1', Hfile1.
    cbn [fst snd ds_objects ds_cached ds_fs ds_tick]. reflexivity.
  - cbn [reg_sessions]. apply map_lookup_filter_None. right. intros x _. simpl. set_solver.
  - cbn [reg_fs fs_sessions]. rewrite Hs1'. by apply remove_read_eq.
  - cbn [reg_sessions]. apply map_lookup_filter_Some. split; [apply lookup_insert_eq |].
    simpl. apply elem_of_difference. split; [apply elem_of_dom; by eexists | set_solver].
  - by apply Hgone.
  - cbn [reg_fs fs_sessions]. rewrite Hs1', remove_read_ne by done.
    rewrite Hfs1, Hid', Hpid. apply read_write_eq.
Qed.

End Deletion.

Lemma deleteSession_leaf_witness :
  exists reg' parent',
    SessionDeletion.deleteSession noDateParse sampleConfig sampleClock 1 "c1"
      (create "c1" "orch-1" (Some "P") 2 (create "P" "orch-1" None 1 emptyRegistry))
    = Some (inr true, reg')
    /\ reg_sessions reg' !! "c1" = None
    /\ Dir.read "c1" (fs_sessions (reg_fs reg')) = None
    /\ reg_sessions reg' !! "P" = Some parent'
    /\ ("c1" ∉ sess_childSessionIds parent')
    /\ Dir.read "P" (fs_sessions (reg_fs reg')) = Some (Parsed (docOf parent')).
Proof.
  eapply (deleteSession_leaf noDateParse sampleConfig sampleClock 0 "c1" "P").
  - vm_compute. reflexivity.
  - reflexivity.
  - reflexivity.
  - discriminate.
  - discriminate.
  - vm_compute. reflexivity.
  - reflexivity.
  - repeat split; simpl; eauto; discriminate.
  - simpl. apply NoDup_singleton.
  - unfold unique_names. vm_compute. repeat constructor; set_solver.
  - vm_compute. by eexists.
Defined.

End DeleteLeafFacts.

(** ** Sanitised input *)

Module InputFacts.

Lemma length_string_of_list (l : list ascii) :
  String.length (String.string_of_list_ascii l) = length l.
Proof. induction l as [|c l IH]; simpl; congruence. Qed.

Lemma replaceAll_One (p : ascii -> bool) (s : string) :
  Regex.replaceAll [Regex.One p] (fun _ => "") s = remove_chars p s.
Proof.
  unfold Regex.replaceAll. induction s as [|c s IH]; simpl; [done |].
  destruct (p c); simpl; by rewrite IH.
Qed.

Lemma chars_remove (p : ascii -> bool) (s : string) :
  chars (remove_chars p s) = filter (fun c => p c = false) (chars s).
Proof.
  unfold chars. induction s as [|c s IH]; simpl; [done |].
  rewrite filter_cons. destruct (p c) eqn:E; simpl.
  - destruct (decide (true = false)); [done | exact IH].
  - destruct (decide (false = false)); [| done]. by rewrite IH.
Qed.

Lemma remove_chars_none (p : ascii -> bool) (s : string) :
  Forall (fun c => p c = false) (chars s) -> remove_chars p s = s.
Proof.
  unfold chars. induction s as [|c s IH]; simpl; [done |].
  intros [Hc Hs]%Forall_cons. rewrite Hc. by rewrite IH.
Qed.

Lemma dropWhile_sublist (p : ascii -> bool) (l : list ascii) : dropWhile p l `sublist_of` l.
Proof.
  induction l as [|c l IH]; simpl; [done |].
  destruct (p c); [by apply sublist_cons | done].
Qed.

Lemma dropWhile_head (p : ascii -> bool) (l : list ascii) (c : ascii) :
  head (dropWhile p l) = Some c -> p c = false.
Proof.
  induction l as [|d l IH]; simpl; [done |].
  destruct (p d) eqn:E; [exact IH |]. simpl. by intros [= <-].
Qed.

Lemma dropWhile_id (p : ascii -> bool) (l : list ascii) :
  (forall c, head l = Some c -> p c = false) -> dropWhile p l = l.
Proof. destruct l as [|c l]; simpl; [done |]. intros H. by rewrite (H c eq_refl). Qed.

Lemma last_rev (l : list ascii) : last (rev l) = head l.
Proof. destruct l as [|c l]; simpl; [done |]. by rewrite last_snoc. Qed.

Lemma head_rev (l : list ascii) : head (rev l) = last l.
Proof. rewrite <- (rev_involutive l) at 2. by rewrite last_rev. Qed.

Lemma dropWhile_last (p : ascii -> bool) (l : list ascii) (c : ascii) :
  last (dropWhile p l) = Some c -> last l = Some c.
Proof.
  induction l as [|d l IH]; simpl; [done |].
  destruct (p d); [| done]. intros H. specialize (IH H).
  destruct l; [done | exact IH].
Qed.

Lemma dropWhile_nonempty (p : ascii -> bool) (l : list ascii) (c : ascii) :
  last l = Some c -> p c = false -> last (dropWhile p l) = Some c.
Proof.
  induction l as [|d l IH]; simpl; [done |]. intros Hlast Hc.
  destruct (p d) eqn:E; [| done]. apply IH; [| done].
  destruct l as [|e l]; [| exact Hlast]. simpl in Hlast. injection Hlast as ->. congruence.
Qed.

(** The two ends of a trimmed text. *)
Lemma trim_ends (l : list ascii) :
  let t := rev (dropWhile whiteSpace (rev (dropWhile whiteSpace l))) in
  (forall c, head t = Some c -> whiteSpace c = false)
  /\ (forall c, last t = Some c -> whiteSpace c = false).
Proof.
  cbv zeta. set (l1 := dropWhile whiteSpace l).
  split; intros c Hc.
  - rewrite head_rev in Hc. apply dropWhile_last in Hc.
    rewrite last_rev in Hc. by apply dropWhile_head in Hc.
  - rewrite last_rev in Hc. by apply dropWhile_head in Hc.
Qed.

Lemma trim_fixed (l : list ascii) :
  (forall c, head l = Some c -> whiteSpace c = false) ->
  (forall c, last l = Some c -> whiteSpace c = false) ->
  rev (dropWhile whiteSpace (rev (dropWhile whiteSpace l))) = l.
Proof.
  intros Hh Hl. rewrite (dropWhile_id _ l Hh).
  rewrite dropWhile_id; [apply rev_involutive |].
  intros c Hc. rewrite head_rev in Hc. by apply Hl.
Qed.

Lemma markup_split (c : ascii) :
  markup c = false
  <-> (is_char "<" c || is_char ">" c) = false /\ (is_char "{" c || is_char "}" c) = false.
Proof. unfold markup. destruct (is_char "<" c), (is_char ">" c), (is_char "{" c), (is_char "}" c); naive_solver. Qed.

(** X16.  For ASCII input, a text that [sanitizeInput] returns holds none
    of the characters [<], [>], [{], [}], neither starts nor ends with
    white space, and has between 1 and [maxLength] characters; sanitising
    it again returns it unchanged.  An input that is not a string is
    refused. *)
Theorem sanitizeInput_result (input : JsValue) (maxLength : Z) (r : string) :
  ascii_text input ->
  ValidationUtils.sanitizeInput input maxLength = inr r ->
  Forall (fun c => markup c = false) (chars r)
  /\ (forall c, head (chars r) = Some c -> whiteSpace c = false)
  /\ (forall c, last (chars r) = Some c -> whiteSpace c = false)
  /\ 0 < Z.of_nat (String.length r) <= maxLength
  /\ (exists text, input = VStr text)
  /\ ValidationUtils.sanitizeInput (VStr r) maxLength = inr r.
Proof.
  intros _.
  unfold ValidationUtils.sanitizeInput at 1. destruct input as [| | | |text| | |]; try done.
  rewrite !replaceAll_One.
  set (cleaned := remove_chars _ (remove_chars _ text)).
  destruct (Z.ltb_spec maxLength (Z.of_nat (String.length (trim cleaned)))) as [| Hmax]; [done |].
  destruct (Nat.eqb_spec (String.length (trim cleaned)) 0) as [| Hlen]; [done |].
  intros [= <-].
  assert (chars (trim cleaned)
          = rev (dropWhile whiteSpace (rev (dropWhile whiteSpace (chars cleaned))))) as Hchars.
  { unfold chars, trim. by rewrite String.list_ascii_of_string_of_list_ascii. }
  assert (Forall (fun c => markup c = false) (chars (trim cleaned))) as Hclean.
  { apply Forall_forall. intros c Hc. rewrite Hchars in Hc.
    assert (c ∈ chars cleaned) as Hin.
    { apply (proj1 (list_elem_of_In _ _)) in Hc.
      rewrite <- in_rev in Hc. apply (proj2 (list_elem_of_In _ _)) in Hc.
      apply (fun H => elem_of_sublist _ _ _ H (dropWhile_sublist _ _)) in Hc.
      apply (proj1 (list_elem_of_In _ _)) in Hc. rewrite <- in_rev in Hc.
      apply (proj2 (list_elem_of_In _ _)) in Hc.
      by apply (fun H => elem_of_sublist _ _ _ H (dropWhile_sublist _ _)) in Hc. }
    unfold cleaned in Hin. rewrite !chars_remove in Hin.
    apply list_elem_of_filter in Hin as [H2 Hin].
    apply list_elem_of_filter in Hin as [H1 _]. by apply markup_split. }
  destruct (trim_ends (chars cleaned)) as [Hhead Hlast]. cbv zeta in Hhead, Hlast.
  rewrite <- Hchars in Hhead, Hlast.
  split_and!; try done; [lia | by eexists |].
  unfold ValidationUtils.sanitizeInput. rewrite !replaceAll_One.
  rewrite (remove_chars_none _ (trim cleaned)).
  2:{ eapply Forall_impl; [exact Hclean |]. simpl. intros c Hc.
      apply markup_split in Hc as [? ?]. done. }
  rewrite (remove_chars_none _ (trim cleaned)).
  2:{ eapply Forall_impl; [exact Hclean |]. simpl. intros c Hc.
      apply markup_split in Hc as [? ?]. done. }
  assert (trim (trim cleaned) = trim cleaned) as ->.
  { unfold trim at 1. fold (chars (trim cleaned)). rewrite trim_fixed by done.
    apply String.string_of_list_ascii_of_string. }
  destruct (Z.ltb_spec maxLength (Z.of_nat (String.length (trim cleaned)))); [lia |].
  destruct (Nat.eqb_spec (String.length (trim cleaned)) 0); [lia | done].
Qed.

Lemma sanitizeInput_result_witness :
  ascii_text (VStr "  <b>plan {x}</b> ")
  /\ ValidationUtils.sanitizeInput (VStr "  <b>plan {x}</b> ") 1000 = inr "bplan x/b"
  /\ ValidationUtils.sanitizeInput (VStr "bplan x/b") 1000 = inr "bplan x/b".
Proof.
  assert (ascii_text (VStr "  <b>plan {x}</b> ")) as Hascii
    by (repeat constructor).
  split; [exact Hascii |]. split; [reflexivity |].
  apply (sanitizeInput_result (VStr "  <b>plan {x}</b> ") 1000 "bplan x/b" Hascii eq_refl).
Defined.

End InputFacts.

(** ** Identifier formats *)

Module IdentifierFacts.

Lemma append_nil_l (b : string) : ("" ++ b = b)%string.
Proof. reflexivity. Qed.

Lemma append_cons (c : ascii) (a b : string) :
  (String c a ++ b = String c (a ++ b))%string.
Proof. reflexivity. Qed.

Lemma append_assoc (a b c : string) : ((a ++ b) ++ c = a ++ (b ++ c))%string.
Proof. induction a as [|x a IH]; [done |]. rewrite !append_cons. congruence. Qed.

Lemma append_nil_r (a : string) : (a ++ "" = a)%string.
Proof. induction a as [|x a IH]; [done |]. rewrite append_cons. congruence. Qed.

Lemma all_chars_nil (p : ascii -> bool) : all_chars p "".
Proof. constructor. Qed.

Lemma all_chars_cons (p : ascii -> bool) (c : ascii) (s : string) :
  all_chars p (String c s) <-> p c = true /\ all_chars p s.
Proof. exact (Forall_cons (fun c => p c = true) c (chars s)). Qed.

Lemma matches_nil (s : string) : Pattern.matches [] s = true <-> s = "".
Proof. by destruct s. Qed.

Lemma matches_One (p : ascii -> bool) (r : list Regex.atom) (s : string) :
  Pattern.matches (Regex.One p :: r) s = true
  <-> exists c s', s = String c s' /\ p c = true /\ Pattern.matches r s' = true.
Proof.
  destruct s as [|c s]; simpl.
  - split; [done | by intros (? & ? & ? & _)].
  - rewrite andb_true_iff. split; [intros [? ?]; by eexists _, _ |].
    by intros (? & ? & [= <- <-] & ? & ?).
Qed.

Lemma matches_Many (p : ascii -> bool) (r : list Regex.atom) (s : string) :
  Pattern.matches (Regex.Many p :: r) s = true
  <-> exists s1 s2, s = (s1 ++ s2)%string /\ all_chars p s1 /\ Pattern.matches r s2 = true.
Proof.
  cbn [Pattern.matches]. induction s as [|c s IH].
  - rewrite orb_false_r. split.
    + intros H. exists "", "". split_and!; [done | apply all_chars_nil | done].
    + intros (s1 & s2 & Heq & _ & H). destruct s1; [| done].
      rewrite append_nil_l in Heq. by subst.
  - rewrite orb_true_iff, andb_true_iff. split.
    + intros [H | [Hc H]].
      * exists "", (String c s). split_and!; [done | apply all_chars_nil | done].
      * apply IH in H as (s1 & s2 & -> & H1 & H2).
        exists (String c s1), s2. split_and!; [done | by apply all_chars_cons | done].
    + intros (s1 & s2 & Heq & H1 & H2). destruct s1 as [|c' s1].
      * rewrite append_nil_l in Heq. left. by subst.
      * rewrite append_cons in Heq. injection Heq as <- ->.
        apply all_chars_cons in H1 as [Hc H1].
        right. split; [done |]. apply IH. by exists s1, s2.
Qed.

Lemma matches_literal (text : string) (r : list Regex.atom) (s : string) :
  Pattern.matches (Pattern.literal text ++ r) s = true
  <-> exists s', s = (text ++ s')%string /\ Pattern.matches r s' = true.
Proof.
  unfold Pattern.literal. revert s. induction text as [|c text IH]; intros s.
  - cbn [String.list_ascii_of_string map app]. split; [by exists s |].
    intros (s' & Heq & H). rewrite append_nil_l in Heq. by subst.
  - cbn [String.list_ascii_of_string map app Pattern.matches].
    destruct s as [|d s]; [split; [done | by intros (? & ? & _)] |].
    rewrite andb_true_iff, IH. unfold is_char. rewrite Ascii.eqb_eq. split.
    + intros [-> (s' & -> & H)]. by exists s'.
    + intros (s' & Heq & H). rewrite append_cons in Heq. injection Heq as -> ->.
      split; [done | by exists s'].
Qed.

(** The shape [<prefix><digits>-<letters and digits>]. *)
Lemma generated_id_shape (prefix id : string) :
  Pattern.matches
    (Pattern.literal prefix
     ++ [Regex.One is_digit; Regex.Many is_digit; Regex.One (is_char "-");
         Regex.One alphanumeric; Regex.Many alphanumeric]) id = true
  <-> exists digits suffix,
        id = (prefix ++ digits ++ "-" ++ suffix)%string
        /\ digits <> "" /\ all_chars is_digit digits
        /\ suffix <> "" /\ all_chars alphanumeric suffix.
Proof.
  rewrite matches_literal. split.
  - intros (s & -> & H).
    apply matches_One in H as (d & s1 & -> & Hd & H).
    apply matches_Many in H as (ds & s2 & -> & Hds & H).
    apply matches_One in H as (m & s3 & -> & Hm & H).
    apply matches_One in H as (a & s4 & -> & Ha & H).
    apply matches_Many in H as (r & s5 & -> & Hr & H).
    apply matches_nil in H as ->.
    unfold is_char in Hm. apply Ascii.eqb_eq in Hm as <-.
    exists (String d ds), (String a r). rewrite append_nil_r.
    split_and!; [done | done | by apply all_chars_cons | done | by apply all_chars_cons].
  - intros (digits & suffix & -> & Hdne & Hd & Hsne & Hs).
    destruct digits as [|d ds]; [done |]. destruct suffix as [|a r]; [done |].
    apply all_chars_cons in Hd as [Hd Hds]. apply all_chars_cons in Hs as [Ha Hr].
    eexists. split; [reflexivity |].
    apply matches_One. exists d, (ds ++ String "-" (String a r))%string.
    split_and!; [done | done |].
    apply matches_Many. exists ds, (String "-" (String a r)). split_and!; [done | done |].
    apply matches_One. eexists _, _. split_and!; [reflexivity | done |].
    apply matches_One. eexists _, _. split_and!; [reflexivity | done |].
    apply matches_Many. exists r, "". rewrite append_nil_r. split_and!; done.
Qed.

(** X17.  [validateSessionId] and [validateTaskId] accept exactly the
    texts made of the prefix [session-] (respectively [task-]), one or more
    digits, a hyphen and one or more letters or digits.  In particular an id
    with an empty last part, as the id generators produce when the random
    part comes out empty, is refused. *)
Theorem validateSessionId_validateTaskId_shape (id : string) :
  (ValidationUtils.validateSessionId id = true
   <-> exists digits suffix,
         id = ("session-" ++ digits ++ "-" ++ suffix)%string
         /\ digits <> "" /\ all_chars is_digit digits
         /\ suffix <> "" /\ all_chars alphanumeric suffix)
  /\ (ValidationUtils.validateTaskId id = true
      <-> exists digits suffix,
            id = ("task-" ++ digits ++ "-" ++ suffix)%string
            /\ digits <> "" /\ all_chars is_digit digits
            /\ suffix <> "" /\ all_chars alphanumeric suffix).
Proof. split; apply generated_id_shape. Qed.

Lemma digits_of_uint (d : Decimal.uint) : all_chars is_digit (NilEmpty.string_of_uint d).
Proof.
  induction d; simpl; try apply all_chars_nil;
    (apply all_chars_cons; split; [by vm_compute | done]).
Qed.

Lemma decimal_digits (n : Z) :
  0 <= n -> decimal n <> "" /\ all_chars is_digit (decimal n).
Proof.
  intros Hn. unfold decimal. destruct n as [|p|p]; [| | lia].
  - split; [done |]. apply all_chars_cons. split; [by vm_compute | apply all_chars_nil].
  - simpl. unfold NilZero.string_of_uint.
    destruct (Pos.to_uint p) eqn:E; try (split; [done | apply digits_of_uint]).
    split; [done |]. apply all_chars_cons. split; [by vm_compute | apply all_chars_nil].
Qed.

End IdentifierFacts.
(** ** The transition tables as graphs *)

Module TransitionGraphFacts.

Lemma task_reaches_in_progress (from : TaskStatus.t) :
  from <> TaskStatus.COMPLETED -> tc accepted_task_transition from TaskStatus.IN_PROGRESS.
Proof.
  intros Hne. destruct from; try done.
  - by apply tc_once.
  - apply (tc_l _ _ TaskStatus.BLOCKED); [done |]. by apply tc_once.
  - by apply tc_once.
  - apply (tc_l _ _ TaskStatus.NOT_STARTED); [done |]. by apply tc_once.
  - by apply tc_once.
Qed.

Lemma in_progress_reaches_task (to : TaskStatus.t) :
  tc accepted_task_transition TaskStatus.IN_PROGRESS to.
Proof.
  destruct to; try (by apply tc_once).
  - apply (tc_l _ _ TaskStatus.CANCELLED); [done |]. by apply tc_once.
  - apply (tc_l _ _ TaskStatus.BLOCKED); [done |]. by apply tc_once.
Qed.

Lemma session_reaches_active (from : SessionState.t) :
  from <> SessionState.COMPLETED -> tc accepted_session_transition from SessionState.ACTIVE.
Proof. intros Hne. destruct from; try done; by apply tc_once. Qed.

Lemma active_reaches_session (to : SessionState.t) :
  tc accepted_session_transition SessionState.ACTIVE to.
Proof. destruct to; by apply tc_once. Qed.

(** X18.  The transition tables of [ValidationUtils] as graphs.  Through
    transitions that [validateTaskStatusTransition] accepts, a task that is
    not completed can reach every status (its own again included), and a
    completed task can go nowhere: no transition from completed is
    accepted, not even the one to completed.  Through transitions that
    [validateStateTransition] accepts, a session that is not completed can
    reach every state, and from completed only completed is accepted. *)
Theorem accepted_transitions_reach_all_except_from_completed :
  (forall from to, from <> TaskStatus.COMPLETED -> tc accepted_task_transition from to)
  /\ (forall to, ~ accepted_task_transition TaskStatus.COMPLETED to)
  /\ (forall from to,
        from <> SessionState.COMPLETED -> tc accepted_session_transition from to)
  /\ (forall to,
        accepted_session_transition SessionState.COMPLETED to
        <-> to = SessionState.COMPLETED).
Proof.
  split_and!.
  - intros from to Hne. etrans; [by apply task_reaches_in_progress |].
    apply in_progress_reaches_task.
  - intros to. by destruct to.
  - intros from to Hne. etrans; [by apply session_reaches_active |].
    apply active_reaches_session.
  - intros to. by destruct to.
Qed.

End TransitionGraphFacts.
(** ** The two dependency validators *)

Module ValidatorAgreement.
Import DependencyCheck DependencyFacts DependencyValidationFacts.

(** The loop over the tasks leaves the same sets and cycles whatever the
    validity flag it starts from. *)
Lemma checkAll_state (tasks : list Task) (fuel : nat) (todo : list Task) :
  forall b b' st r,
    checkAll tasks (taskIdSet tasks) fuel todo b st = Some r ->
    exists r', checkAll tasks (taskIdSet tasks) fuel todo b' st = Some r' /\ r'.2 = r.2.
Proof.
  induction todo as [|t todo IH]; intros b b' st r Hrun; simpl in *.
  - injection Hrun as <-. by eexists.
  - destruct (decide (task_id t ∈ visited st)); [by eapply IH |].
    destruct (hasCycle tasks (taskIdSet tasks) fuel (task_id t) [] st) as [[found st']|];
      [| done].
    by eapply IH.
Qed.

Lemma invalidDependencyErrors_nil (tasks : list Task) :
  DependencyErrorsCheck.invalidDependencyErrors tasks = [] <-> invalidDependencies tasks = [].
Proof.
  unfold DependencyErrorsCheck.invalidDependencyErrors, invalidDependencies,
    invalidDependenciesOf.
  generalize (taskIdSet tasks). intros ids.
  induction tasks as [|t ts IH]; [done |].
  cbn [flat_map]. rewrite !app_nil. rewrite IH.
  assert (forall deps,
            flat_map (fun dependency =>
                        if decide (dep_taskId dependency ∈ ids) then []
                        else ["Task " ++ task_id t ++ " has invalid dependency: "
                              ++ dep_taskId dependency]) deps = []
            <-> flat_map (fun dependency =>
                            if decide (dep_taskId dependency ∈ ids) then []
                            else [task_id t ++ (" -> " ++ dep_taskId dependency)]) deps = [])
    as Hdeps.
  { induction deps as [|d deps IHd]; [done |]. cbn [flat_map].
    destruct (decide _); [exact IHd | done]. }
  by rewrite Hdeps.
Qed.

(** X19.  [ValidationUtils.validateTaskDependencies] and the validation
    of [TaskManifest.validateTaskDependencies] judge a list of tasks with
    distinct ids alike: both return, with the same [cycles] and the same
    [isValid]; [isValid] is true exactly when [errors] is empty, which is
    exactly when every dependency names a task of the list and the
    dependencies form no cycle. *)
Theorem validateTaskDependencies_validators_agree (tasks : list Task) :
  NoDup (map task_id tasks) ->
  exists r r',
    DependencyErrorsCheck.validateTaskDependencies tasks = Some r
    /\ validate tasks = Some r'
    /\ vd_cycles r = dv_cycles r'
    /\ vd_isValid r = dv_isValid r'
    /\ (vd_isValid r = true <-> vd_errors r = [])
    /\ (vd_isValid r = true
        <-> ~ has_cycle tasks
            /\ forall t d, t ∈ tasks -> d ∈ task_dependencies t ->
                           dep_taskId d ∈ map task_id tasks).
Proof.
  intros Hnd. destruct (validate_correct tasks Hnd) as (r' & Hr' & Hcyc & Hinv & Hvalid).
  unfold validate in Hr'.
  destruct (checkAll _ _ _ _ _ _) as [[isValid st]|] eqn:Hrun; [| done].
  injection Hr' as <-. cbn [dv_isValid dv_cycles dv_invalidDependencies] in *.
  destruct (checkAll_state _ _ _ _ true _ _ Hrun) as ([b st'] & Hrun' & Hst).
  cbn [snd] in Hst. subst st'.
  unfold DependencyErrorsCheck.validateTaskDependencies, validate. rewrite Hrun, Hrun'.
  eexists _, _. split; [reflexivity |]. split; [reflexivity |].
  cbn [vd_cycles vd_isValid vd_errors dv_cycles dv_isValid].
  set (errors := match cycles st with [] => _ | _ => _ end).
  assert (errors = [] <-> cycles st = [] /\ invalidDependencies tasks = []) as Herr.
  { unfold errors. rewrite <- invalidDependencyErrors_nil.
    destruct (cycles st); [naive_solver |].
    split; [intros [? ?]%app_nil; done | by intros [? _]]. }
  assert ((match errors with [] => true | _ => false end) = true <-> errors = []) as Hb
    by (by destruct errors).
  split_and!; [done | | done |].
  - destruct isValid.
    + by apply Hb, Herr, Hvalid.
    + destruct errors; [| done]. exfalso.
      pose proof (proj1 Herr eq_refl) as Hclean. by apply Hvalid in Hclean.
  - rewrite Hb, Herr. split.
    + intros [Hc Hi]. split; [intros Hcycle; by apply Hcyc in Hcycle |].
      intros t d Ht Hd. destruct (decide (dep_taskId d ∈ map task_id tasks)); [done |].
      exfalso. assert (task_id t ++ (" -> " ++ dep_taskId d) ∈ invalidDependencies tasks)
        as Hin by (apply Hinv; by exists t, d).
      rewrite Hi in Hin. by apply elem_of_nil in Hin.
    + intros [Hc Hall]. split.
      * destruct (cycles st) as [|c cs]; [done |]. exfalso. apply Hc, Hcyc. done.
      * destruct (invalidDependencies tasks) as [|msg msgs]; [done |]. exfalso.
        assert (msg ∈ msg :: msgs) as Hin by left.
        apply Hinv in Hin as (t & d & Ht & Hd & Hnot & _). by apply Hnot, (Hall t d).
Qed.

(** The hypothesis of [validateTaskDependencies_validators_agree] holds for
    the tasks of the cycle scenario. *)
Lemma validateTaskDependencies_validators_agree_witness :
  NoDup (map task_id (TaskManifest.queryTasks (orchestrationQuery "orch-1") cycleDir))
  /\ exists r,
       DependencyErrorsCheck.validateTaskDependencies
         (TaskManifest.queryTasks (orchestrationQuery "orch-1") cycleDir) = Some r
       /\ (vd_isValid r = true <-> vd_errors r = []).
Proof.
  assert (NoDup (map task_id
                   (TaskManifest.queryTasks (orchestrationQuery "orch-1") cycleDir))) as Hnd.
  { vm_compute. repeat constructor; set_solver. }
  split; [exact Hnd |].
  destruct (validateTaskDependencies_validators_agree _ Hnd) as (r & _ & Hr & _ & _ & _ & He & _).
  exists r. split; [exact Hr | exact He].
Defined.

End ValidatorAgreement.
(** ** Task records and the task schema *)

Module TaskSchemaFacts.

(** A failed object schema reports at least one path. *)
Lemma object_inl (shape : list (string * Parser)) (v : JsValue) (es : list string) :
  Zod.object shape v = inl es -> es <> [].
Proof.
  unfold Zod.object, Zod.invalid. destruct v; try (by intros [= <-]).
  destruct (flat_map _ _) as [|e errs]; [done | by intros [= <-]].
Qed.

(** An accepted array has no element that fails with an error. *)
Lemma arrayOf_elements (p : Parser) (l : list JsValue) (v : JsValue) :
  ZodSchemas.arrayOf p (VArr l) = inr v ->
  forall d es, d ∈ l -> p d = inl es -> es = [].
Proof.
  unfold ZodSchemas.arrayOf.
  set (results := imap (fun i x => (i, p x)) l).
  destruct (flat_map _ results) as [|e errs] eqn:E; [| done].
  intros _ d es Hd Hes. apply list_elem_of_lookup in Hd as [i Hi].
  assert ((i, inl es) ∈ results) as Hres.
  { apply list_elem_of_lookup. exists i. unfold results.
    by rewrite list_lookup_imap, Hi, <- Hes. }
  destruct es as [|e es]; [done |]. exfalso.
  assert (ZodSchemas.index_path i e
            ∈ flat_map (fun ir : nat * (list string + JsValue) =>
                          match ir.2 with
                          | inl es => map (ZodSchemas.index_path ir.1) es
                          | inr _ => []
                          end) results) as Hin.
  { apply list_elem_of_In, in_flat_map. exists (i, inl (e :: es)).
    split; [by apply list_elem_of_In | by left]. }
  rewrite E in Hin. by apply elem_of_nil in Hin.
Qed.

(** X20.  The task schema and the dependency types.  A record that
    [validateTask] accepts has, in every entry of its [dependencies] array,
    a [type] that is one of the texts blocks, enables and requires; so it
    has no dependency whose type is a value of [DependencyType], the type
    of the dependencies of the tasks that [TaskManifest] stores. *)
Theorem validateTask_dependency_types (Date_parse : string -> JsDate) (data : JsValue)
    (dependencies : list JsValue) (d : JsValue) :
  tkv_isValid (validateTask Date_parse data) = true ->
  get_prop "dependencies" data = VArr dependencies ->
  d ∈ dependencies ->
  (exists type, get_prop "type" d = VStr type /\ type ∈ ["blocks"; "enables"; "requires"])
  /\ forall ty, get_prop "type" d <> VStr (dependencyTypeName ty).
Proof.
  intros Hvalid Hdeps Hd.
  assert (exists type,
            get_prop "type" d = VStr type /\ type ∈ ["blocks"; "enables"; "requires"])
    as (type & Htype & Hin).
  { unfold validateTask in Hvalid.
    destruct (TaskSchema Date_parse data) as [errors | task] eqn:Hschema; [done |].
    destruct data as [| | | | | | |props]; try done. cbn [get_prop] in Hdeps.
    unfold TaskSchema in Hschema.
    set (dependency := Zod.object [("taskId", Zod.str false);
                                   ("type", Zod.nativeEnum ["blocks"; "enables"; "requires"])])
      in Hschema.
    pose proof (SessionStoreFacts.object_fields _ _ _ Hschema "dependencies"
                  (Zod.withDefault (VArr []) (ZodSchemas.arrayOf dependency))) as Hfield.
    rewrite Hdeps in Hfield. cbn [Zod.withDefault] in Hfield.
    destruct (ZodSchemas.arrayOf dependency (VArr dependencies)) as [es | v] eqn:Harr.
    { specialize (Hfield ltac:(set_solver) es eq_refl). subst es.
      unfold ZodSchemas.arrayOf in Harr. by destruct (flat_map _ _). }
    destruct (dependency d) as [es | v'] eqn:Hdep.
    { pose proof (arrayOf_elements _ _ _ Harr d es Hd Hdep) as ->.
      by apply object_inl in Hdep. }
    destruct d as [| | | | | | |dprops]; try done. cbn [get_prop].
    pose proof (SessionStoreFacts.object_fields _ _ _ Hdep "type"
                  (Zod.nativeEnum ["blocks"; "enables"; "requires"])
                  ltac:(set_solver)) as Hty.
    unfold Zod.nativeEnum, Zod.invalid in Hty.
    destruct (prop_get "type" dprops) as [| | | |s| | |];
      try (by specialize (Hty _ eq_refl)).
    destruct (existsb (String.eqb s) _) eqn:Hs; [| by specialize (Hty _ eq_refl)].
    exists s. split; [done |]. apply existsb_exists in Hs as (x & Hx & Heq).
    apply String.eqb_eq in Heq. subst x. by apply list_elem_of_In. }
  split; [by exists type |].
  intros ty Heq. rewrite Htype in Heq. injection Heq as ->.
  destruct ty; cbn in Hin; set_solver.
Qed.

(** The hypotheses of [validateTask_dependency_types] hold for a record
    with one dependency of type blocks. *)
Lemma validateTask_dependency_types_witness :
  tkv_isValid (validateTask noDateParse (taskRecord "blocks")) = true
  /\ forall ty,
       VStr "blocks" <> VStr (dependencyTypeName ty).
Proof.
  split; [reflexivity |].
  apply (validateTask_dependency_types noDateParse (taskRecord "blocks")
           [VObj [("taskId", VStr "task-0-z"); ("type", VStr "blocks")]]
           (VObj [("taskId", VStr "task-0-z"); ("type", VStr "blocks")])
           eq_refl eq_refl).
  apply list_elem_of_singleton. reflexivity.
Defined.

End TaskSchemaFacts.
(** ** Recovery of a session file; generated ids *)

Module SessionRecoveryFacts.
Import RecoveryFacts IdentifierFacts.

Section Recovery.
Variable Date_parse : string -> JsDate.
Variable clock : Clock.

(** The repair steps of a session leave the other fields alone. *)
Lemma parseDate_other (field k : string) (r : list (string * JsValue)) :
  field <> k -> prop_get k (SessionRecovery.parseDate Date_parse field r) = prop_get k r.
Proof.
  intros Hne. unfold SessionRecovery.parseDate.
  destruct (truthy _); [| done].
  destruct (prop_get field r); try done. by apply prop_get_set_ne.
Qed.

Lemma ensureObject_other (field k : string) (r : list (string * JsValue)) :
  field <> k -> prop_get k (SessionRecovery.ensureObject field r) = prop_get k r.
Proof.
  intros Hne. unfold SessionRecovery.ensureObject.
  destruct (_ || _); [by apply prop_get_set_ne | done].
Qed.

Lemma ensureArrayIn_other (field sub k : string) (r : list (string * JsValue)) :
  field <> k -> prop_get k (SessionRecovery.ensureArrayIn field sub r) = prop_get k r.
Proof.
  intros Hne. unfold SessionRecovery.ensureArrayIn.
  destruct (prop_get field r); try done.
  destruct (negb _); [by apply prop_get_set_ne | done].
Qed.

Ltac peel :=
  repeat (first [ rewrite ensureArrayIn_other by discriminate
                | rewrite ensureObject_other by discriminate
                | rewrite parseDate_other by discriminate
                | rewrite recoverDate_other by discriminate
                | rewrite ensureProgress_other by discriminate
                | rewrite ensureArray_other by discriminate
                | rewrite ensureEnum_other by discriminate
                | rewrite ensure_other by discriminate
                | rewrite ensureGenerated_other by discriminate ];
          cbn [fst snd]).

(** The fields that the recovery of a session does not know. *)
Lemma recoverSessionData_other (k : string) (data : JsValue) (tick : nat) :
  k ∉ ["id"; "type"; "state"; "orchestrationId"; "startTime"; "endTime";
       "childSessionIds"; "context"; "metadata"] ->
  get_prop k (SessionRecovery.recoverSessionData Date_parse clock data tick).1
  = prop_get k (spread data).
Proof.
  intros Hk. rewrite !not_elem_of_cons in Hk.
  destruct Hk as (? & ? & ? & ? & ? & ? & ? & ? & ? & _).
  unfold SessionRecovery.recoverSessionData. cbv zeta. cbn [fst snd get_prop].
  rewrite !ensureArrayIn_other, !ensureObject_other, !ensureArrayIn_other,
    ensureObject_other, ensureArray_other, parseDate_other, recoverDate_other by done.
  cbn [fst snd]. rewrite ensureGenerated_other by done. cbn [fst snd].
  rewrite !ensureEnum_other by done. by rewrite ensureGenerated_other by done.
Qed.

Lemma recoverSessionData_id (data : JsValue) (tick : nat) :
  get_prop "id" (SessionRecovery.recoverSessionData Date_parse clock data tick).1
  = if truthy (prop_get "id" (spread data)) then prop_get "id" (spread data)
    else VStr ("session-" ++ decimal (time_at clock tick) ++ "-recovered").
Proof.
  unfold SessionRecovery.recoverSessionData. cbv zeta. cbn [fst snd get_prop].
  peel. apply ensureGenerated_field.
Qed.

Lemma recoverTaskData_id (data : JsValue) (tick : nat) :
  get_prop "id" (RecoveryUtils.recoverTaskData Date_parse clock data tick).1
  = if truthy (prop_get "id" (spread data)) then prop_get "id" (spread data)
    else VStr ("task-" ++ decimal (time_at clock tick) ++ "-recovered").
Proof.
  unfold RecoveryUtils.recoverTaskData. cbv zeta. cbn [fst snd get_prop].
  peel. apply ensureGenerated_field.
Qed.

End Recovery.

Lemma recovered_suffix : all_chars alphanumeric "recovered".
Proof. repeat (apply all_chars_cons; split; [by vm_compute |]). apply all_chars_nil. Qed.

Lemma date_like_dateLike (Date_parse : string -> JsDate) (v : JsValue) :
  (forall es, dateLike Date_parse v = inl es -> es = []) -> date_like v.
Proof.
  intros H. destruct v as [| | | | |[d|]| |]; try done;
    by specialize (H _ eq_refl).
Qed.

(** X21.  The ids that the recovery generates are well formed: for a
    record without a usable id, and a clock that is not before 1970,
    [recoverTaskData] sets an id that [validateTaskId] accepts and
    [recoverSessionData] sets an id that [validateSessionId] accepts. *)
Theorem recovered_ids_are_well_formed (Date_parse : string -> JsDate) (clock : Clock)
    (data : JsValue) (tick : nat) :
  0 <= time_at clock tick ->
  truthy (prop_get "id" (spread data)) = false ->
  (exists id,
     get_prop "id" (RecoveryUtils.recoverTaskData Date_parse clock data tick).1 = VStr id
     /\ ValidationUtils.validateTaskId id = true)
  /\ (exists id,
        get_prop "id" (SessionRecovery.recoverSessionData Date_parse clock data tick).1
        = VStr id
        /\ ValidationUtils.validateSessionId id = true).
Proof.
  intros Hclock Hid. destruct (decimal_digits _ Hclock) as [Hne Hdigits].
  split.
  - rewrite recoverTaskData_id, Hid. eexists. split; [reflexivity |].
    apply generated_id_shape. exists (decimal (time_at clock tick)), "recovered".
    split_and!; [done | done | done | done | apply recovered_suffix].
  - rewrite recoverSessionData_id, Hid. eexists. split; [reflexivity |].
    apply generated_id_shape. exists (decimal (time_at clock tick)), "recovered".
    split_and!; [done | done | done | done | apply recovered_suffix].
Qed.

(** The hypotheses of [recovered_ids_are_well_formed] hold for an empty
    record and the sample clock. *)
Lemma recovered_ids_are_well_formed_witness :
  0 <= time_at sampleClock 0
  /\ truthy (prop_get "id" (spread (VObj []))) = false
  /\ exists id,
       get_prop "id" (RecoveryUtils.recoverTaskData noDateParse sampleClock (VObj []) 0).1
       = VStr id
       /\ ValidationUtils.validateTaskId id = true.
Proof.
  assert (0 <= time_at sampleClock 0) as Hclock by (vm_compute; discriminate).
  split; [exact Hclock |]. split; [reflexivity |].
  apply (recovered_ids_are_well_formed noDateParse sampleClock (VObj []) 0 Hclock eq_refl).
Defined.

(** X22.  What the recovery of a session file needs.  [recoverSessionFile]
    succeeds only if the backup was made and the document of the file (its
    text as it is or after the repairs) already holds a [timestamp] and a
    [lastActivityAt] that are strings or valid dates: the recovery fills in
    [id], [type], [state], [orchestrationId] and [startTime], but not the
    two time stamps that the session schema requires. *)
Theorem recoverSessionFile_needs_time_stamps (Date_parse : string -> JsDate) (clock : Clock)
    (backup : BackupOutcome) (rawData : string) (tick : nat) :
  rr_success (SessionRecovery.recoverSessionFile Date_parse clock backup rawData tick).1
  = true ->
  (exists backupPath, backup = BackupAt backupPath)
  /\ exists data,
       document_of rawData = Some data
       /\ date_like (prop_get "timestamp" (spread data))
       /\ date_like (prop_get "lastActivityAt" (spread data)).
Proof.
  unfold SessionRecovery.recoverSessionFile, document_of.
  destruct backup as [backupPath | message]; [| done].
  intros Hok. split; [by eexists |].
  destruct (match JSON.parse rawData with
            | Some sessionData => Some sessionData
            | None => JSON.parse (RecoveryUtils.fixCommonJsonIssues rawData)
            end) as [data|]; [| done].
  exists data. split; [done |].
  pose proof (recoverSessionData_other Date_parse clock "timestamp" data tick) as Hts.
  pose proof (recoverSessionData_other Date_parse clock "lastActivityAt" data tick) as Hla.
  destruct (SessionRecovery.recoverSessionData Date_parse clock data tick) as [recovered tick'].
  cbn [fst] in *.
  unfold validateSession in Hok.
  destruct (SessionSchema Date_parse recovered) as [errors | session] eqn:Hschema; [done |].
  assert (exists props, recovered = VObj props) as [props ->].
  { destruct recovered; try done. by eexists. }
  cbn [get_prop] in Hts, Hla.
  rewrite <- Hts, <- Hla by (rewrite !not_elem_of_cons; split_and!; try done; apply not_elem_of_nil).
  unfold SessionSchema in Hschema.
  split; apply (date_like_dateLike Date_parse);
    apply (SessionStoreFacts.object_fields _ _ _ Hschema); set_solver.
Qed.

(** The hypothesis of [recoverSessionFile_needs_time_stamps] holds for a
    file that holds the two time stamps and nothing else. *)
Lemma recoverSessionFile_needs_time_stamps_witness :
  rr_success (SessionRecovery.recoverSessionFile noDateParse sampleClock (BackupAt "backup")
                stampedSessionFile 0).1 = true
  /\ exists data,
       document_of stampedSessionFile = Some data
       /\ date_like (prop_get "timestamp" (spread data))
       /\ date_like (prop_get "lastActivityAt" (spread data)).
Proof.
  assert (rr_success (SessionRecovery.recoverSessionFile noDateParse sampleClock
                        (BackupAt "backup") stampedSessionFile 0).1 = true) as Hok
    by (vm_compute; reflexivity).
  split; [exact Hok |].
  apply (recoverSessionFile_needs_time_stamps noDateParse sampleClock (BackupAt "backup")
           stampedSessionFile 0 Hok).
Defined.

End SessionRecoveryFacts.
